(** * gLocal probing: a shallow embedding of the probe's decision rules

    The development follows four files of the repository:
    - [utils/probing/from_scratch.py], the Lightning module [FromScratch]
      (similarities, tie breaking, choice accuracy, the combined loss, the
      prediction step and the optimizer configuration);
    - [main_glocal_probing_efficient.py], the driver [run] (feature-store
      dispatch, global feature normalization, the fold loop), the means
      over the folds and the results frame;
    - [utils/analyses/families.py], the model families and the regular
      expressions that select them;
    - [downstream/fewshot/data.py], the few-shot datasets and the split
      files of SUN397.

    Tensors of floats are modelled with exact rationals ([Q]) where the code
    only compares, multiplies, adds and rounds them, and with real numbers
    ([R]) where a square root is taken (the standard deviation); rounding
    error, infinities and not-a-number have no counterpart here.  A 1-D
    tensor is a list, a 2-D tensor a list of rows.  Python exceptions are
    the [None] of [option], or the left injection of a sum when the kind of
    the exception matters.  Names of models, datasets and files are ASCII
    strings. *)

From Stdlib Require Import ZArith QArith Qround Qabs List Bool String Ascii.
From Stdlib Require Import DecimalString Lia Lqa SetoidList.
From Stdlib Require Import Permutation SetoidPermutation.
From Stdlib Require Import Reals Lra.
Import ListNotations.

(** ** Part I: the embedding *)

(** *** Small error monad for Python's exceptions *)

Module Py.

Definition bind {A B : Type} (m : option A) (k : A -> option B) : option B :=
  match m with
  | Some a => k a
  | None => None
  end.

Fixpoint mapM {A B : Type} (f : A -> option B) (l : list A) : option (list B) :=
  match l with
  | [] => Some []
  | x :: l' =>
      bind (f x) (fun y => bind (mapM f l') (fun ys => Some (y :: ys)))
  end.

(** The exceptions that are told apart. *)
Inductive Exception : Type :=
| ValueError (msg : string)
| AttributeError (name : string)
| IndexError
| RuntimeError
| UnboundLocalError (name : string).

(** A computation that returns or raises. *)
Definition Result (A : Type) : Type := (Exception + A)%type.

Definition try {A B : Type} (m : Result A) (k : A -> Result B) : Result B :=
  match m with
  | inl e => inl e
  | inr a => k a
  end.

(** Loop control: what the body of a [for] tells the loop when it ends. *)
Inductive control : Type := Continue | Break.

(** [for x in items: body], with [break]; an exception of the body ends
    the loop and is passed on. *)
Fixpoint for_each {A S : Type} (body : A -> S -> Result (S * control))
  (items : list A) (s : S) : Result S :=
  match items with
  | [] => inr s
  | x :: rest =>
      match body x s with
      | inl e => inl e
      | inr (s', Break) => inr s'
      | inr (s', Continue) => for_each body rest s'
      end
  end.

(** [d[key] = value] on a dictionary kept as an association list in
    insertion order. *)
Fixpoint dict_set {V : Type} (key : string) (value : V)
  (d : list (string * V)) : list (string * V) :=
  match d with
  | [] => [(key, value)]
  | (k, v) :: d' =>
      if String.eqb k key then (k, value) :: d'
      else (k, v) :: dict_set key value d'
  end.

(** [enumerate(items, start)]. *)
Fixpoint enumerate {A : Type} (start : nat) (items : list A) : list (nat * A) :=
  match items with
  | [] => []
  | x :: rest => (start, x) :: enumerate (S start) rest
  end.

End Py.

Notation "x <- m ;; k" := (Py.bind m (fun x => k))
  (at level 61, m at next level, right associativity).

(** *** The tensor operations the probe uses *)

Module Torch.

Local Open Scope Q_scope.

Definition Vec : Type := list Q.
Definition Matrix : Type := list (list Q).

(** The entrywise product of two 1-D tensors of one length. *)
Fixpoint zip_mul (a b : Vec) : option Vec :=
  match a, b with
  | [], [] => Some []
  | x :: a', y :: b' => r <- zip_mul a' b' ;; Some (x * y :: r)
  | _, _ => None
  end.

(** [a * b] on two 1-D tensors: entry by entry when the lengths agree;
    otherwise a tensor of one entry is broadcast over the other, and any
    other pair of lengths raises. *)
Definition mul_vec (a b : Vec) : option Vec :=
  match zip_mul a b with
  | Some r => Some r
  | None =>
      match a, b with
      | [x], _ => Some (map (fun y => x * y) b)
      | _, [y] => Some (map (fun x => x * y) a)
      | _, _ => None
      end
  end.

(** The row-by-row product of two 2-D tensors with as many rows. *)
Fixpoint zip_mul_rows (a b : Matrix) : option Matrix :=
  match a, b with
  | [], [] => Some []
  | x :: a', y :: b' =>
      r <- mul_vec x y ;; rs <- zip_mul_rows a' b' ;; Some (r :: rs)
  | _, _ => None
  end.

(** [a * b] on two 2-D tensors: row by row when the row counts agree;
    otherwise a tensor of one row is broadcast over the rows of the other,
    and any other pair of row counts raises.  (A list of rows does not
    record the width of a tensor without rows.) *)
Definition mul (a b : Matrix) : option Matrix :=
  if (length a =? length b)%nat then zip_mul_rows a b
  else
    match a, b with
    | [r], _ => Py.mapM (mul_vec r) b
    | _, [r] => Py.mapM (fun x => mul_vec x r) a
    | _, _ => None
    end.

(** [a == b] on two 1-D integer tensors, with the same broadcasting. *)
Definition eq_tensor (a b : list Z) : option (list bool) :=
  if (length a =? length b)%nat
  then Some (map (fun xy => (fst xy =? snd xy)%Z) (combine a b))
  else
    match a, b with
    | [x], _ => Some (map (fun y => (x =? y)%Z) b)
    | _, [y] => Some (map (fun x => (x =? y)%Z) a)
    | _, _ => None
    end.

(** [torch.sum(v)] of a 1-D tensor, accumulated from the left. *)
Definition sum (v : Vec) : Q := fold_left Qplus v 0.

(** [torch.sum(m, dim=1)]. *)
Definition sum_dim1 (m : Matrix) : Vec := map sum m.

(** [torch.stack((a, b, c), dim=1)] of three 1-D tensors: one row
    [[a_r; b_r; c_r]] per position; the three lengths must agree. *)
Fixpoint stack3 (a b c : Vec) : option Matrix :=
  match a, b, c with
  | [], [], [] => Some []
  | x :: a', y :: b', z :: c' =>
      rs <- stack3 a' b' c' ;; Some ([x; y; z] :: rs)
  | _, _, _ => None
  end.

(** Round half to even, the rounding of [torch.round]. *)
Definition round_half_even (q : Q) : Z :=
  let n := Qfloor q in
  match ((q - inject_Z n) ?= (1 # 2))%Q with
  | Lt => n
  | Gt => (n + 1)%Z
  | Eq => if Z.even n then n else (n + 1)%Z
  end.

(** [x.round(decimals=2)]: scale by 100, round, scale back. *)
Definition round2 (q : Q) : Q := inject_Z (round_half_even (q * 100)) / 100.

(** Insertion of a value in a strictly increasing list that has it at most
    once. *)
Fixpoint insert_unique (x : Q) (l : Vec) : Vec :=
  match l with
  | [] => [x]
  | y :: l' =>
      match x ?= y with
      | Lt => x :: l
      | Eq => l
      | Gt => y :: insert_unique x l'
      end
  end.

(** [torch.unique(v)]: the values of [v], each once, in increasing order. *)
Definition unique (v : Vec) : Vec := fold_right insert_unique [] v.

(** The scan behind [torch.argmax]: the first position of the largest
    value. *)
Fixpoint argmax_from (best : Q) (best_idx idx : Z) (v : Vec) : Z :=
  match v with
  | [] => best_idx
  | x :: v' =>
      match (best ?= x)%Q with
      | Lt => argmax_from x idx (idx + 1)%Z v'
      | _ => argmax_from best best_idx (idx + 1)%Z v'
      end
  end.

(** [torch.argmax(v)]; an empty tensor has no arg-max and torch raises. *)
Definition argmax (v : Vec) : option Z :=
  match v with
  | [] => None
  | x :: v' => Some (argmax_from x 0 1 v')
  end.

(** A signed 64-bit integer, wrapped around as torch's int64 arithmetic. *)
Definition wrap64 (z : Z) : Z :=
  ((z + 2 ^ 63) mod 2 ^ 64 - 2 ^ 63)%Z.

(** NumPy's float results that the model tells apart: a number, or the
    [nan] of a mean over nothing. *)
Inductive np_float : Type :=
| Finite (q : Q)
| NaN.

Definition zsum (l : list Z) : Z := fold_left Z.add l 0%Z.

(** [a.mean()] of an integer array. *)
Definition np_mean (a : list Z) : np_float :=
  match a with
  | [] => NaN
  | _ :: _ => Finite (inject_Z (zsum a) / inject_Z (Z.of_nat (length a)))
  end.

(** [F.softmax(m, dim=1)]: every row is exponentiated and divided by its
    sum.  The exponential is the one of the numeric library; the model takes
    it as given. *)
Section Softmax.

Variable exp : Q -> Q.

Definition softmax_row (v : Vec) : Vec :=
  let e := map exp v in
  let s := sum e in
  map (fun x => x / s) e.

Definition softmax (m : Matrix) : Matrix := map softmax_row m.

End Softmax.

End Torch.

(** *** [utils/probing/from_scratch.py] *)

Module FromScratch.

Import Torch.
Local Open Scope Q_scope.

(** [convert_predictions]: two [torch.where] passes over an int64 tensor. *)
Definition convert_predictions (sim_predictions : list Z) : list Z :=
  let first_conversion :=
    map (fun p => if (p =? 1)%Z then p else wrap64 (p - 2)) sim_predictions in
  map (fun f => if (f <? 0)%Z then 2%Z else f) first_conversion.

(** [compute_similarities]: the three row-wise products, each summed along
    [dim=1]. *)
Definition compute_similarities (anchor positive negative : Matrix)
  : option (Vec * Vec * Vec) :=
  ap <- mul anchor positive ;;
  an <- mul anchor negative ;;
  pn <- mul positive negative ;;
  Some (sum_dim1 ap, sum_dim1 an, sum_dim1 pn).

(** The body of the comprehension in [break_ties], for one [pmf]. *)
Definition break_tie (pmf : Vec) : option Z :=
  if negb (length (unique pmf) =? length pmf)%nat
     || (length (unique (map round2 pmf)) =? 1)%nat
  then Some (-1)%Z
  else argmax pmf.

(** [break_ties]. *)
Definition break_ties (probas : Matrix) : option (list Z) :=
  Py.mapM break_tie probas.

(** What [accuracy_] returns: a mean when batching, a list otherwise. *)
Inductive Accuracy : Type :=
| AccMean (m : np_float)
| AccList (hits : list Z).

(** [np.where(choices == 0, 1, 0)]. *)
Definition where_eq0 (choices : list Z) : list Z :=
  map (fun c => if (c =? 0)%Z then 1%Z else 0%Z) choices.

(** [accuracy_]. *)
Definition accuracy_ (probas : Matrix) (batching : bool) : option Accuracy :=
  choices <- break_ties probas ;;
  let argmax := where_eq0 choices in
  Some (if batching then AccMean (np_mean argmax) else AccList argmax).

(** [classification_accuracy]: the share of rows whose arg-max is the label.
    [None] is an exception: an arg-max over an empty row, a comparison of two
    tensors whose lengths differ and cannot be broadcast, a division by
    [len(labels) = 0]. *)
Definition classification_accuracy (logits : Matrix) (labels : list Z)
  : option Q :=
  max_idcs <- Py.mapM argmax logits ;;
  hits <- eq_tensor max_idcs labels ;;
  if (length labels =? 0)%nat then None
  else Some (inject_Z (Z.of_nat (count_occ bool_dec hits true))
             / inject_Z (Z.of_nat (length labels))).

(** [unbind]: [reshape(embeddings, (3, -1, d))] and a split along the first
    axis.  The reshape raises when the row count is no multiple of three, or
    when the rows have no entry (the [-1] is then ambiguous).  [None] as
    input is Python's [None]: no hook ever stored an activation. *)
Definition unbind (embeddings : option Matrix)
  : option (Matrix * Matrix * Matrix) :=
  e <- embeddings ;;
  let n := length e in
  if existsb (fun row => (length row =? 0)%nat) e then None
  else if (n mod 3 =? 0)%nat then
    let bs := (n / 3)%nat in
    Some (firstn bs e, firstn bs (skipn bs e), skipn (2 * bs) e)
  else None.

(** One logged or returned metric. *)
Inductive Metric : Type :=
| Scalar (q : Q)
| Acc (a : Accuracy).

(** The optimizers of [torch.optim] and what [getattr] finds there. *)
Inductive OptimizerClass : Type :=
| Adadelta | Adagrad | Adam | AdamW | Adamax | ASGD | NAdam | RAdam
| RMSprop | Rprop | SGD | SparseAdam.

Definition torch_optim_getattr (name : string) : option OptimizerClass :=
  if String.eqb name "Adadelta" then Some Adadelta
  else if String.eqb name "Adagrad" then Some Adagrad
  else if String.eqb name "Adam" then Some Adam
  else if String.eqb name "AdamW" then Some AdamW
  else if String.eqb name "Adamax" then Some Adamax
  else if String.eqb name "ASGD" then Some ASGD
  else if String.eqb name "NAdam" then Some NAdam
  else if String.eqb name "RAdam" then Some RAdam
  else if String.eqb name "RMSprop" then Some RMSprop
  else if String.eqb name "Rprop" then Some Rprop
  else if String.eqb name "SGD" then Some SGD
  else if String.eqb name "SparseAdam" then Some SparseAdam
  else None.

(** An optimizer over the model's parameters, with the keyword arguments
    [configure_optimizers] passes. *)
Record Optimizer : Type := {
  opt_class : OptimizerClass;
  opt_lr : Q;
  opt_momentum : option Q;
  opt_weight_decay : Q
}.

(** The call of an optimizer class on the parameters of a model, as the
    constructors of [torch.optim.Adam] and [torch.optim.SGD] go about it
    (no other class is called here): they refuse a negative learning rate,
    a negative momentum and a negative weight decay, and [Optimizer.__init__]
    refuses an empty list of parameters.  Each refusal is a [ValueError];
    its message also prints the refused value, which is left out. *)
Definition new_optimizer (optimizer : OptimizerClass) (n_parameters : nat)
  (lr : Q) (momentum : option Q) (weight_decay : Q)
  : Py.Exception + Optimizer :=
  if negb (Qle_bool 0 lr) then inl (Py.ValueError "Invalid learning rate")
  else if match momentum with
          | Some m => negb (Qle_bool 0 m)
          | None => false
          end
  then inl (Py.ValueError "Invalid momentum value")
  else if negb (Qle_bool 0 weight_decay)
  then inl (Py.ValueError "Invalid weight_decay value")
  else if (n_parameters =? 0)%nat
  then inl (Py.ValueError "optimizer got an empty parameter list")
  else inr {| opt_class := optimizer;
              opt_lr := lr;
              opt_momentum := momentum;
              opt_weight_decay := weight_decay |}.

(** [str.lower], [str.upper] and [str.capitalize] on ASCII strings. *)
Definition is_upper (c : ascii) : bool :=
  (65 <=? nat_of_ascii c)%nat && (nat_of_ascii c <=? 90)%nat.

Definition is_lower (c : ascii) : bool :=
  (97 <=? nat_of_ascii c)%nat && (nat_of_ascii c <=? 122)%nat.

Definition lower_ascii (c : ascii) : ascii :=
  if is_upper c then ascii_of_nat (nat_of_ascii c + 32) else c.

Definition upper_ascii (c : ascii) : ascii :=
  if is_lower c then ascii_of_nat (nat_of_ascii c - 32) else c.

Fixpoint lower (s : string) : string :=
  match s with
  | EmptyString => EmptyString
  | String c s' => String (lower_ascii c) (lower s')
  end.

Fixpoint upper (s : string) : string :=
  match s with
  | EmptyString => EmptyString
  | String c s' => String (upper_ascii c) (upper s')
  end.

Definition capitalize (s : string) : string :=
  match s with
  | EmptyString => EmptyString
  | String c s' => String (upper_ascii c) (lower s')
  end.

Section Lightning.

(** A batch of images; the network is opaque, so its inputs are too. *)
Context {Images : Type}.
(** [torch.cat(tensors, dim=0)] on image batches. *)
Variable cat : list Images -> Images.
(** The exponential behind [F.softmax]. *)
Variable exp : Q -> Q.

(** The wrapped network: its output, what the forward hook of the
    module called [name] stores in [self.activations] ([None] when the
    network has no module of that name, so that no hook is attached), and
    the number of tensors that [model.parameters()] yields. *)
Record Extractor : Type := {
  net : Images -> Matrix;
  hooked_activation : string -> Images -> option Matrix;
  n_parameters : nat
}.

(** The attributes [__init__] sets. *)
Record LightningModule : Type := {
  optim : string;
  lr : Q;
  lmbda : Q;
  alpha : Q;
  classification_batch_size : Z;
  triplet_batch_size : Z;
  max_epochs : Z;
  module : string;
  model_name : string;
  model : Extractor;
  similarity_loss_fun : Vec * Vec * Vec -> Q;
  classification_loss_fun : Matrix -> list Z -> Q
}.

(** A pair of batches: three image batches (anchor, positive, negative)
    and a labelled image batch. *)
Definition Batch : Type := (Images * Images * Images) * (Images * list Z).

(** [forward]. *)
Definition forward (self : LightningModule)
  (things_batch imagenet_batch_images : Images) : option Matrix * Matrix :=
  let things_embeddings :=
    hooked_activation (model self) (module self) things_batch in
  let imagenet_logits := net (model self) imagenet_batch_images in
  (things_embeddings, imagenet_logits).

(** [choice_accuracy]. *)
Definition choice_accuracy (similarities : Vec * Vec * Vec)
  : option Accuracy :=
  let '(sim_i, sim_j, sim_k) := similarities in
  stacked <- stack3 sim_i sim_j sim_k ;;
  let probas := softmax exp stacked in
  accuracy_ probas true.

(** The tuple [_step] returns. *)
Record StepResult : Type := {
  loss : Q;
  classification_loss : Q;
  classification_acc : Q;
  similarity_loss : Q;
  similarity_acc : Accuracy
}.

(** [_step]. *)
Definition _step (self : LightningModule) (batch : Batch) (batch_idx : Z)
  : option StepResult :=
  let '(things_batch, imagenet_batch) := batch in
  let '(things0, things1, things2) := things_batch in
  let things_batch_images := cat [things0; things1; things2] in
  let '(imagenet_batch_images, imagenet_batch_labels) := imagenet_batch in
  let '(things_embeddings, imagenet_logits) :=
    forward self things_batch_images imagenet_batch_images in
  triple <- unbind things_embeddings ;;
  let '(anchor, positive, negative) := triple in
  dots <- compute_similarities anchor positive negative ;;
  let similarity_loss := similarity_loss_fun self dots in
  similarity_acc <- choice_accuracy dots ;;
  let classification_loss :=
    classification_loss_fun self imagenet_logits imagenet_batch_labels in
  classification_acc <-
    classification_accuracy imagenet_logits imagenet_batch_labels ;;
  let loss :=
    (1 - alpha self) * similarity_loss + alpha self * classification_loss in
  Some {| loss := loss;
          classification_loss := classification_loss;
          classification_acc := classification_acc;
          similarity_loss := similarity_loss;
          similarity_acc := similarity_acc |}.

(** The five entries a step logs, under the prefix of its phase. *)
Definition metrics_of (prefix : string) (r : StepResult)
  : list (string * Metric) :=
  [ (prefix ++ "_loss", Scalar (loss r));
    (prefix ++ "_imgnt_loss", Scalar (classification_loss r));
    (prefix ++ "_imgnt_acc", Scalar (classification_acc r));
    (prefix ++ "_things_loss", Scalar (similarity_loss r));
    (prefix ++ "_things_acc", Acc (similarity_acc r)) ]%string.

(** [training_step]: the loss it returns, and what it logs. *)
Definition training_step (self : LightningModule) (batch : Batch)
  (batch_idx : Z) : option (Q * list (string * Metric)) :=
  r <- _step self batch batch_idx ;;
  Some (loss r, metrics_of "train" r).

(** [validation_step]: the metrics dictionary it logs and returns. *)
Definition validation_step (self : LightningModule) (batch : Batch)
  (batch_idx : Z) : option (list (string * Metric)) :=
  r <- _step self batch batch_idx ;;
  Some (metrics_of "val" r).

(** [test_step]. *)
Definition test_step (self : LightningModule) (batch : Batch)
  (batch_idx : Z) : option (list (string * Metric)) :=
  r <- _step self batch batch_idx ;;
  Some (metrics_of "test" r).

(** [predict_step]. *)
Definition predict_step (self : LightningModule) (batch : Batch)
  (batch_idx : Z) : option (list Z) :=
  let '(things_batch, imagenet_batch) := batch in
  let '(things0, things1, things2) := things_batch in
  let things_batch_images := cat [things0; things1; things2] in
  let '(imagenet_batch_images, imagenet_batch_labels) := imagenet_batch in
  let '(things_embeddings, imagenet_logits) :=
    forward self things_batch_images imagenet_batch_images in
  triple <- unbind things_embeddings ;;
  let '(anchor, positive, negative) := triple in
  similarities <- compute_similarities anchor positive negative ;;
  let '(sim_i, sim_j, sim_k) := similarities in
  stacked <- stack3 sim_i sim_j sim_k ;;
  sim_predictions <- Py.mapM argmax (softmax exp stacked) ;;
  let ooo_predictions := convert_predictions sim_predictions in
  Some ooo_predictions.

(** [configure_optimizers]. *)
Definition configure_optimizers (self : LightningModule)
  : Py.Exception + Optimizer :=
  if String.eqb (lower (optim self)) "adam" then
    match torch_optim_getattr (capitalize (optim self)) with
    | Some optimizer =>
        new_optimizer optimizer (n_parameters (model self)) (lr self) None
          (lmbda self)
    | None => inl (Py.AttributeError (capitalize (optim self)))
    end
  else if String.eqb (lower (optim self)) "sgd" then
    match torch_optim_getattr (upper (optim self)) with
    | Some optimizer =>
        new_optimizer optimizer (n_parameters (model self)) (lr self)
          (Some (9 # 10)) (lmbda self)
    | None => inl (Py.AttributeError (upper (optim self)))
    end
  else
    inl (Py.ValueError
           "Use Adam or SGD for learning a linear transformation of a network's feature space.").

End Lightning.

Arguments Extractor : clear implicits.
Arguments LightningModule : clear implicits.
Arguments Batch : clear implicits.

End FromScratch.

(** *** The NumPy reductions of the driver, over the reals *)

Module Numpy.

Local Open Scope R_scope.

Definition Array2 : Type := list (list R).

Definition rsum (l : list R) : R := fold_right Rplus 0 l.

(** [a.mean()]: the mean of all the entries.  (Of an array without entries
    NumPy answers [nan]; the reals have no such value, and the properties
    below are about arrays with entries.) *)
Definition mean (a : Array2) : R :=
  rsum (concat a) / INR (length (concat a)).

(** [a.std()]: the root of the mean squared deviation from the mean. *)
Definition std (a : Array2) : R :=
  sqrt (rsum (map (fun x => (x - mean a) ^ 2) (concat a))
        / INR (length (concat a))).

(** [(a - m) / s] with two scalars. *)
Definition sub_div (a : Array2) (m s : R) : Array2 :=
  map (map (fun x => (x - m) / s)) a.

(** [np.arange(n)]. *)
Definition arange (n : nat) : list nat := seq 0 n.

(** [a[idx]] with an index array. *)
Definition take (a idx : list nat) : Py.Result (list nat) :=
  match Py.mapM (nth_error a) idx with
  | Some r => inr r
  | None => inl Py.IndexError
  end.

End Numpy.

(** *** [main_glocal_probing_efficient.py] *)

Module Main.

Import Py.

(** The optimization config [create_optimization_config] fills. *)
Record OptimCfg : Type := {
  cfg_optim : string;
  cfg_lr : Q;
  cfg_reg : string;
  cfg_lmbda : Q;
  cfg_alpha : Q;
  cfg_tau : Q;
  cfg_contrastive_batch_size : Z;
  cfg_triplet_batch_size : Z;
  cfg_max_epochs : Z;
  cfg_min_epochs : Z;
  cfg_patience : Z;
  cfg_use_bias : bool;
  cfg_ckptdir : string;
  cfg_sigma : Q
}.

(** The keyword arguments of a [DataLoader]. *)
Record DataLoader (D : Type) : Type := {
  dataset : D;
  batch_size : Z;
  shuffle : bool;
  num_workers : Z;
  drop_last : bool;
  pin_memory : bool
}.
Arguments dataset {D}.
Arguments batch_size {D}.
Arguments shuffle {D}.
Arguments num_workers {D}.
Arguments drop_last {D}.
Arguments pin_memory {D}.

(** [get_batches]. *)
Definition get_batches {D : Type} (dataset : D) (batch_size : Z)
  (train : bool) (num_workers : Z) : DataLoader D :=
  {| dataset := dataset;
     batch_size := batch_size;
     shuffle := if train then true else false;
     num_workers := num_workers;
     drop_last := false;
     pin_memory := if train then true else false |}.

(** The two callbacks of [get_callbacks]. *)
Inductive Callback : Type :=
| ModelCheckpoint (monitor dirpath filename : string)
    (auto_insert_metric_name : bool) (every_n_epochs : Z)
| EarlyStopping (monitor : string) (min_delta : Q) (mode : string)
    (patience : Z) (verbose check_finite : bool).

(** [get_callbacks]; the checkpoint directory it creates on disk is left
    out. *)
Definition get_callbacks (optim_cfg : OptimCfg) (steps : Z) : list Callback :=
  [ ModelCheckpoint "val_loss" (cfg_ckptdir optim_cfg)
      "ooo-finetuning-epoch{epoch:02d}-val_loss{val/loss:.2f}" false steps;
    EarlyStopping "val_loss" (1 # 10000) "min" (cfg_patience optim_cfg)
      true true ].

(** The keyword arguments of the [Trainer]. *)
Record Trainer : Type := {
  accelerator : string;
  callbacks : list Callback;
  strategy : string;
  trainer_max_epochs : Z;
  trainer_min_epochs : Z;
  devices : Z + string;
  enable_progress_bar : bool;
  gradient_clip_val : Q;
  gradient_clip_algorithm : string
}.

(** [f"fold_{k:02d}"]. *)
Definition format_02d (k : nat) : string :=
  let digits := NilEmpty.string_of_uint (Nat.to_uint k) in
  if (String.length digits <? 2)%nat then ("0" ++ digits)%string else digits.

Definition fold_key (k : nat) : string := ("fold_" ++ format_02d k)%string.

Section Run.

(** The values of [utils.probing] and of the trainer that [run] only
    passes along. *)
Context {FeatureDataset Triplets TripletDataset Zipped Probe : Type}.
Context {Performance Weights Bias : Type}.

(** What [run] calls outside its own file: the classes and functions of
    [utils.probing], scikit-learn's [KFold.split], and the three phases of
    the Lightning trainer.  [fit] returns the probe as training leaves
    it. *)
Record Collaborators : Type := {
  FeaturesHDF5 : string -> string -> string -> FeatureDataset;
  FeaturesPT : string -> string -> string -> FeatureDataset;
  load_triplets : string -> Triplets;
  partition_triplets : Triplets -> list nat -> Triplets * Triplets;
  TripletData : Triplets -> nat -> TripletDataset;
  zip_batches :
    DataLoader TripletDataset -> DataLoader FeatureDataset -> Zipped;
  GlocalFeatureProbe : Numpy.Array2 -> OptimCfg -> Probe;
  kfold_split :
    nat -> Z -> bool -> list nat -> Result (list (list nat * list nat));
  fit : Trainer -> Probe -> Zipped -> Zipped -> Probe;
  test : Trainer -> Probe -> Zipped -> Performance;
  predict : Trainer -> Probe -> DataLoader TripletDataset -> list (list Z);
  transform_w : Probe -> Weights;
  transform_b : Probe -> Bias
}.

Variable C : Collaborators.

(** The dictionary [transformation]: ["weights"], and ["bias"] when the
    probe has one. *)
Record Transformation : Type := {
  weights : Weights;
  bias : option Bias
}.

(** The names the fold loop assigns and the code after it reads. *)
Record LoopState : Type := {
  cv_results : list (string * Performance);
  ooo_choices : list (list Z);
  glocal_probe : option Probe
}.

(** [torch.cat(tensors, dim=0)]: it raises on an empty list. *)
Definition torch_cat (tensors : list (list Z)) : Result (list Z) :=
  match tensors with
  | [] => inl RuntimeError
  | _ :: _ => inr (concat tensors)
  end.

(** [np.concatenate(arrays)]: it raises on an empty list. *)
Definition np_concatenate (arrays : list (list Z)) : Result (list Z) :=
  match arrays with
  | [] => inl (ValueError "need at least one array to concatenate")
  | _ :: _ => inr (concat arrays)
  end.

(** The two feature datasets, by storage format (the head of [run]). *)
Definition feature_datasets (imagenet_features_root device : string)
  (features_type : string) : Result (FeatureDataset * FeatureDataset) :=
  if String.eqb features_type "hdf" then
    inr (FeaturesHDF5 C imagenet_features_root "train_set" device,
         FeaturesHDF5 C imagenet_features_root "val" device)
  else if String.eqb features_type "pt" then
    inr (FeaturesPT C imagenet_features_root "train_set" device,
         FeaturesPT C imagenet_features_root "val" device)
  else
    inl (ValueError
           "Can only create dataset for features that were saved in either 'pt' or 'hdf5' format.").

(** The body of the fold loop, for fold [k] with training indices
    [train_idx]. *)
Definition fold_body (features : Numpy.Array2) (triplets : Triplets)
  (imagenet_train_features imagenet_val_features : FeatureDataset)
  (callbacks : list Callback) (objects : list nat)
  (optim_cfg : OptimCfg) (n_objects : nat) (device : string)
  (num_processes : Z)
  (item : nat * (list nat * list nat)) (st : LoopState)
  : Result (LoopState * control) :=
  let '(k, (train_idx, _)) := item in
  try (Numpy.take objects train_idx) (fun train_objects =>
  let triplet_partitioning := partition_triplets C triplets train_objects in
  let train_triplets :=
    TripletData C (fst triplet_partitioning) n_objects in
  let val_triplets :=
    TripletData C (snd triplet_partitioning) n_objects in
  let train_batches_things :=
    get_batches train_triplets (cfg_triplet_batch_size optim_cfg) true 0 in
  let train_batches_imagenet :=
    get_batches imagenet_train_features
      (cfg_contrastive_batch_size optim_cfg) true num_processes in
  let val_batches_things :=
    get_batches val_triplets (cfg_triplet_batch_size optim_cfg) false 0 in
  let val_batches_imagenet :=
    get_batches imagenet_val_features
      (cfg_contrastive_batch_size optim_cfg) true num_processes in
  let train_batches :=
    zip_batches C train_batches_things train_batches_imagenet in
  let val_batches :=
    zip_batches C val_batches_things val_batches_imagenet in
  let glocal_probe := GlocalFeatureProbe C features optim_cfg in
  let trainer :=
    {| accelerator := device;
       callbacks := callbacks;
       strategy := "ddp";
       trainer_max_epochs := cfg_max_epochs optim_cfg;
       trainer_min_epochs := cfg_min_epochs optim_cfg;
       devices :=
         if String.eqb device "cpu" then inl num_processes
         else inr "auto"%string;
       enable_progress_bar := true;
       gradient_clip_val := 1;
       gradient_clip_algorithm := "norm" |} in
  let glocal_probe := fit C trainer glocal_probe train_batches val_batches in
  let val_performance := test C trainer glocal_probe val_batches in
  let predictions := predict C trainer glocal_probe val_batches_things in
  try (torch_cat predictions) (fun predictions =>
  let ooo_choices := ooo_choices st ++ [predictions] in
  let cv_results := dict_set (fold_key k) val_performance (cv_results st) in
  inr ({| cv_results := cv_results;
          ooo_choices := ooo_choices;
          glocal_probe := Some glocal_probe |}, Break))).

(** [run]. *)
Definition run (features : Numpy.Array2)
  (imagenet_features_root data_root : string) (optim_cfg : OptimCfg)
  (n_objects : nat) (device : string) (rnd_seed : Z) (num_processes : Z)
  (features_type : string)
  : Result (list Z * list (string * Performance) * Transformation) :=
  let callbacks := get_callbacks optim_cfg 20 in
  try (feature_datasets imagenet_features_root device features_type)
    (fun '(imagenet_train_features, imagenet_val_features) =>
  let triplets := load_triplets C data_root in
  let features :=
    Numpy.sub_div features (Numpy.mean features) (Numpy.std features) in
  let objects := Numpy.arange n_objects in
  try (kfold_split C 4 rnd_seed true objects) (fun folds =>
  try (for_each
         (fold_body features triplets imagenet_train_features
            imagenet_val_features callbacks objects optim_cfg n_objects
            device num_processes)
         (enumerate 1 folds)
         {| cv_results := []; ooo_choices := []; glocal_probe := None |})
    (fun st =>
  match glocal_probe st with
  | None => inl (UnboundLocalError "glocal_probe")
  | Some probe =>
      let transformation :=
        {| weights := transform_w C probe;
           bias := if cfg_use_bias optim_cfg
                   then Some (transform_b C probe) else None |} in
      try (np_concatenate (ooo_choices st)) (fun ooo_choices =>
      inr (ooo_choices, cv_results st, transformation))
  end))).

End Run.

Arguments Collaborators : clear implicits.
Arguments Transformation : clear implicits.
Arguments LoopState : clear implicits.

End Main.

(** *** The vocabulary of the specification *)

Module Spec.

Import Torch.
Local Open Scope Q_scope.

(** The entries of a probability vector are pairwise distinct. *)
Definition all_distinct (pmf : Vec) : Prop := NoDupA Qeq pmf.

(** Rounded to two decimal places, all the entries are one value. *)
Definition collapses_after_rounding (pmf : Vec) : Prop :=
  exists v : Q, Forall (fun x => round2 x == v) pmf.

(** The tie-break condition of the similarity scorer. *)
Definition tie_break_fires (pmf : Vec) : Prop :=
  ~ all_distinct pmf \/ collapses_after_rounding pmf.

(** [i] is a position of [pmf] that holds its largest entry. *)
Definition is_argmax (pmf : Vec) (i : Z) : Prop :=
  (0 <= i < Z.of_nat (length pmf))%Z /\
  Forall (fun x => x <= nth (Z.to_nat i) pmf 0) pmf.

(** The inner product of two embedding rows. *)
Fixpoint inner (a b : Vec) : Q :=
  match a, b with
  | x :: a', y :: b' => x * y + inner a' b'
  | _, _ => 0
  end.

(** The inner products of the rows of two batches, row by row. *)
Definition inner_rows (a b : Matrix) : Vec :=
  map (fun ab => inner (fst ab) (snd ab)) (combine a b).

(** Two batches have one shape: as many rows, each as long. *)
Definition same_shape (a b : Matrix) : Prop :=
  map (@length Q) a = map (@length Q) b.

(** The members of a triplet, numbered as the odd-one-out choices are. *)
Definition anchor_id : Z := 0.
Definition positive_id : Z := 1.
Definition negative_id : Z := 2.

(** The pair of members whose similarity sits at position [idx] of the
    similarity vector [[sim_ap; sim_an; sim_pn]]. *)
Definition closest_pair (idx : Z) : option (Z * Z) :=
  if (idx =? 0)%Z then Some (anchor_id, positive_id)
  else if (idx =? 1)%Z then Some (anchor_id, negative_id)
  else if (idx =? 2)%Z then Some (positive_id, negative_id)
  else None.

(** The share of the choices that are index 0. *)
Definition share_of_zero (choices : list Z) : Q :=
  inject_Z (Z.of_nat (count_occ Z.eq_dec choices 0%Z))
  / inject_Z (Z.of_nat (length choices)).

(** The combined objective as the specification writes it. *)
Definition combined_loss (alpha triplet_similarity_loss classification_loss : Q)
  : Q :=
  (1 - alpha) * triplet_similarity_loss + alpha * classification_loss.

Section Batches.

Import FromScratch.

Context {Images : Type}.
Variable cat : list Images -> Images.

(** The triplet half of a batch is well formed for a module: the hook
    stores a 2-D tensor whose row count is a multiple of three, with rows of
    one length [d >= 1]. *)
Definition well_formed_things (self : LightningModule Images)
  (things_batch : Images * Images * Images) : Prop :=
  let '(things0, things1, things2) := things_batch in
  exists (e : Matrix) (d : nat),
    hooked_activation (model self) (module self)
      (cat [things0; things1; things2]) = Some e /\
    (length e mod 3 = 0)%nat /\
    (1 <= d)%nat /\
    Forall (fun row => length row = d) e.

(** The labelled half of a batch is well formed: at least one image, one
    label per row of logits, and at least one class. *)
Definition well_formed_imagenet (self : LightningModule Images)
  (imagenet_batch : Images * list Z) : Prop :=
  let '(imagenet_batch_images, imagenet_batch_labels) := imagenet_batch in
  imagenet_batch_labels <> [] /\
  length (net (model self) imagenet_batch_images)
  = length imagenet_batch_labels /\
  Forall (fun row => row <> []) (net (model self) imagenet_batch_images).

Definition well_formed_batch (self : LightningModule Images)
  (batch : Batch Images) : Prop :=
  well_formed_things self (fst batch) /\
  well_formed_imagenet self (snd batch).

(** The similarities [_step] and [predict_step] compute for the triplet
    half of a batch. *)
Definition batch_similarities (self : LightningModule Images)
  (things_batch : Images * Images * Images) : option (Vec * Vec * Vec) :=
  let '(things0, things1, things2) := things_batch in
  triple <-
    unbind (hooked_activation (model self) (module self)
              (cat [things0; things1; things2])) ;;
  let '(anchor, positive, negative) := triple in
  compute_similarities anchor positive negative.

End Batches.

End Spec.

(** *** A small module to run the steps on *)

Module Demo.

Import Torch FromScratch.
Local Open Scope Q_scope.

(** One image batch is all the demo needs. *)
Definition cat (_ : list unit) : unit := tt.

(** A stand-in for the exponential that is exact where the demo evaluates
    it, at 0. *)
Definition exp (x : Q) : Q := 1 + x.

(** A network with two classes that scores every image [[1; 0]], and whose
    hooked layer embeds every image as the row [[0]]: one triplet of three
    equal embeddings, with all three similarities 0. *)
Definition extractor : Extractor unit :=
  {| net := fun _ => [[1; 0]];
     hooked_activation := fun _ _ => Some [[0]; [0]; [0]];
     n_parameters := 2 |}.

(** A module with mixing weight [a] whose triplet loss is 1 and whose
    classification loss is 2 on every batch. *)
Definition probe (a : Q) : LightningModule unit :=
  {| optim := "Adam";
     lr := 1 # 1000;
     lmbda := 1 # 1000;
     alpha := a;
     classification_batch_size := 1024;
     triplet_batch_size := 256;
     max_epochs := 100;
     module := "penultimate";
     model_name := "demo";
     model := extractor;
     similarity_loss_fun := fun _ => 1;
     classification_loss_fun := fun _ _ => 2 |}.

Definition batch : Batch unit := ((tt, tt, tt), (tt, [0%Z])).

(** The same module with another optimizer name. *)
Definition with_optim (name : string) : LightningModule unit :=
  {| optim := name;
     lr := 1 # 1000;
     lmbda := 1 # 100;
     alpha := 1 # 10;
     classification_batch_size := 1024;
     triplet_batch_size := 256;
     max_epochs := 100;
     module := "penultimate";
     model_name := "demo";
     model := extractor;
     similarity_loss_fun := fun _ => 1;
     classification_loss_fun := fun _ _ => 2 |}.

End Demo.

(** *** What the driver expects of its collaborators *)

Module RunSpec.

Import Main.

(** The feature matrix after the normalization of [run]: the mean of all
    entries subtracted, the standard deviation of all entries divided out. *)
Definition normalized (features : Numpy.Array2) : Numpy.Array2 :=
  Numpy.sub_div features (Numpy.mean features) (Numpy.std features).

Section Laws.

Context {FeatureDataset Triplets TripletDataset Zipped Probe : Type}.
Context {Performance Weights Bias : Type}.

Variable C :
  Collaborators FeatureDataset Triplets TripletDataset Zipped Probe
    Performance Weights Bias.

(** [KFold(n_splits=n).split(objects)] yields [n] folds of positions of
    [objects] when there are at least [n >= 2] objects. *)
Definition kfold_splits : Prop :=
  forall (n : nat) (seed : Z) (shuffled : bool) (objects : list nat),
    (2 <= n <= length objects)%nat ->
    exists folds : list (list nat * list nat),
      kfold_split C n seed shuffled objects = inr folds /\
      length folds = n /\
      Forall (fun f => Forall (fun i => (i < length objects)%nat) (fst f))
        folds.

(** The prediction phase returns the choices of at least one batch. *)
Definition predict_covers : Prop :=
  forall (trainer : Trainer) (probe : Probe)
         (loader : DataLoader TripletDataset),
    predict C trainer probe loader <> [].

Definition well_behaved : Prop := kfold_splits /\ predict_covers.

(** The same collaborators, with a split that yields its first fold and
    then stops. *)
Definition first_fold_only
  : Collaborators FeatureDataset Triplets TripletDataset Zipped Probe
      Performance Weights Bias :=
  {| FeaturesHDF5 := FeaturesHDF5 C;
     FeaturesPT := FeaturesPT C;
     load_triplets := load_triplets C;
     partition_triplets := partition_triplets C;
     TripletData := TripletData C;
     zip_batches := zip_batches C;
     GlocalFeatureProbe := GlocalFeatureProbe C;
     kfold_split :=
       fun n seed shuffled objects =>
         match kfold_split C n seed shuffled objects with
         | inl e => inl e
         | inr folds => inr (firstn 1 folds)
         end;
     fit := fit C;
     test := test C;
     predict := predict C;
     transform_w := transform_w C;
     transform_b := transform_b C |}.

End Laws.

End RunSpec.

(** *** Collaborators to run the driver with *)

Module DemoRun.

Import Main.

(** Fold [j] of [n]: the positions congruent to [j] are held out. *)
Definition fold (n len j : nat) : list nat * list nat :=
  (filter (fun i => negb (i mod n =? j)%nat) (seq 0 len),
   filter (fun i => (i mod n =? j)%nat) (seq 0 len)).

Definition split (n : nat) (_ : Z) (_ : bool) (objects : list nat)
  : Py.Result (list (list nat * list nat)) :=
  if ((2 <=? n) && (n <=? length objects))%nat
  then inr (map (fold n (length objects)) (seq 0 n))
  else inl (Py.ValueError "Cannot have number of splits greater than the number of samples").

(** Datasets are named by their class and split, triplets by the objects
    they may use, a probe by the number of fits it has seen; a trained probe
    predicts choice 2 for one batch of one example. *)
Definition collaborators
  : Collaborators string (list nat) (list nat) unit nat string nat nat :=
  {| FeaturesHDF5 := fun _ split _ => ("hdf5/" ++ split)%string;
     FeaturesPT := fun _ split _ => ("pt/" ++ split)%string;
     load_triplets := fun _ => [];
     partition_triplets := fun _ train_objects => (train_objects, []);
     TripletData := fun t _ => t;
     zip_batches := fun _ _ => tt;
     GlocalFeatureProbe := fun _ _ => 0%nat;
     kfold_split := split;
     fit := fun _ probe _ _ => S probe;
     test := fun _ _ _ => "val_performance"%string;
     predict := fun _ _ _ => [[2%Z]];
     transform_w := fun probe => probe;
     transform_b := fun probe => probe |}.

Definition optim_cfg : OptimCfg :=
  {| cfg_optim := "Adam";
     cfg_lr := 1 # 1000;
     cfg_reg := "l2";
     cfg_lmbda := 1 # 1000;
     cfg_alpha := 1 # 10;
     cfg_tau := 1;
     cfg_contrastive_batch_size := 1024;
     cfg_triplet_batch_size := 256;
     cfg_max_epochs := 100;
     cfg_min_epochs := 10;
     cfg_patience := 10;
     cfg_use_bias := false;
     cfg_ckptdir := "log/model/penultimate";
     cfg_sigma := 1 # 1000 |}.

(** A feature matrix of one row and two columns. *)
Definition features : Numpy.Array2 := [[0%R; 2%R]].

End DemoRun.

(** *** A coarse exponential, and a triplet it does not resolve *)

Module DemoExp.

Import Torch FromScratch.
Local Open Scope Q_scope.

(** An exponential that never decreases and never is negative, but that
    does not tell apart the numbers below 1, as a rounded exponential does
    not tell apart numbers that are close to one another. *)
Definition exp (x : Q) : Q := if Qle_bool 1 x then 2 else 1.

(** One triplet: anchor [[1; 0]], positive [[0; 0]], negative [[1/2; 0]],
    with the similarities 0, 1/2 and 0. *)
Definition extractor : Extractor unit :=
  {| net := fun _ => [[1; 0]];
     hooked_activation := fun _ _ => Some [[1; 0]; [0; 0]; [1 # 2; 0]];
     n_parameters := 2 |}.

Definition probe : LightningModule unit :=
  {| optim := "Adam";
     lr := 1 # 1000;
     lmbda := 1 # 1000;
     alpha := 1 # 10;
     classification_batch_size := 1024;
     triplet_batch_size := 256;
     max_epochs := 100;
     module := "penultimate";
     model_name := "demo";
     model := extractor;
     similarity_loss_fun := fun _ => 1;
     classification_loss_fun := fun _ _ => 2 |}.

End DemoExp.

(** *** [main_glocal_probing_efficient.py]: metrics and the results frame *)

Module Results.

Import Torch.
Local Open Scope Q_scope.

(** The exceptions of a subscript: a missing key, a position out of range. *)
Inductive LookupError : Type :=
| KeyError (key : string)
| ListIndexError.

(** [d[key]] on a dictionary kept as an association list. *)
Fixpoint dict_get {V : Type} (key : string) (d : list (string * V))
  : option V :=
  match d with
  | [] => None
  | (k, v) :: d' => if String.eqb k key then Some v else dict_get key d'
  end.

(** What [trainer.test] returns: one dictionary of metrics per dataloader. *)
Definition Performance : Type := list (list (string * Q)).

(** [vals[0][metric]]. *)
Definition first_metric (metric : string) (vals : Performance)
  : LookupError + Q :=
  match vals with
  | [] => inl ListIndexError
  | d :: _ =>
      match dict_get metric d with
      | Some v => inr v
      | None => inl (KeyError metric)
      end
  end.

(** The list comprehension over [cv_results.values()]. *)
Fixpoint metric_values (metric : string) (values : list Performance)
  : LookupError + list Q :=
  match values with
  | [] => inr []
  | vals :: rest =>
      match first_metric metric vals with
      | inl e => inl e
      | inr v =>
          match metric_values metric rest with
          | inl e => inl e
          | inr vs => inr (v :: vs)
          end
      end
  end.

(** [np.mean] of a list of floats. *)
Definition np_mean_floats (l : list Q) : np_float :=
  match l with
  | [] => NaN
  | _ :: _ => Finite (sum l / inject_Z (Z.of_nat (length l)))
  end.

(** [get_mean_cv_acc]; its default metric is ["test_acc"]. *)
Definition get_mean_cv_acc (cv_results : list (string * Performance))
  (metric : string) : LookupError + np_float :=
  match metric_values metric (map snd cv_results) with
  | inl e => inl e
  | inr vs => inr (np_mean_floats vs)
  end.

(** [get_mean_cv_loss]; its default metric is ["test_loss"]. *)
Definition get_mean_cv_loss (cv_results : list (string * Performance))
  (metric : string) : LookupError + np_float :=
  match metric_values metric (map snd cv_results) with
  | inl e => inl e
  | inr vs => inr (np_mean_floats vs)
  end.

(** One cell of a data frame. *)
Inductive Cell : Type :=
| Str (s : string)
| Num (q : Q)
| Flag (b : bool)
| Missing.

Definition cell_of_float (x : np_float) : Cell :=
  match x with
  | Finite q => Num q
  | NaN => Missing
  end.

(** A data frame, column by column, in the order of its columns; the
    column names of a frame are distinct. *)
Definition Frame : Type := list (string * list Cell).

(** [len(df)]: the rows of a frame, read off its first column (a frame
    without columns has no row here). *)
Definition n_rows (df : Frame) : nat :=
  match df with
  | [] => 0
  | (_, cells) :: _ => length cells
  end.

(** [pd.DataFrame(index=range(n), columns=columns)]: nothing but missing
    values. *)
Definition empty_frame (n : nat) (columns : list string) : Frame :=
  map (fun c => (c, repeat Missing n)) columns.

(** [df[column] = value] with a scalar: the whole column is set, and a new
    column goes to the end. *)
Definition set_column (n : nat) (column : string) (value : Cell) (df : Frame)
  : Frame :=
  Py.dict_set column (repeat value n) df.

Section WithFamilies.

(** [utils.analyses.get_family_name]. *)
Variable get_family_name : string -> string.

(** [make_results_df]. *)
Definition make_results_df (columns : list string)
  (probing_acc probing_loss : np_float) (ooo_choices : list Z)
  (model_name module_name source reg optim : string)
  (lr alpha lmbda tau : Q) (bias : bool) : Frame :=
  let df := empty_frame 1 columns in
  let df := set_column 1 "model" (Str model_name) df in
  let df := set_column 1 "probing" (cell_of_float probing_acc) df in
  let df := set_column 1 "cross-entropy" (cell_of_float probing_loss) df in
  let df := set_column 1 "module" (Str module_name) df in
  let df := set_column 1 "family" (Str (get_family_name model_name)) df in
  let df := set_column 1 "source" (Str source) df in
  let df := set_column 1 "reg" (Str reg) df in
  let df := set_column 1 "alpha" (Num alpha) df in
  let df := set_column 1 "lmbda" (Num lmbda) df in
  let df := set_column 1 "tau" (Num tau) df in
  let df := set_column 1 "optim" (Str (FromScratch.lower optim)) df in
  let df := set_column 1 "lr" (Num lr) df in
  let df := set_column 1 "contrastive" (Flag true) df in
  let df := set_column 1 "bias" (Flag bias) df in
  df.

(** The command-line arguments [save_results] reads. *)
Record Args : Type := {
  arg_model : string;
  arg_module : string;
  arg_source : string;
  arg_regularization : string;
  arg_optim : string;
  arg_learning_rate : Q;
  arg_alpha : Q;
  arg_lmbda : Q;
  arg_tau : Q;
  arg_use_bias : bool;
  arg_probing_root : string
}.

(** The columns of a fresh results file. *)
Definition fresh_columns : list string :=
  [ "model"; "probing"; "cross-entropy"; "module"; "family"; "source";
    "reg"; "optim"; "lr"; "alpha"; "lambda"; "tau"; "bias";
    "contrastive" ]%string.

(** The cells of column [c] in a frame of [n] rows; a frame that lacks the
    column is filled with missing values, as [pd.concat] does. *)
Definition column_or_missing (n : nat) (c : string) (df : Frame)
  : list Cell :=
  match dict_get c df with
  | Some cells => cells
  | None => repeat Missing n
  end.

(** [pd.concat([a, b], axis=0, ignore_index=True)]: the rows of [b] under
    the rows of [a]; the columns of [a], then those only [b] has. *)
Definition concat_rows (a b : Frame) : Frame :=
  map (fun col =>
         (fst col, snd col ++ column_or_missing (n_rows b) (fst col) b))
    a
  ++ map (fun col => (fst col, repeat Missing (n_rows a) ++ snd col))
       (filter (fun col =>
                  match dict_get (fst col) a with
                  | Some _ => false
                  | None => true
                  end) b).

(** [save_results], on the content of [results/probing_results.pkl]
    ([None] when there is no such file): the content it writes. *)
Definition save_results (args : Args) (probing_acc probing_loss : np_float)
  (ooo_choices : list Z) (stored : option Frame) : Frame :=
  match stored with
  | Some probing_results_overall =>
      let probing_results_current_run :=
        make_results_df (map fst probing_results_overall)
          probing_acc probing_loss ooo_choices
          (arg_model args) (arg_module args) (arg_source args)
          (arg_regularization args) (arg_optim args)
          (arg_learning_rate args) (arg_alpha args) (arg_lmbda args)
          (arg_tau args) (arg_use_bias args) in
      concat_rows probing_results_overall probing_results_current_run
  | None =>
      make_results_df fresh_columns probing_acc probing_loss ooo_choices
        (arg_model args) (arg_module args) (arg_source args)
        (arg_regularization args) (arg_optim args)
        (arg_learning_rate args) (arg_alpha args) (arg_lmbda args)
        (arg_tau args) (arg_use_bias args)
  end.

End WithFamilies.

(** A frame is well formed: distinct column names, columns of one length. *)
Definition well_formed_frame (df : Frame) : Prop :=
  NoDup (map fst df) /\
  Forall (fun col => length (snd col) = n_rows df) df.

End Results.

(** *** Vocabulary and collaborators for the results *)

Module ResultsSpec.

Import Results.

(** The columns [make_results_df] assigns, in the order it assigns them. *)
Definition assigned_columns : list string :=
  [ "model"; "probing"; "cross-entropy"; "module"; "family"; "source";
    "reg"; "alpha"; "lmbda"; "tau"; "optim"; "lr"; "contrastive";
    "bias" ]%string.

(** The demo collaborators of the driver, with a test phase that reports an
    accuracy and a loss. *)
Definition collaborators
  : Main.Collaborators string (list nat) (list nat) unit nat Performance
      nat nat :=
  {| Main.FeaturesHDF5 := Main.FeaturesHDF5 DemoRun.collaborators;
     Main.FeaturesPT := Main.FeaturesPT DemoRun.collaborators;
     Main.load_triplets := Main.load_triplets DemoRun.collaborators;
     Main.partition_triplets := Main.partition_triplets DemoRun.collaborators;
     Main.TripletData := Main.TripletData DemoRun.collaborators;
     Main.zip_batches := Main.zip_batches DemoRun.collaborators;
     Main.GlocalFeatureProbe := Main.GlocalFeatureProbe DemoRun.collaborators;
     Main.kfold_split := Main.kfold_split DemoRun.collaborators;
     Main.fit := Main.fit DemoRun.collaborators;
     Main.test :=
       fun _ _ _ =>
         [[("test_acc"%string, (3 # 4)%Q); ("test_loss"%string, (1 # 2)%Q)]];
     Main.predict := Main.predict DemoRun.collaborators;
     Main.transform_w := Main.transform_w DemoRun.collaborators;
     Main.transform_b := Main.transform_b DemoRun.collaborators |}.

(** Arguments of a run. *)
Definition args : Args :=
  {| arg_model := "resnet18";
     arg_module := "penultimate";
     arg_source := "torchvision";
     arg_regularization := "l2";
     arg_optim := "Adam";
     arg_learning_rate := (1 # 1000)%Q;
     arg_alpha := (1 # 10)%Q;
     arg_lmbda := (1 # 1000)%Q;
     arg_tau := 1%Q;
     arg_use_bias := false;
     arg_probing_root := "probing" |}.

End ResultsSpec.

(** *** The regular expressions of [utils/analyses/families.py]

    The part of the syntax of Python's [re] that the family patterns are
    written in, with [re.compile] as a parser and [Pattern.search] as a
    matcher.  A pattern outside this part does not compile here. *)

Module Re.

Local Open Scope char_scope.

(** What stands for one character of the text: a literal character, [.]
    and a class [[lo-hi]]. *)
Inductive item : Type :=
| Char (c : ascii)
| Dot
| Range (lo hi : ascii).

(** [Bol] is [^], [Eol] is [$], [Lookahead r] is [(?=r)]. *)
Inductive regex : Type :=
| Empty
| One (i : item)
| Star (i : item)
| Plus (i : item)
| Bol
| Eol
| Seq (r1 r2 : regex)
| Alt (r1 r2 : regex)
| Group (r : regex)
| Lookahead (r : regex).

Definition newline : ascii := "010".

Definition special (c : ascii) : bool :=
  existsb (Ascii.eqb c) (list_ascii_of_string "\()|[].^$*+?{}").

(** The text after the word [w], when the text starts with it. *)
Fixpoint strip (w s : list ascii) : option (list ascii) :=
  match w, s with
  | [], _ => Some s
  | c :: w', x :: s' => if Ascii.eqb x c then strip w' s' else None
  | _ :: _, [] => None
  end.

(** A [*] or [+] after an atom: on one character only. *)
Definition quantified (a : regex) (s : list ascii)
  : option (regex * list ascii) :=
  match s with
  | c :: rest =>
      if Ascii.eqb c "*" then
        match a with
        | One i => Some (Star i, rest)
        | _ => None
        end
      else if Ascii.eqb c "+" then
        match a with
        | One i => Some (Plus i, rest)
        | _ => None
        end
      else Some (a, s)
  | [] => Some (a, s)
  end.

(** Alternatives, sequences and atoms, by recursive descent; each returns
    the expression it has read and the rest of the pattern. *)
Fixpoint parse_alt (fuel : nat) (s : list ascii) {struct fuel}
  : option (regex * list ascii) :=
  match fuel with
  | O => None
  | S fuel =>
      match parse_seq fuel s with
      | Some (r1, c :: rest) =>
          if Ascii.eqb c "|" then
            match parse_alt fuel rest with
            | Some (r2, rest') => Some (Alt r1 r2, rest')
            | None => None
            end
          else Some (r1, c :: rest)
      | other => other
      end
  end
with parse_seq (fuel : nat) (s : list ascii) {struct fuel}
  : option (regex * list ascii) :=
  match fuel with
  | O => None
  | S fuel =>
      match s with
      | [] => Some (Empty, [])
      | c :: _ =>
          if Ascii.eqb c "|" || Ascii.eqb c ")" then Some (Empty, s)
          else
            match parse_atom fuel s with
            | Some (a, rest) =>
                match quantified a rest with
                | Some (q, rest) =>
                    match parse_seq fuel rest with
                    | Some (r, rest) => Some (Seq q r, rest)
                    | None => None
                    end
                | None => None
                end
            | None => None
            end
      end
  end
with parse_atom (fuel : nat) (s : list ascii) {struct fuel}
  : option (regex * list ascii) :=
  match fuel with
  | O => None
  | S fuel =>
      match strip (list_ascii_of_string "(?=") s with
      | Some rest =>
          match parse_alt fuel rest with
          | Some (r, c :: rest') =>
              if Ascii.eqb c ")" then Some (Lookahead r, rest') else None
          | _ => None
          end
      | None =>
          match s with
          | [] => None
          | c :: rest =>
              if Ascii.eqb c "(" then
                match parse_alt fuel rest with
                | Some (r, c' :: rest') =>
                    if Ascii.eqb c' ")" then Some (Group r, rest') else None
                | _ => None
                end
              else if Ascii.eqb c "[" then
                match rest with
                | lo :: dash :: hi :: close :: rest' =>
                    if Ascii.eqb dash "-" && Ascii.eqb close "]"
                    then Some (One (Range lo hi), rest')
                    else None
                | _ => None
                end
              else if Ascii.eqb c "." then Some (One Dot, rest)
              else if Ascii.eqb c "^" then Some (Bol, rest)
              else if Ascii.eqb c "$" then Some (Eol, rest)
              else if special c then None
              else Some (One (Char c), rest)
          end
      end
  end.

(** [re.compile(pattern)]; [None] for a pattern that is refused. *)
Definition compile (pattern : string) : option regex :=
  match parse_alt (3 * String.length pattern + 3)
          (list_ascii_of_string pattern) with
  | Some (r, []) => Some r
  | _ => None
  end.

Definition accepts (i : item) (c : ascii) : bool :=
  match i with
  | Char x => Ascii.eqb c x
  | Dot => negb (Ascii.eqb c newline)
  | Range lo hi =>
      (nat_of_ascii lo <=? nat_of_ascii c)%nat
      && (nat_of_ascii c <=? nat_of_ascii hi)%nat
  end.

(** [$]: at the end of the text, or before a newline that ends it. *)
Definition at_end (s : list ascii) : bool :=
  match s with
  | [] => true
  | [c] => Ascii.eqb c newline
  | _ => false
  end.

(** The continuation that accepts any end of a match. *)
Definition anywhere (_ : bool) (_ : list ascii) : bool := true.

(** Matching at one position of the text: [bol] tells whether the position
    is the start of the text, [s] is the text from the position on, and the
    continuation [k] is asked about every position the expression can end
    at.  (Python tries the longer repetitions first; the order does not
    change whether there is a match.) *)
Fixpoint star (i : item) (k : bool -> list ascii -> bool) (bol : bool)
  (s : list ascii) : bool :=
  k bol s
  || match s with
     | c :: s' => accepts i c && star i k false s'
     | [] => false
     end.

Fixpoint matches (r : regex) (k : bool -> list ascii -> bool) (bol : bool)
  (s : list ascii) {struct r} : bool :=
  match r with
  | Empty => k bol s
  | One i =>
      match s with
      | c :: s' => accepts i c && k false s'
      | [] => false
      end
  | Star i => star i k bol s
  | Plus i =>
      match s with
      | c :: s' => accepts i c && star i k false s'
      | [] => false
      end
  | Bol => bol && k bol s
  | Eol => at_end s && k bol s
  | Seq r1 r2 => matches r1 (matches r2 k) bol s
  | Alt r1 r2 => matches r1 k bol s || matches r2 k bol s
  | Group r' => matches r' k bol s
  | Lookahead r' => matches r' anywhere bol s && k bol s
  end.

(** [pattern.search(text)], as a truth value: is there a match at some
    position of the text? *)
Fixpoint search_from (r : regex) (bol : bool) (s : list ascii) : bool :=
  matches r anywhere bol s
  || match s with
     | _ :: s' => search_from r false s'
     | [] => false
     end.

Definition search (r : regex) (text : string) : bool :=
  search_from r true (list_ascii_of_string text).

End Re.

(** *** [utils/analyses/families.py] *)

Module Families.

Local Open Scope string_scope.

(** The pattern properties of [Families]. *)
Definition efficientnet : string := "efficientnet".

Definition clip : string := "clip".

Definition vit_in : string :=
  "^(vit_tiny|vit_small|vit_base|vit_large|vit-s|vit-b|vit-l|vit_s|vit_b|vit_l)".

Definition vit_jft : string := "^vit-g".

Definition ssl : string := "(-rn50)$".

Definition inception : string := "^inception".

Definition align : string := "^align".

Definition basic : string := "^basic".

Definition densenet : string := "^densenet".

Definition mobilenet : string := "^mobilenet".

Definition nasnet : string := "^nasnet".

Definition pnasnet : string := "^pnasnet".

Definition vicreg : string := "(?=^vicreg)(?=.*" ++ ssl ++ "$)".

Definition swav : string := "(?=^swav)(?=.*" ++ ssl ++ "$)".

Definition barlowtins : string := "(?=^barlowtins)(?=.*" ++ ssl ++ "$)".

Definition simclr : string := "(?=^simclr)(?=.*" ++ ssl ++ "$)".

Definition movcov : string := "(?=^mocov[0-9]+)(?=.*" ++ ssl ++ "$)".

Definition jigsaw : string := "(?=^jigsaw)(?=.*" ++ ssl ++ "$)".

Definition rotnet : string := "(?=^rotnet)(?=.*" ++ ssl ++ "$)".

Definition ssl_contrastive : string :=
  "(" ++ simclr ++ ")|(" ++ movcov ++ ")".

Definition ssl_non_contrastive : string :=
  "(" ++ swav ++ ")|(" ++ vicreg ++ ")|(" ++ barlowtins ++ ")".

Definition ssl_non_siamese : string :=
  "(" ++ rotnet ++ ")|(" ++ jigsaw ++ ")".

Definition resnet : string := "^resnet".

Definition vgg : string := "vgg".

Definition resnext : string := "resnext".

Definition alexnet : string := "alexnet".

Definition cnn : string :=
  "(" ++ alexnet ++ "|" ++ vgg ++ "|" ++ resnet ++ "|" ++ resnext ++ ")".

Definition dino : string := "dino".

Definition convnext : string := "convnext".

Definition shufflenet : string := "shufflenet".

Definition squeezenet : string := "squeezenet".

Definition cornet : string := "cornet".

Definition bit : string := "bit".

Definition googlenet : string := "googlenet".

(** The names of the pattern properties: what [search] is called with. *)
Inductive Family : Type :=
| Efficientnet | Clip | Vit_in | Vit_jft | Ssl | Inception | Align | Basic
| Densenet | Mobilenet | Nasnet | Pnasnet | Vicreg | Swav | Barlowtins
| Simclr | Movcov | Jigsaw | Rotnet | Ssl_contrastive | Ssl_non_contrastive
| Ssl_non_siamese | Resnet | Vgg | Resnext | Alexnet | Cnn | Dino | Convnext
| Shufflenet | Squeezenet | Cornet | Bit | Googlenet.

(** [getattr(self, family)]. *)
Definition getattr (family : Family) : string :=
  match family with
  | Efficientnet => efficientnet
  | Clip => clip
  | Vit_in => vit_in
  | Vit_jft => vit_jft
  | Ssl => ssl
  | Inception => inception
  | Align => align
  | Basic => basic
  | Densenet => densenet
  | Mobilenet => mobilenet
  | Nasnet => nasnet
  | Pnasnet => pnasnet
  | Vicreg => vicreg
  | Swav => swav
  | Barlowtins => barlowtins
  | Simclr => simclr
  | Movcov => movcov
  | Jigsaw => jigsaw
  | Rotnet => rotnet
  | Ssl_contrastive => ssl_contrastive
  | Ssl_non_contrastive => ssl_non_contrastive
  | Ssl_non_siamese => ssl_non_siamese
  | Resnet => resnet
  | Vgg => vgg
  | Resnext => resnext
  | Alexnet => alexnet
  | Cnn => cnn
  | Dino => dino
  | Convnext => convnext
  | Shufflenet => shufflenet
  | Squeezenet => squeezenet
  | Cornet => cornet
  | Bit => bit
  | Googlenet => googlenet
  end.

(** [[x for x in items if test(x)]], with a test that may raise. *)
Fixpoint comprehension_if {A : Type} (test : A -> option bool)
  (items : list A) : option (list A) :=
  match items with
  | [] => Some []
  | x :: rest =>
      keep <- test x ;;
      kept <- comprehension_if test rest ;;
      Some (if keep then x :: kept else kept)
  end.

Section WithModels.

(** The field [models] of the dataclass. *)
Variable models : list string.

(** [search]: the pattern is compiled for every model, and looked for in
    the lower-case name of the model. *)
Definition search (family : Family) : option (list string) :=
  comprehension_if
    (fun model =>
       pattern <- Re.compile (getattr family) ;;
       Some (Re.search pattern (FromScratch.lower model)))
    models.

Definition vit_in_children := search Vit_in.

Definition vit_jft_children := search Vit_jft.

Definition inception_children := search Inception.

Definition align_children := search Align.

Definition basic_children := search Basic.

Definition mobilenet_children := search Mobilenet.

Definition densenet_children := search Densenet.

Definition nasnet_children := search Nasnet.

Definition pnasnet_children := search Pnasnet.

Definition clip_children := search Clip.

Definition cnn_children := search Cnn.

Definition ssl_children := search Ssl.

Definition ssl_contrastive_children := search Ssl_contrastive.

Definition ssl_non_contrastive_children := search Ssl_non_contrastive.

Definition ssl_non_siamese_children := search Ssl_non_siamese.

Definition alexnet_children := search Alexnet.

Definition vgg_children := search Vgg.

Definition dino_children := search Dino.

Definition resnet_children := search Resnet.

Definition resnext_children := search Resnext.

Definition efficientnet_children := search Efficientnet.

Definition convnext_children := search Convnext.

Definition shufflenet_children := search Shufflenet.

Definition squeezenet_children := search Squeezenet.

Definition cornet_children := search Cornet.

Definition bit_children := search Bit.

Definition googlenet_children := search Googlenet.

End WithModels.

End Families.

(** *** Plain descriptions of the names a family pattern selects *)

Module FamiliesSpec.

Import Families.

(** The text starts with the word. *)
Definition starts (w : string) (s : list ascii) : bool :=
  match Re.strip (list_ascii_of_string w) s with
  | Some _ => true
  | None => false
  end.

(** The text is the word, or the word and one newline. *)
Definition ends_here (w : string) (s : list ascii) : bool :=
  match Re.strip (list_ascii_of_string w) s with
  | Some rest => Re.at_end rest
  | None => false
  end.

(** The test holds of the text, or of the text without its first
    characters. *)
Fixpoint somewhere (test : list ascii -> bool) (s : list ascii) : bool :=
  test s
  || match s with
     | _ :: s' => somewhere test s'
     | [] => false
     end.

(** The word occurs in the text. *)
Definition contains (w : string) : list ascii -> bool :=
  somewhere (starts w).

(** The text ends with the word, or with the word and one newline. *)
Definition ends_line (w : string) : list ascii -> bool :=
  somewhere (ends_here w).

(** No newline in the text, but for a last character. *)
Fixpoint single_line (s : list ascii) : bool :=
  match s with
  | [] => true
  | c :: s' =>
      if Ascii.eqb c Re.newline
      then match s' with [] => true | _ :: _ => false end
      else single_line s'
  end.

(** A digit comes right after the word the text starts with. *)
Definition digit_after (w : string) (s : list ascii) : bool :=
  match Re.strip (list_ascii_of_string w) s with
  | Some (c :: _) => Re.accepts (Re.Range "0" "9") c
  | _ => false
  end.

(** A self-supervised ResNet-50 of one method: the name starts with the
    method and is one line that ends with [-rn50]. *)
Definition ssl_method (w : string) (s : list ascii) : bool :=
  starts w s && (ends_line "-rn50" s && single_line s).

Definition vit_in_prefixes : list string :=
  [ "vit_tiny"; "vit_small"; "vit_base"; "vit_large"; "vit-s"; "vit-b";
    "vit-l"; "vit_s"; "vit_b"; "vit_l" ]%string.

(** What a lower-case name has to look like to be taken into a family. *)
Definition describes (family : Family) (name : string) : bool :=
  let s := list_ascii_of_string name in
  match family with
  | Efficientnet => contains "efficientnet" s
  | Clip => contains "clip" s
  | Vit_in => existsb (fun w => starts w s) vit_in_prefixes
  | Vit_jft => starts "vit-g" s
  | Ssl => ends_line "-rn50" s
  | Inception => starts "inception" s
  | Align => starts "align" s
  | Basic => starts "basic" s
  | Densenet => starts "densenet" s
  | Mobilenet => starts "mobilenet" s
  | Nasnet => starts "nasnet" s
  | Pnasnet => starts "pnasnet" s
  | Vicreg => ssl_method "vicreg" s
  | Swav => ssl_method "swav" s
  | Barlowtins => ssl_method "barlowtins" s
  | Simclr => ssl_method "simclr" s
  | Movcov => digit_after "mocov" s && ssl_method "mocov" s
  | Jigsaw => ssl_method "jigsaw" s
  | Rotnet => ssl_method "rotnet" s
  | Ssl_contrastive =>
      ssl_method "simclr" s || (digit_after "mocov" s && ssl_method "mocov" s)
  | Ssl_non_contrastive =>
      ssl_method "swav" s || ssl_method "vicreg" s
      || ssl_method "barlowtins" s
  | Ssl_non_siamese => ssl_method "rotnet" s || ssl_method "jigsaw" s
  | Resnet => starts "resnet" s
  | Vgg => contains "vgg" s
  | Resnext => contains "resnext" s
  | Alexnet => contains "alexnet" s
  | Cnn =>
      contains "alexnet" s || contains "vgg" s || starts "resnet" s
      || contains "resnext" s
  | Dino => contains "dino" s
  | Convnext => contains "convnext" s
  | Shufflenet => contains "shufflenet" s
  | Squeezenet => contains "squeezenet" s
  | Cornet => contains "cornet" s
  | Bit => contains "bit" s
  | Googlenet => contains "googlenet" s
  end.

(** The families whose pattern is anchored at the start of the name. *)
Definition anchored : list Family :=
  [ Vit_in; Vit_jft; Inception; Align; Basic; Densenet; Mobilenet; Nasnet;
    Pnasnet; Resnet ].

End FamiliesSpec.

(** *** The family patterns, parsed *)

Module FamiliesParsed.

Import Re Families.

(** The expression of a word followed by [r]. *)
Definition word (w : string) (r : regex) : regex :=
  fold_right (fun c r' => Seq (One (Char c)) r') r (list_ascii_of_string w).

(** [.*(-rn50)$$] *)
Definition rn50_tail : regex :=
  Seq (Star Dot) (Seq (Group (word "-rn50" Empty)) (Seq Eol (Seq Eol Empty))).

(** [(?=^head)(?=.*(-rn50)$$)] *)
Definition method (head : regex) : regex :=
  Seq (Lookahead (Seq Bol head)) (Seq (Lookahead rn50_tail) Empty).

Definition alternatives (rs : list regex) (last : regex) : regex :=
  fold_right Alt last rs.

(** What [re.compile] makes of the pattern of each family. *)
Definition parsed (family : Family) : regex :=
  match family with
  | Efficientnet => word "efficientnet" Empty
  | Clip => word "clip" Empty
  | Vit_in =>
      Seq Bol
        (Seq (Group
                (alternatives
                   (map (fun w => word w Empty)
                      [ "vit_tiny"; "vit_small"; "vit_base"; "vit_large";
                        "vit-s"; "vit-b"; "vit-l"; "vit_s";
                        "vit_b" ]%string)
                   (word "vit_l" Empty)))
           Empty)
  | Vit_jft => Seq Bol (word "vit-g" Empty)
  | Ssl => Seq (Group (word "-rn50" Empty)) (Seq Eol Empty)
  | Inception => Seq Bol (word "inception" Empty)
  | Align => Seq Bol (word "align" Empty)
  | Basic => Seq Bol (word "basic" Empty)
  | Densenet => Seq Bol (word "densenet" Empty)
  | Mobilenet => Seq Bol (word "mobilenet" Empty)
  | Nasnet => Seq Bol (word "nasnet" Empty)
  | Pnasnet => Seq Bol (word "pnasnet" Empty)
  | Vicreg => method (word "vicreg" Empty)
  | Swav => method (word "swav" Empty)
  | Barlowtins => method (word "barlowtins" Empty)
  | Simclr => method (word "simclr" Empty)
  | Movcov => method (word "mocov" (Seq (Plus (Range "0" "9")) Empty))
  | Jigsaw => method (word "jigsaw" Empty)
  | Rotnet => method (word "rotnet" Empty)
  | Ssl_contrastive =>
      Alt (Seq (Group (method (word "simclr" Empty))) Empty)
        (Seq (Group
                (method (word "mocov" (Seq (Plus (Range "0" "9")) Empty))))
           Empty)
  | Ssl_non_contrastive =>
      Alt (Seq (Group (method (word "swav" Empty))) Empty)
        (Alt (Seq (Group (method (word "vicreg" Empty))) Empty)
           (Seq (Group (method (word "barlowtins" Empty))) Empty))
  | Ssl_non_siamese =>
      Alt (Seq (Group (method (word "rotnet" Empty))) Empty)
        (Seq (Group (method (word "jigsaw" Empty))) Empty)
  | Resnet => Seq Bol (word "resnet" Empty)
  | Vgg => word "vgg" Empty
  | Resnext => word "resnext" Empty
  | Alexnet => word "alexnet" Empty
  | Cnn =>
      Seq (Group
             (Alt (word "alexnet" Empty)
                (Alt (word "vgg" Empty)
                   (Alt (Seq Bol (word "resnet" Empty))
                      (word "resnext" Empty)))))
        Empty
  | Dino => word "dino" Empty
  | Convnext => word "convnext" Empty
  | Shufflenet => word "shufflenet" Empty
  | Squeezenet => word "squeezenet" Empty
  | Cornet => word "cornet" Empty
  | Bit => word "bit" Empty
  | Googlenet => word "googlenet" Empty
  end.

End FamiliesParsed.

(** *** [downstream/fewshot/data.py] *)

Module Data.

Local Open Scope string_scope.

(** The exceptions that are told apart: the ones this file raises
    ([ValueError], [KeyError], [IndexError]) and some of those that opening
    and reading a file or building a torchvision dataset can raise.  For
    Python a [UnicodeDecodeError] is a [ValueError] too. *)
Inductive Error : Type :=
| ValueError (msg : string)
| UnicodeDecodeError (reason : string)
| KeyError (key : string)
| IndexError
| OSError (msg : string)
| RuntimeError (msg : string).

Definition Result (A : Type) : Type := (Error + A)%type.

Definition try {A B : Type} (m : Result A) (k : A -> Result B) : Result B :=
  match m with
  | inl e => inl e
  | inr a => k a
  end.

(** A comprehension whose element expression may raise. *)
Fixpoint comprehension {A B : Type} (f : A -> Result B) (items : list A)
  : Result (list B) :=
  match items with
  | [] => inr []
  | x :: rest =>
      try (f x) (fun y => try (comprehension f rest) (fun ys => inr (y :: ys)))
  end.

Definition newline : string := String "010" EmptyString.

(** [s.split(sep)] for a separator of one character. *)
Fixpoint split (sep : ascii) (s : string) : list string :=
  match s with
  | EmptyString => [EmptyString]
  | String c s' =>
      if Ascii.eqb c sep then EmptyString :: split sep s'
      else
        match split sep s' with
        | part :: parts => String c part :: parts
        | [] => [String c EmptyString]
        end
  end.

(** [sep.join(parts)]. *)
Fixpoint join (sep : string) (parts : list string) : string :=
  match parts with
  | [] => EmptyString
  | [part] => part
  | part :: rest => part ++ sep ++ join sep rest
  end.

(** [s[1:]]. *)
Definition drop_first (s : string) : string :=
  match s with
  | EmptyString => EmptyString
  | String _ s' => s'
  end.

(** [l[2:-1]]. *)
Definition middle {A : Type} (l : list A) : list A :=
  skipn 2 (removelast l).

Fixpoint ends_with_slash (s : string) : bool :=
  match s with
  | EmptyString => false
  | String c EmptyString => Ascii.eqb c "/"
  | String _ s' => ends_with_slash s'
  end.

(** [os.path.join(a, b)] on POSIX. *)
Definition os_path_join (a b : string) : string :=
  match b with
  | String c _ =>
      if Ascii.eqb c "/" then b
      else if ends_with_slash a || String.eqb a "" then a ++ b
      else a ++ "/" ++ b
  | EmptyString =>
      if ends_with_slash a || String.eqb a "" then a else a ++ "/"
  end.

(** [d[key]] on a dictionary with string keys. *)
Definition getitem {V : Type} (d : list (string * V)) (key : string)
  : Result V :=
  match Results.dict_get key d with
  | Some v => inr v
  | None => inl (KeyError key)
  end.

(** [l[idx]], with Python's negative positions. *)
Definition index {A : Type} (l : list A) (idx : Z) : Result A :=
  let n := Z.of_nat (length l) in
  let position := if (idx <? 0)%Z then (idx + n)%Z else idx in
  if ((0 <=? position) && (position <? n))%Z
  then match nth_error l (Z.to_nat position) with
       | Some x => inr x
       | None => inl IndexError
       end
  else inl IndexError.

(** What the code reads and writes of an instance of torchvision's
    [SUN397]. *)
Record Sun397 : Type := {
  root : string;
  _data_dir : string;
  class_to_idx : list (string * Z);
  _image_files : list string;
  _labels : list Z;
  target_transform : option (Z -> Z)
}.

Section Loading.

(** The transforms, the embeddings of a dataset, and the instances of
    [CIFAR100] and [DTD], which the code only builds. *)
Context {Transform Embedding Torchvision : Type}.

(** The constructors of torchvision, with the arguments they are given;
    each returns an instance or raises (a failed download, a corrupted
    archive, ...). *)
Variable CIFAR100 :
  string -> bool -> option Transform -> Result Torchvision.
Variable DTD : string -> string -> option Transform -> Result Torchvision.
Variable SUN397 : string -> option Transform -> Result Sun397.

(** [open(path).read()]: the text of the file, or what opening or decoding
    it raises. *)
Variable read : string -> Result string.

Inductive Instance : Type :=
| OfTorchvision (dataset : Torchvision)
| OfSun397 (dataset : Sun397).

(** A dataset, and the embeddings when its class is the one that
    [embed_dataset] makes. *)
Record Dataset : Type := {
  instance : Instance;
  embedded : option (list (string * Embedding))
}.

(** [load_dataset]. *)
Definition load_dataset (name data_dir : string) (train : bool)
  (transform : option Transform)
  (embeddings : option (list (string * Embedding))) : Result Dataset :=
  if String.eqb name "cifar100" then
    try (CIFAR100 data_dir train transform) (fun dataset =>
    inr {| instance := OfTorchvision dataset; embedded := embeddings |})
  else if String.eqb name "DTD" then
    try (DTD data_dir (if train then "train" else "test") transform)
      (fun dataset =>
    inr {| instance := OfTorchvision dataset; embedded := embeddings |})
  else if String.eqb name "SUN397" then
    try (SUN397 data_dir transform) (fun dataset =>
    let split_file := if train then "Training_01.txt" else "Testing_01.txt" in
    try (read (os_path_join (root dataset) split_file)) (fun lines =>
    let file_names :=
      filter (fun l => negb (String.eqb l "")) (split "010" lines) in
    let image_files :=
      map (fun fn => os_path_join (_data_dir dataset) (drop_first fn))
        file_names in
    try (comprehension
           (fun path =>
              getitem (class_to_idx dataset)
                (join "/" (middle (split "/" path))))
           file_names)
      (fun labels =>
    inr {| instance :=
             OfSun397
               {| root := root dataset;
                  _data_dir := _data_dir dataset;
                  class_to_idx := class_to_idx dataset;
                  _image_files := image_files;
                  _labels := labels;
                  target_transform := target_transform dataset |};
           embedded := embeddings |})))
  else inl (ValueError (newline ++ "Unknown dataset" ++ newline)).

(** [__getitem__] of the class [embed_dataset] makes, on an instance of
    [SUN397]: it has no [targets], and it has [_image_files]. *)
Definition embed_getitem (embeddings : list (string * Embedding))
  (self : Sun397) (idx : Z) : Result (Embedding * Z) :=
  try (index (_labels self) idx) (fun label =>
  try (index (_image_files self) idx) (fun image_file =>
  try (getitem embeddings image_file) (fun embedding =>
  let label :=
    match target_transform self with
    | Some transform => transform label
    | None => label
    end in
  inr (embedding, label)))).

End Loading.

End Data.

(** *** The lines of a SUN397 split file *)

Module DataSpec.

Import Data.

Local Open Scope string_scope.

(** The character occurs in the string. *)
Fixpoint occurs (c : ascii) (s : string) : bool :=
  match s with
  | EmptyString => false
  | String x s' => Ascii.eqb x c || occurs c s'
  end.

(** An image of the split file: the letter directory, the class (a path of
    one or more directories) and the name of the file. *)
Record Entry : Type := {
  letter : string;
  class : string;
  file : string
}.

Definition line (e : Entry) : string :=
  "/" ++ letter e ++ "/" ++ class e ++ "/" ++ file e.

Definition relative (e : Entry) : string :=
  letter e ++ "/" ++ class e ++ "/" ++ file e.

(** The letter is not empty; letter and file name are free of slashes;
    nothing holds a newline. *)
Definition well_formed_entry (e : Entry) : Prop :=
  letter e <> "" /\
  occurs "/" (letter e) = false /\ occurs "/" (file e) = false /\
  occurs "010" (letter e) = false /\ occurs "010" (class e) = false /\
  occurs "010" (file e) = false.

(** A split file: one line for each entry. *)
Definition split_file_of (entries : list Entry) : string :=
  fold_right (fun e rest => line e ++ newline ++ rest) "" entries.

End DataSpec.

(** *** A SUN397 directory with two images *)

Module DemoData.

Import Data DataSpec.

Local Open Scope string_scope.

Definition entries : list Entry :=
  [ {| letter := "a"; class := "abbey"; file := "sun_aaa.jpg" |};
    {| letter := "a"; class := "apartment_building/outdoor";
       file := "sun_bbb.jpg" |} ].

Definition CIFAR100 (_ : string) (_ : bool) (_ : option unit)
  : Result unit :=
  inr tt.

(** A texture dataset whose download fails. *)
Definition DTD (_ : string) (_ : string) (_ : option unit) : Result unit :=
  inl (RuntimeError "Dataset not found").

(** The instance torchvision builds: every image of the directory. *)
Definition sun397 (root : string) : Sun397 :=
  {| root := root;
     _data_dir := os_path_join root "SUN397";
     class_to_idx :=
       [("abbey", 0%Z); ("apartment_building/outdoor", 1%Z);
        ("zoo", 2%Z)];
     _image_files :=
       [ "data/SUN397/a/abbey/sun_aaa.jpg";
         "data/SUN397/a/apartment_building/outdoor/sun_bbb.jpg";
         "data/SUN397/z/zoo/sun_ccc.jpg" ];
     _labels := [0%Z; 1%Z; 2%Z];
     target_transform := None |}.

Definition SUN397 (root : string) (_ : option unit) : Result Sun397 :=
  inr (sun397 root).

(** The training split is there; the test split is not. *)
Definition read (path : string) : Result string :=
  if String.eqb path "data/Training_01.txt"
  then inr (split_file_of entries)
  else inl (OSError path).

Definition embeddings : list (string * nat) :=
  [ ("data/SUN397/a/abbey/sun_aaa.jpg", 7%nat);
    ("data/SUN397/a/apartment_building/outdoor/sun_bbb.jpg", 8%nat) ].

End DemoData.

(** *** The predictions that name the third image *)

Module PredictionSpec.

(** Of the positions of a row of probabilities, [chosen] is the first
    that holds the probability of [largest], and no position holds a larger
    one. *)
Definition first_of_most_probable (probabilities : Torch.Vec)
  (chosen largest : Z) : Prop :=
  (0 <= chosen <= largest)%Z /\
  (nth (Z.to_nat chosen) probabilities 0
   == nth (Z.to_nat largest) probabilities 0)%Q /\
  Forall (fun q => (q <= nth (Z.to_nat largest) probabilities 0)%Q)
    probabilities /\
  (forall j : nat,
      (j < Z.to_nat chosen)%nat ->
      (nth j probabilities 0 < nth (Z.to_nat chosen) probabilities 0)%Q).

(** The share of the odd-one-out predictions that are index 2. *)
Definition share_of_negatives (predictions : list Z) : Q :=
  inject_Z (Z.of_nat (count_occ Z.eq_dec predictions 2%Z))
  / inject_Z (Z.of_nat (length predictions)).

End PredictionSpec.

(** ** Part II: properties *)

(** *** Facts about the tensor operations *)

Module TorchFacts.

Import Torch Spec.
Local Open Scope Q_scope.

Lemma insert_unique_InA (x y : Q) (l : Vec) :
  InA Qeq x (insert_unique y l) <-> x == y \/ InA Qeq x l.
Proof.
  induction l as [| z l IH]; simpl.
  - rewrite InA_cons, InA_nil. tauto.
  - destruct (Qcompare_spec y z) as [Heq | Hlt | Hgt].
    + rewrite InA_cons. split; [tauto |].
      intros [H | H]; [left; now rewrite H, Heq | exact H].
    + rewrite !InA_cons. tauto.
    + rewrite !InA_cons, IH. tauto.
Qed.

Lemma unique_InA (x : Q) (v : Vec) : InA Qeq x (unique v) <-> InA Qeq x v.
Proof.
  induction v as [| y v IH]; simpl.
  - reflexivity.
  - rewrite insert_unique_InA, IH, InA_cons. reflexivity.
Qed.

Lemma insert_unique_sorted (x : Q) (l : Vec) :
  StronglySorted Qlt l -> StronglySorted Qlt (insert_unique x l).
Proof.
  induction l as [| z l IH]; simpl; intros Hs.
  - constructor; constructor.
  - inversion Hs as [| ? ? Hs' Hall]; subst.
    destruct (Qcompare_spec x z) as [Heq | Hlt | Hgt].
    + exact Hs.
    + constructor; [exact Hs |].
      constructor; [exact Hlt |].
      eapply Forall_impl; [| exact Hall].
      intros a Ha. eapply Qlt_trans; eassumption.
    + constructor; [now apply IH |].
      rewrite Forall_forall. intros a Ha.
      assert (HA : InA Qeq a (insert_unique x l))
        by (apply In_InA; [exact Q_Setoid | exact Ha]).
      apply insert_unique_InA in HA. destruct HA as [HA | HA].
      * now rewrite HA.
      * apply InA_alt in HA. destruct HA as [b [Hab Hb]].
        rewrite Hab. rewrite Forall_forall in Hall. now apply Hall.
Qed.

Lemma unique_sorted (v : Vec) : StronglySorted Qlt (unique v).
Proof.
  induction v as [| y v IH]; simpl.
  - constructor.
  - now apply insert_unique_sorted.
Qed.

Lemma sorted_head_not_InA (x z : Q) (l : Vec) :
  StronglySorted Qlt (z :: l) -> x <= z -> ~ InA Qeq x l.
Proof.
  intros Hs Hle Hin. inversion Hs as [| ? ? _ Hall]; subst.
  apply InA_alt in Hin. destruct Hin as [b [Hxb Hb]].
  rewrite Forall_forall in Hall. specialize (Hall b Hb).
  rewrite <- Hxb in Hall.
  apply (Qlt_irrefl x). eapply Qle_lt_trans; eassumption.
Qed.

Lemma insert_unique_length_in (x : Q) (l : Vec) :
  StronglySorted Qlt l -> InA Qeq x l ->
  length (insert_unique x l) = length l.
Proof.
  induction l as [| z l IH]; simpl; intros Hs Hin.
  - inversion Hin.
  - destruct (Qcompare_spec x z) as [Heq | Hlt | Hgt].
    + reflexivity.
    + exfalso. apply InA_cons in Hin. destruct Hin as [Hin | Hin].
      * rewrite Hin in Hlt. now apply Qlt_irrefl in Hlt.
      * eapply sorted_head_not_InA; [exact Hs | | exact Hin].
        now apply Qlt_le_weak.
    + simpl. f_equal. inversion Hs; subst. apply IH; [assumption |].
      apply InA_cons in Hin. destruct Hin as [Hin | Hin]; [| exact Hin].
      rewrite Hin in Hgt. now apply Qlt_irrefl in Hgt.
Qed.

Lemma insert_unique_length_out (x : Q) (l : Vec) :
  ~ InA Qeq x l -> length (insert_unique x l) = S (length l).
Proof.
  induction l as [| z l IH]; simpl; intros Hin.
  - reflexivity.
  - destruct (Qcompare_spec x z) as [Heq | Hlt | Hgt].
    + exfalso. apply Hin. now constructor.
    + reflexivity.
    + simpl. f_equal. apply IH. intros H. apply Hin. now constructor 2.
Qed.

Lemma unique_length_le (v : Vec) : (length (unique v) <= length v)%nat.
Proof.
  induction v as [| y v IH]; simpl; [lia |].
  destruct (InA_dec Qeq_dec y (unique v)) as [Hin | Hout].
  - rewrite insert_unique_length_in; [lia | apply unique_sorted | exact Hin].
  - rewrite insert_unique_length_out; [lia | exact Hout].
Qed.

(** [torch.unique] keeps the length exactly when no value occurs twice. *)
Lemma unique_length_distinct (v : Vec) :
  length (unique v) = length v <-> all_distinct v.
Proof.
  unfold all_distinct. induction v as [| y v IH]; simpl.
  - split; [constructor | reflexivity].
  - pose proof (unique_length_le v) as Hle.
    destruct (InA_dec Qeq_dec y (unique v)) as [Hin | Hout].
    + rewrite insert_unique_length_in; [| apply unique_sorted | exact Hin].
      split; [lia |]. intros Hnd. inversion Hnd as [| ? ? Hny _]; subst.
      exfalso. apply Hny. now apply unique_InA.
    + rewrite insert_unique_length_out; [| exact Hout].
      split.
      * intros Hlen. constructor.
        -- intros H. apply Hout. now apply unique_InA.
        -- apply IH. lia.
      * intros Hnd. inversion Hnd; subst. f_equal. now apply IH.
Qed.

(** [torch.unique] leaves one value exactly when the tensor is not empty and
    all its entries are equal. *)
Lemma unique_length_one (v : Vec) :
  length (unique v) = 1%nat <-> v <> [] /\ exists c, Forall (fun x => x == c) v.
Proof.
  induction v as [| y v IH]; simpl.
  - split; [discriminate | intros [H _]; now elim H].
  - destruct (InA_dec Qeq_dec y (unique v)) as [Hin | Hout].
    + rewrite insert_unique_length_in; [| apply unique_sorted | exact Hin].
      rewrite IH. split.
      * intros [_ [c Hc]]. split; [discriminate |]. exists c.
        constructor; [| exact Hc].
        apply (proj1 (unique_InA _ _)), InA_alt in Hin.
        destruct Hin as [b [Hyb Hb]].
        rewrite Forall_forall in Hc. rewrite Hyb. now apply Hc.
      * intros [_ [c Hc]]. inversion Hc; subst. split.
        -- intros ->. apply unique_InA in Hin. inversion Hin.
        -- now exists c.
    + rewrite insert_unique_length_out; [| exact Hout].
      split.
      * intros Hlen. split; [discriminate |]. exists y.
        destruct v as [| z v].
        -- constructor; [reflexivity | constructor].
        -- exfalso. simpl in Hlen.
           assert (H0 : length (insert_unique z (unique v)) = 0%nat) by lia.
           destruct (InA_dec Qeq_dec z (unique v)) as [Hz | Hz].
           ++ rewrite insert_unique_length_in in H0;
                [| apply unique_sorted | exact Hz].
              destruct (unique v); [inversion Hz | discriminate].
           ++ rewrite insert_unique_length_out in H0; [discriminate | exact Hz].
      * intros [_ [c Hc]]. inversion Hc as [| ? ? Hy Hv]; subst.
        destruct v as [| z v]; [reflexivity |].
        exfalso. apply Hout. apply unique_InA.
        inversion Hv; subst. constructor. now rewrite Hy.
Qed.

Lemma argmax_from_spec (v : Vec) :
  forall (best : Q) (best_idx idx : Z),
    (argmax_from best best_idx idx v = best_idx /\
     Forall (fun x => x <= best) v) \/
    (exists k : nat,
        (k < length v)%nat /\
        argmax_from best best_idx idx v = (idx + Z.of_nat k)%Z /\
        best < nth k v 0 /\
        Forall (fun x => x <= nth k v 0) v).
Proof.
  induction v as [| x v IH]; intros best best_idx idx; simpl.
  - left. split; [reflexivity | constructor].
  - destruct (Qcompare_spec best x) as [Heq | Hlt | Hgt].
    + destruct (IH best best_idx (idx + 1)%Z)
        as [[Hr Hall] | [k [Hk [Hr [Hb Hall]]]]].
      * left. split; [exact Hr |]. constructor; [| exact Hall].
        rewrite Heq. apply Qle_refl.
      * right. exists (S k). repeat split.
        -- lia.
        -- rewrite Hr. lia.
        -- exact Hb.
        -- constructor; [| exact Hall].
           rewrite <- Heq. now apply Qlt_le_weak.
    + destruct (IH x idx (idx + 1)%Z)
        as [[Hr Hall] | [k [Hk [Hr [Hb Hall]]]]].
      * right. exists 0%nat. repeat split.
        -- lia.
        -- rewrite Hr. lia.
        -- exact Hlt.
        -- constructor; [apply Qle_refl | exact Hall].
      * right. exists (S k). repeat split.
        -- lia.
        -- rewrite Hr. lia.
        -- simpl. eapply Qlt_trans; eassumption.
        -- constructor; [now apply Qlt_le_weak | exact Hall].
    + destruct (IH best best_idx (idx + 1)%Z)
        as [[Hr Hall] | [k [Hk [Hr [Hb Hall]]]]].
      * left. split; [exact Hr |]. constructor; [| exact Hall].
        now apply Qlt_le_weak.
      * right. exists (S k). repeat split.
        -- lia.
        -- rewrite Hr. lia.
        -- exact Hb.
        -- constructor; [| exact Hall].
           apply Qlt_le_weak. eapply Qlt_trans; eassumption.
Qed.

(** [torch.argmax] of a tensor that is not empty is a position of its
    largest entry. *)
Lemma argmax_is_argmax (v : Vec) :
  v <> [] -> exists i : Z, argmax v = Some i /\ is_argmax v i.
Proof.
  destruct v as [| x v]; [intros H; now elim H | intros _].
  simpl. unfold is_argmax.
  destruct (argmax_from_spec v x 0%Z 1%Z)
    as [[Hr Hall] | [k [Hk [Hr [Hb Hall]]]]].
  - exists 0%Z. rewrite Hr. split; [reflexivity |]. split.
    + simpl length. lia.
    + simpl. constructor; [apply Qle_refl | exact Hall].
  - exists (1 + Z.of_nat k)%Z. rewrite Hr. split; [reflexivity |]. split.
    + simpl length. lia.
    + replace (Z.to_nat (1 + Z.of_nat k)) with (S k) by lia. simpl.
      constructor; [now apply Qlt_le_weak | exact Hall].
Qed.

End TorchFacts.

(** *** Rounding *)

Module RoundFacts.

Import Torch.
Local Open Scope Q_scope.

(** Rounding to the nearest integer moves a number by a half at most. *)
Lemma round_half_even_close (q : Q) :
  - (1 # 2) <= inject_Z (round_half_even q) - q <= 1 # 2.
Proof.
  unfold round_half_even. cbv zeta.
  pose proof (Qfloor_le q) as Hlo.
  pose proof (Qlt_floor q) as Hhi.
  rewrite inject_Z_plus in Hhi. change (inject_Z 1) with 1 in Hhi.
  destruct (Qcompare_spec (q - inject_Z (Qfloor q)) (1 # 2)) as [He | Hl | Hg];
    [destruct (Z.even (Qfloor q)) | |];
    rewrite ?inject_Z_plus; change (inject_Z 1) with 1;
    set (f := inject_Z (Qfloor q)) in *; clearbody f; Lqa.lra.
Qed.

(** Rounding to two decimal places moves a number by half a hundredth at
    most. *)
Lemma round2_close (q : Q) : Qabs (round2 q - q) <= 1 # 200.
Proof.
  apply Qabs_Qle_condition.
  pose proof (round_half_even_close (q * 100)) as H.
  unfold round2, Qdiv. change (/ 100) with (1 # 100).
  set (r := inject_Z (round_half_even (q * 100))) in *. clearbody r. Lqa.lra.
Qed.

End RoundFacts.

(** *** The similarity scorer: tie breaking *)

Module TieBreak.

Import Torch FromScratch Spec TorchFacts.
Local Open Scope Q_scope.

(** The condition [break_ties] tests is the tie-break condition worded in
    the specification. *)
Lemma tie_condition_reflect (pmf : Vec) :
  pmf <> [] ->
  negb (length (unique pmf) =? length pmf)%nat
  || (length (unique (map round2 pmf)) =? 1)%nat = true
  <-> tie_break_fires pmf.
Proof.
  intros Hne. unfold tie_break_fires.
  rewrite orb_true_iff, negb_true_iff, Nat.eqb_neq, Nat.eqb_eq.
  rewrite unique_length_distinct, unique_length_one.
  unfold collapses_after_rounding. split.
  - intros [H | [_ [c Hc]]]; [now left | right].
    exists c. now apply Forall_map in Hc.
  - intros [H | [c Hc]]; [now left | right]. split.
    + destruct pmf; [now elim Hne | discriminate].
    + exists c. now apply Forall_map.
Qed.

Lemma break_tie_fires (pmf : Vec) :
  pmf <> [] -> tie_break_fires pmf -> break_tie pmf = Some (-1)%Z.
Proof.
  intros Hne Hf. unfold break_tie.
  apply (tie_condition_reflect pmf Hne) in Hf. now rewrite Hf.
Qed.

Lemma break_tie_clear (pmf : Vec) :
  pmf <> [] -> ~ tie_break_fires pmf ->
  exists i : Z, break_tie pmf = Some i /\ is_argmax pmf i.
Proof.
  intros Hne Hf. unfold break_tie.
  destruct (negb (length (unique pmf) =? length pmf)%nat
            || (length (unique (map round2 pmf)) =? 1)%nat) eqn:Hc.
  - exfalso. apply Hf. now apply tie_condition_reflect.
  - now apply argmax_is_argmax.
Qed.

(** An arg-max position is never the sentinel. *)
Lemma is_argmax_not_sentinel (pmf : Vec) (i : Z) :
  is_argmax pmf i -> i <> (-1)%Z.
Proof. intros [H _]. lia. Qed.

(** C3.  For every probability vector of three entries, [break_ties]
    returns the sentinel -1 when the entries are not pairwise distinct or
    when, rounded to two decimal places, they are all one value; otherwise
    it returns a position of the largest entry.  On [0.5, 0.5, 0.0] and on
    [0.34, 0.33, 0.33] it returns -1, on [0.7, 0.2, 0.1] it returns 0. *)
Theorem break_ties_policy (pmf : Vec) (H3 : length pmf = 3%nat) :
  (tie_break_fires pmf -> break_ties [pmf] = Some [(-1)%Z]) /\
  (~ tie_break_fires pmf ->
   exists i : Z, break_ties [pmf] = Some [i] /\ is_argmax pmf i) /\
  break_ties [[1 # 2; 1 # 2; 0]] = Some [(-1)%Z] /\
  break_ties [[34 # 100; 33 # 100; 33 # 100]] = Some [(-1)%Z] /\
  break_ties [[7 # 10; 2 # 10; 1 # 10]] = Some [0%Z].
Proof.
  assert (Hne : pmf <> []) by (intros ->; discriminate).
  split; [| split; [| repeat split; reflexivity]].
  - intros Hf. unfold break_ties. simpl.
    now rewrite (break_tie_fires pmf Hne Hf).
  - intros Hf. destruct (break_tie_clear pmf Hne Hf) as [i [Hi Hmax]].
    exists i. unfold break_ties. simpl. now rewrite Hi.
Qed.

(** The policy at the vector [0.2, 0.7, 0.1]: no tie, arg-max position 1. *)
Lemma break_ties_policy_witness :
  exists i : Z,
    break_ties [[2 # 10; 7 # 10; 1 # 10]] = Some [i] /\
    is_argmax [2 # 10; 7 # 10; 1 # 10] i.
Proof.
  apply (break_ties_policy [2 # 10; 7 # 10; 1 # 10] eq_refl).
  intros Hf. apply tie_condition_reflect in Hf; discriminate.
Defined.

End TieBreak.

(** *** Comprehensions that may raise *)

Module PyFacts.

Lemma mapM_Forall2 {A B : Type} (f : A -> option B) (l : list A)
  (r : list B) :
  Py.mapM f l = Some r <-> Forall2 (fun x y => f x = Some y) l r.
Proof.
  revert r. induction l as [| x l IH]; intros r; simpl.
  - split.
    + intros H. injection H as <-. constructor.
    + intros H. inversion H. reflexivity.
  - destruct (f x) as [y |] eqn:Hy; simpl.
    + destruct (Py.mapM f l) as [ys |] eqn:Hys; simpl.
      * split.
        -- intros H. injection H as <-. constructor; [exact Hy |].
           now apply IH.
        -- intros H. inversion H as [| ? y' ? ys' Hy' Hys']; subst.
           apply IH in Hys'. congruence.
      * split; [discriminate |].
        intros H. inversion H as [| ? y' ? ys' Hy' Hys']; subst.
        apply IH in Hys'. discriminate.
    + split; [discriminate |].
      intros H. inversion H; subst. congruence.
Qed.

Lemma mapM_total {A B : Type} (f : A -> option B) (l : list A) :
  Forall (fun x => exists y, f x = Some y) l ->
  exists r, Py.mapM f l = Some r.
Proof.
  induction 1 as [| x l [y Hy] _ [r Hr]]; simpl.
  - now exists [].
  - rewrite Hy, Hr. simpl. now exists (y :: r).
Qed.

End PyFacts.

(** *** The similarity scorer: choice accuracy *)

Module ChoiceAccuracy.

Import Torch FromScratch Spec TorchFacts TieBreak.
Local Open Scope Q_scope.

Lemma zsum_from (l : list Z) (acc : Z) :
  fold_left Z.add l acc = (acc + zsum l)%Z.
Proof.
  unfold zsum. revert acc. induction l as [| x l IH]; intros acc; simpl.
  - lia.
  - rewrite IH, (IH x). lia.
Qed.

Lemma zsum_cons (x : Z) (l : list Z) : zsum (x :: l) = (x + zsum l)%Z.
Proof. unfold zsum at 1. simpl. now rewrite zsum_from. Qed.

Lemma zsum_where_eq0 (choices : list Z) :
  zsum (where_eq0 choices) = Z.of_nat (count_occ Z.eq_dec choices 0%Z).
Proof.
  induction choices as [| c choices IH]; [reflexivity |].
  change (where_eq0 (c :: choices))
    with ((if (c =? 0)%Z then 1%Z else 0%Z) :: where_eq0 choices).
  rewrite zsum_cons, IH. simpl count_occ.
  destruct (Z.eqb_spec c 0) as [-> | Hc].
  - destruct (Z.eq_dec 0 0) as [_ | H]; [lia | now elim H].
  - destruct (Z.eq_dec c 0) as [H | _]; [now elim Hc | lia].
Qed.

(** [break_ties] returns on every batch whose rows are not empty. *)
Lemma break_ties_total (probas : Matrix) :
  Forall (fun pmf => pmf <> []) probas ->
  exists choices, break_ties probas = Some choices.
Proof.
  intros H. apply PyFacts.mapM_total.
  eapply Forall_impl; [| exact H]. intros pmf Hne. cbv beta.
  destruct (tie_condition_reflect pmf Hne) as [_ Hr].
  unfold break_tie.
  destruct (negb (length (unique pmf) =? length pmf)%nat
            || (length (unique (map round2 pmf)) =? 1)%nat).
  - now exists (-1)%Z.
  - destruct (argmax_is_argmax pmf Hne) as [i [Hi _]]. now exists i.
Qed.

Lemma break_ties_length (probas : Matrix) (choices : list Z) :
  break_ties probas = Some choices -> length choices = length probas.
Proof.
  intros H. apply PyFacts.mapM_Forall2 in H.
  symmetry. eapply Forall2_length. exact H.
Qed.

Lemma np_mean_where_eq0 (c : Z) (choices : list Z) :
  np_mean (where_eq0 (c :: choices)) = Finite (share_of_zero (c :: choices)).
Proof.
  unfold share_of_zero. rewrite <- zsum_where_eq0.
  replace (length (c :: choices)) with (length (where_eq0 (c :: choices)))
    by (unfold where_eq0; apply length_map).
  reflexivity.
Qed.

(** The batched accuracy is the share of index 0 among the choices. *)
Lemma accuracy_batched (probas : Matrix) (choices : list Z) :
  probas <> [] -> break_ties probas = Some choices ->
  accuracy_ probas true = Some (AccMean (Finite (share_of_zero choices))).
Proof.
  intros Hne Hb. unfold accuracy_. rewrite Hb. simpl.
  pose proof (break_ties_length _ _ Hb) as Hlen.
  destruct choices as [| c choices].
  - destruct probas; [now elim Hne | discriminate].
  - now rewrite np_mean_where_eq0.
Qed.

Lemma share_of_zero_le (a b : list Z) :
  length a = length b ->
  (count_occ Z.eq_dec a 0%Z <= count_occ Z.eq_dec b 0%Z)%nat ->
  share_of_zero a <= share_of_zero b.
Proof.
  intros Hlen Hle. unfold share_of_zero. rewrite Hlen.
  unfold Qdiv. apply Qmult_le_compat_r.
  - rewrite <- Zle_Qle. lia.
  - destruct (length b) as [| n]; [discriminate |].
    apply Qlt_le_weak, Qinv_lt_0_compat.
    change 0 with (inject_Z 0). rewrite <- Zlt_Qlt. lia.
Qed.

(** C10.  On every batch of probability vectors of three entries, the
    batched choice accuracy is the share of rows whose tie-broken choice is
    index 0.  A row on which the tie-break fires is chosen -1 and counts as
    a miss: with any other row in its place the accuracy is at least as
    high. *)
Theorem accuracy_counts_index_zero (probas : Matrix)
  (H3 : Forall (fun pmf => length pmf = 3%nat) probas)
  (Hne : probas <> []) :
  exists choices : list Z,
    break_ties probas = Some choices /\
    length choices = length probas /\
    accuracy_ probas true = Some (AccMean (Finite (share_of_zero choices))) /\
    accuracy_ probas false = Some (AccList (where_eq0 choices)) /\
    (forall r : nat, nth r choices 0%Z = (-1)%Z ->
                     nth r (where_eq0 choices) 0%Z = 0%Z) /\
    (forall (pre post : Matrix) (amb other : Vec),
        probas = pre ++ amb :: post ->
        tie_break_fires amb ->
        length other = 3%nat ->
        nth (length pre) choices 0%Z = (-1)%Z /\
        exists better : list Z,
          break_ties (pre ++ other :: post) = Some better /\
          accuracy_ (pre ++ other :: post) true
          = Some (AccMean (Finite (share_of_zero better))) /\
          share_of_zero choices <= share_of_zero better).
Proof.
  assert (Hrows : Forall (fun pmf : Vec => pmf <> []) probas).
  { eapply Forall_impl; [| exact H3]. intros pmf Hl ->. discriminate. }
  destruct (break_ties_total probas Hrows) as [choices Hb].
  exists choices. split; [exact Hb |].
  split; [now apply break_ties_length |].
  split; [now apply accuracy_batched |].
  split; [unfold accuracy_; now rewrite Hb |].
  split.
  - intros r Hr. unfold where_eq0.
    destruct (Nat.lt_ge_cases r (length choices)) as [Hlt | Hge].
    + rewrite (nth_indep _ 0%Z (if (0 =? 0)%Z then 1%Z else 0%Z))
        by (now rewrite length_map).
      rewrite (map_nth (fun c => if (c =? 0)%Z then 1%Z else 0%Z)).
      now rewrite Hr.
    + apply nth_overflow. now rewrite length_map.
  - intros pre post amb other -> Hfire Hother.
    pose proof Hb as HF. apply PyFacts.mapM_Forall2 in HF.
    apply Forall2_app_inv_l in HF.
    destruct HF as [cpre [ctail [Hpre [Htail ->]]]].
    inversion Htail as [| ? camb ? cpost Hamb Hpost]; subst.
    assert (Hamb_ne : amb <> []).
    { apply Forall_app in H3. destruct H3 as [_ H3].
      inversion H3; subst. intros ->. discriminate. }
    rewrite (break_tie_fires amb Hamb_ne Hfire) in Hamb.
    injection Hamb as <-.
    assert (Hlen : length cpre = length pre)
      by (symmetry; eapply Forall2_length; exact Hpre).
    split.
    { rewrite app_nth2 by lia. rewrite Hlen, Nat.sub_diag. reflexivity. }
    assert (Hother_ne : other <> []) by (intros ->; discriminate).
    assert (Hc : exists c, break_tie other = Some c).
    { destruct (break_ties_total [other]) as [r Hr].
      - constructor; [exact Hother_ne | constructor].
      - unfold break_ties in Hr. simpl in Hr.
        destruct (break_tie other) as [c |]; [now exists c | discriminate]. }
    destruct Hc as [c Hc].
    assert (Hbetter : break_ties (pre ++ other :: post)
                      = Some (cpre ++ c :: cpost)).
    { apply PyFacts.mapM_Forall2. apply Forall2_app; [exact Hpre |].
      constructor; assumption. }
    exists (cpre ++ c :: cpost). split; [exact Hbetter |]. split.
    + apply accuracy_batched; [| exact Hbetter].
      destruct pre; discriminate.
    + apply share_of_zero_le.
      * rewrite !length_app. reflexivity.
      * rewrite !count_occ_app. simpl.
        destruct (Z.eq_dec (-1) 0) as [H | _]; [discriminate |].
        destruct (Z.eq_dec c 0); lia.
Qed.

(** The accuracy of a batch of two: a clear first choice and a tie. *)
Lemma accuracy_counts_index_zero_witness :
  accuracy_ [[7 # 10; 2 # 10; 1 # 10]; [1 # 2; 1 # 2; 0]] true
  = Some (AccMean (Finite (share_of_zero [0%Z; (-1)%Z]))).
Proof.
  destruct (accuracy_counts_index_zero
              [[7 # 10; 2 # 10; 1 # 10]; [1 # 2; 1 # 2; 0]])
    as [choices [Hb [_ [Hacc _]]]].
  - repeat constructor.
  - discriminate.
  - vm_compute in Hb. injection Hb as <-. exact Hacc.
Defined.

End ChoiceAccuracy.

(** *** The similarity scorer: similarities and odd-one-out conversion *)

Module Similarities.

Import Torch FromScratch Spec.
Local Open Scope Q_scope.

Lemma sum_from (v : Vec) :
  forall acc : Q, fold_left Qplus v acc == acc + sum v.
Proof.
  unfold sum. induction v as [| x v IH]; intros acc; simpl.
  - ring.
  - rewrite (IH (acc + x)), (IH (0 + x)). ring.
Qed.

Lemma sum_cons (x : Q) (v : Vec) : sum (x :: v) == x + sum v.
Proof. unfold sum at 1. simpl. rewrite sum_from. ring. Qed.

Lemma zip_mul_inner (a : Vec) :
  forall b : Vec,
    length a = length b ->
    exists r : Vec, zip_mul a b = Some r /\ sum r == inner a b.
Proof.
  induction a as [| x a IH]; intros [| y b] Hlen; try discriminate.
  - exists []. split; reflexivity.
  - injection Hlen as Hlen. destruct (IH b Hlen) as [r [Hr Hs]].
    exists (x * y :: r). simpl. rewrite Hr. simpl. split; [reflexivity |].
    rewrite sum_cons, Hs. reflexivity.
Qed.

(** The entrywise product of two rows of one length sums to their inner
    product. *)
Lemma mul_vec_inner (a b : Vec) :
  length a = length b ->
  exists r : Vec, mul_vec a b = Some r /\ sum r == inner a b.
Proof.
  intros Hlen. destruct (zip_mul_inner a b Hlen) as [r [Hr Hs]].
  exists r. unfold mul_vec. rewrite Hr. split; [reflexivity | exact Hs].
Qed.

Lemma zip_mul_rows_inner (a : Matrix) :
  forall b : Matrix,
    same_shape a b ->
    exists m : Matrix,
      zip_mul_rows a b = Some m /\
      length m = length a /\
      Forall2 Qeq (sum_dim1 m) (inner_rows a b).
Proof.
  unfold same_shape.
  induction a as [| x a IH]; intros [| y b] Hs; try discriminate.
  - exists []. repeat split. constructor.
  - simpl in Hs. injection Hs as Hl Hs.
    destruct (mul_vec_inner x y Hl) as [r [Hr Hsum]].
    destruct (IH b Hs) as [m [Hm [Hlen Hall]]].
    exists (r :: m). simpl. rewrite Hr. simpl. rewrite Hm. simpl.
    split; [reflexivity |]. split; [now rewrite Hlen |].
    constructor; assumption.
Qed.

(** On two batches of one shape [a * b] is the row-by-row product, and its
    rows sum to the inner products of the rows. *)
Lemma mul_inner_rows (a b : Matrix) :
  same_shape a b ->
  exists m : Matrix,
    mul a b = Some m /\
    length m = length a /\
    Forall2 Qeq (sum_dim1 m) (inner_rows a b).
Proof.
  intros Hs. destruct (zip_mul_rows_inner a b Hs) as [m [Hm H]].
  exists m. split; [| exact H]. unfold mul.
  assert (Hlen : length a = length b).
  { unfold same_shape in Hs. apply (f_equal (@length nat)) in Hs.
    now rewrite !length_map in Hs. }
  rewrite Hlen, Nat.eqb_refl. exact Hm.
Qed.

(** [convert_predictions] on one pairing position. *)
Lemma convert_predictions_pairing (idx m1 m2 : Z) :
  closest_pair idx = Some (m1, m2) ->
  exists ooo : Z,
    convert_predictions [idx] = [ooo] /\
    (ooo = anchor_id \/ ooo = positive_id \/ ooo = negative_id) /\
    ooo <> m1 /\ ooo <> m2.
Proof.
  unfold closest_pair, anchor_id, positive_id, negative_id.
  destruct (Z.eqb_spec idx 0) as [-> | H0].
  { intros H. injection H as <- <-. exists 2%Z. vm_compute. intuition lia. }
  destruct (Z.eqb_spec idx 1) as [-> | H1].
  { intros H. injection H as <- <-. exists 1%Z. vm_compute. intuition lia. }
  destruct (Z.eqb_spec idx 2) as [-> | H2].
  { intros H. injection H as <- <-. exists 0%Z. vm_compute. intuition lia. }
  discriminate.
Qed.

(** C4.  On three batches of embedding rows of one shape the scorer
    returns, in this order, the inner products anchor-positive,
    anchor-negative and positive-negative of every row.  The conversion maps
    the position of the closest pair to the member outside that pair:
    0 (anchor, positive) to 2 (negative), 1 (anchor, negative) to 1
    (positive), 2 (positive, negative) to 0 (anchor). *)
Theorem similarities_and_odd_one_out (anchor positive negative : Matrix)
  (Hap : same_shape anchor positive) (Han : same_shape anchor negative) :
  (exists sim_i sim_j sim_k : Vec,
      compute_similarities anchor positive negative
      = Some (sim_i, sim_j, sim_k) /\
      Forall2 Qeq sim_i (inner_rows anchor positive) /\
      Forall2 Qeq sim_j (inner_rows anchor negative) /\
      Forall2 Qeq sim_k (inner_rows positive negative)) /\
  convert_predictions [0; 1; 2]%Z = [2; 1; 0]%Z /\
  (forall idx m1 m2 : Z,
      closest_pair idx = Some (m1, m2) ->
      exists ooo : Z,
        convert_predictions [idx] = [ooo] /\
        (ooo = anchor_id \/ ooo = positive_id \/ ooo = negative_id) /\
        ooo <> m1 /\ ooo <> m2) /\
  (forall sim_predictions : list Z,
      convert_predictions sim_predictions
      = flat_map (fun idx => convert_predictions [idx]) sim_predictions).
Proof.
  split; [| split; [reflexivity | split]].
  - assert (Hpn : same_shape positive negative)
      by (unfold same_shape in *; congruence).
    destruct (mul_inner_rows _ _ Hap) as [ap [Eap [_ Fap]]].
    destruct (mul_inner_rows _ _ Han) as [an [Ean [_ Fan]]].
    destruct (mul_inner_rows _ _ Hpn) as [pn [Epn [_ Fpn]]].
    exists (sum_dim1 ap), (sum_dim1 an), (sum_dim1 pn).
    unfold compute_similarities. rewrite Eap, Ean, Epn. simpl.
    repeat split; assumption.
  - exact convert_predictions_pairing.
  - intros sim_predictions. unfold convert_predictions.
    rewrite map_map.
    induction sim_predictions as [| p l IH]; [reflexivity |].
    simpl. now rewrite IH.
Qed.

(** The scorer on a batch of two triplets of planar embeddings. *)
Lemma similarities_and_odd_one_out_witness :
  exists sim_i sim_j sim_k : Vec,
    compute_similarities [[1; 2]; [3; 4]] [[1; 1]; [1; 1]] [[0; 1]; [1; 0]]
    = Some (sim_i, sim_j, sim_k) /\
    Forall2 Qeq sim_i (inner_rows [[1; 2]; [3; 4]] [[1; 1]; [1; 1]]) /\
    Forall2 Qeq sim_j (inner_rows [[1; 2]; [3; 4]] [[0; 1]; [1; 0]]) /\
    Forall2 Qeq sim_k (inner_rows [[1; 1]; [1; 1]] [[0; 1]; [1; 0]]).
Proof.
  apply (similarities_and_odd_one_out
           [[1; 2]; [3; 4]] [[1; 1]; [1; 1]] [[0; 1]; [1; 0]]);
    reflexivity.
Defined.

End Similarities.

(** *** The steps of the Lightning module *)

Module Steps.

Import Torch FromScratch Spec TorchFacts TieBreak.
Local Open Scope Q_scope.

Lemma Forall_firstn {A : Type} (P : A -> Prop) (n : nat) (l : list A) :
  Forall P l -> Forall P (firstn n l).
Proof.
  intros H. rewrite <- (firstn_skipn n l) in H.
  now apply Forall_app in H.
Qed.

Lemma Forall_skipn {A : Type} (P : A -> Prop) (n : nat) (l : list A) :
  Forall P l -> Forall P (skipn n l).
Proof.
  intros H. rewrite <- (firstn_skipn n l) in H.
  now apply Forall_app in H.
Qed.

(** [unbind] splits a well-shaped tensor in three batches of one size. *)
Lemma unbind_returns (e : Matrix) (d : nat) :
  (length e mod 3 = 0)%nat -> (1 <= d)%nat ->
  Forall (fun row => length row = d) e ->
  exists anchor positive negative : Matrix,
    unbind (Some e) = Some (anchor, positive, negative) /\
    length anchor = (length e / 3)%nat /\
    length positive = (length e / 3)%nat /\
    length negative = (length e / 3)%nat /\
    Forall (fun row => length row = d) anchor /\
    Forall (fun row => length row = d) positive /\
    Forall (fun row => length row = d) negative.
Proof.
  intros Hmod Hd Hrows. unfold unbind, Py.bind. cbv zeta.
  assert (Hz : existsb (fun row : list Q => (length row =? 0)%nat) e = false).
  { apply not_true_is_false. intros H. apply existsb_exists in H.
    destruct H as [row [Hin Hrow]]. rewrite Forall_forall in Hrows.
    apply Nat.eqb_eq in Hrow. rewrite (Hrows row Hin) in Hrow. lia. }
  rewrite Hz. apply Nat.eqb_eq in Hmod as Hm. rewrite Hm.
  pose proof (Nat.div_mod_eq (length e) 3) as Hdiv.
  set (bs := (length e / 3)%nat) in *.
  exists (firstn bs e), (firstn bs (skipn bs e)), (skipn (2 * bs) e).
  split; [reflexivity |].
  rewrite !length_firstn, !length_skipn.
  repeat split; try lia;
    auto using Forall_firstn, Forall_skipn.
Qed.

Lemma uniform_same_shape (a b : Matrix) (d : nat) :
  length a = length b ->
  Forall (fun row => length row = d) a ->
  Forall (fun row => length row = d) b ->
  same_shape a b.
Proof.
  unfold same_shape. revert b.
  induction a as [| x a IH]; intros [| y b] Hlen Ha Hb; try discriminate.
  - reflexivity.
  - inversion Ha; inversion Hb; subst. simpl. f_equal; [congruence |].
    apply IH; auto.
Qed.

(** On batches of one shape [compute_similarities] returns three vectors
    with one entry per row. *)
Lemma compute_similarities_returns (anchor positive negative : Matrix) :
  same_shape anchor positive -> same_shape anchor negative ->
  exists sim_i sim_j sim_k : Vec,
    compute_similarities anchor positive negative
    = Some (sim_i, sim_j, sim_k) /\
    length sim_i = length anchor /\
    length sim_j = length anchor /\
    length sim_k = length anchor.
Proof.
  intros Hap Han.
  assert (Hpn : same_shape positive negative)
    by (unfold same_shape in *; congruence).
  assert (Hlen : length positive = length anchor).
  { unfold same_shape in Hap. apply (f_equal (@length nat)) in Hap.
    now rewrite !length_map in Hap. }
  destruct (Similarities.mul_inner_rows _ _ Hap) as [ap [Eap [Lap _]]].
  destruct (Similarities.mul_inner_rows _ _ Han) as [an [Ean [Lan _]]].
  destruct (Similarities.mul_inner_rows _ _ Hpn) as [pn [Epn [Lpn _]]].
  exists (sum_dim1 ap), (sum_dim1 an), (sum_dim1 pn).
  unfold compute_similarities. rewrite Eap, Ean, Epn. simpl.
  unfold sum_dim1. rewrite !length_map.
  split; [reflexivity |].
  split; [exact Lap |].
  split; [exact Lan |].
  exact (eq_trans Lpn Hlen).
Qed.

Lemma stack3_returns (a : Vec) :
  forall b c : Vec,
    length a = length b -> length a = length c ->
    exists m : Matrix,
      stack3 a b c = Some m /\
      length m = length a /\
      Forall (fun row => length row = 3%nat) m.
Proof.
  induction a as [| x a IH]; intros [| y b] [| z c] Hb Hc; try discriminate.
  - exists []. repeat split. constructor.
  - injection Hb as Hb. injection Hc as Hc.
    destruct (IH b c Hb Hc) as [m [Hm [Hlen Hrows]]].
    exists ([x; y; z] :: m). simpl. rewrite Hm. simpl.
    repeat split; [now rewrite Hlen | now constructor].
Qed.

Section WithExp.

Variable exp : Q -> Q.

Lemma softmax_row_length (v : Vec) : length (softmax_row exp v) = length v.
Proof. unfold softmax_row. now rewrite !length_map. Qed.

Lemma softmax_rows (m : Matrix) (n : nat) :
  Forall (fun row => length row = n) m ->
  Forall (fun row => length row = n) (softmax exp m).
Proof.
  intros H. unfold softmax. apply Forall_map.
  eapply Forall_impl; [| exact H].
  intros row Hrow. now rewrite softmax_row_length.
Qed.

Lemma rows_of_three_not_empty (m : Matrix) :
  Forall (fun row => length row = 3%nat) m ->
  Forall (fun row : Vec => row <> []) m.
Proof.
  intros H. eapply Forall_impl; [| exact H].
  intros row Hrow ->. discriminate.
Qed.

(** [choice_accuracy] returns on three similarity vectors of one
    length. *)
Lemma choice_accuracy_returns (sim_i sim_j sim_k : Vec) :
  length sim_i = length sim_j -> length sim_i = length sim_k ->
  exists acc : Accuracy,
    choice_accuracy exp (sim_i, sim_j, sim_k) = Some acc.
Proof.
  intros Hj Hk. unfold choice_accuracy.
  destruct (stack3_returns sim_i sim_j sim_k Hj Hk) as [m [Hm [_ Hrows]]].
  rewrite Hm. simpl.
  destruct (ChoiceAccuracy.break_ties_total (softmax exp m)) as [ch Hch].
  { apply rows_of_three_not_empty. now apply softmax_rows. }
  unfold accuracy_. rewrite Hch. simpl. eauto.
Qed.

End WithExp.

(** [classification_accuracy] returns when every image has a label, a row of
    logits with a class in it, and the batch is not empty. *)
Lemma classification_accuracy_returns (logits : Matrix) (labels : list Z) :
  labels <> [] -> length logits = length labels ->
  Forall (fun row => row <> []) logits ->
  exists acc : Q, classification_accuracy logits labels = Some acc.
Proof.
  intros Hne Hlen Hrows. unfold classification_accuracy.
  destruct (PyFacts.mapM_total argmax logits) as [max_idcs Hmax].
  { eapply Forall_impl; [| exact Hrows]. intros row Hrow.
    destruct (argmax_is_argmax row Hrow) as [i [Hi _]]. eauto. }
  rewrite Hmax. simpl.
  assert (Hl : length max_idcs = length labels).
  { pose proof Hmax as HF. apply PyFacts.mapM_Forall2, Forall2_length in HF.
    exact (eq_trans (eq_sym HF) Hlen). }
  unfold eq_tensor. rewrite Hl, Nat.eqb_refl. simpl.
  destruct labels; [now elim Hne | simpl; eauto].
Qed.

#[local] Arguments choice_accuracy : simpl never.
#[local] Arguments classification_accuracy : simpl never.
#[local] Arguments compute_similarities : simpl never.
#[local] Arguments convert_predictions : simpl never.
#[local] Arguments unbind : simpl never.
#[local] Arguments softmax : simpl never.

Section WithModule.

Context {Images : Type}.
Variable cat : list Images -> Images.
Variable exp : Q -> Q.

(** The similarities of a well-formed triplet batch: three vectors of one
    length. *)
Lemma batch_similarities_returns (self : LightningModule Images)
  (things_batch : Images * Images * Images) :
  well_formed_things cat self things_batch ->
  exists sim_i sim_j sim_k : Vec,
    batch_similarities cat self things_batch = Some (sim_i, sim_j, sim_k) /\
    length sim_i = length sim_j /\
    length sim_i = length sim_k.
Proof.
  destruct things_batch as [[t0 t1] t2].
  intros [e [d [He [Hmod [Hd Hrows]]]]].
  unfold batch_similarities. rewrite He.
  destruct (unbind_returns e d Hmod Hd Hrows)
    as [a [p [n [Hu [La [Lp [Ln [Ra [Rp Rn]]]]]]]]].
  rewrite Hu. simpl.
  destruct (compute_similarities_returns a p n)
    as [si [sj [sk [Hc [Li [Lj Lk]]]]]].
  - eapply uniform_same_shape; eauto. congruence.
  - eapply uniform_same_shape; eauto. congruence.
  - exists si, sj, sk. split; [exact Hc |]. split; congruence.
Qed.

(** [_step] returns on a well-formed batch, and its loss is the mix of
    the two losses it also returns. *)
Lemma step_returns (self : LightningModule Images) (batch : Batch Images)
  (batch_idx : Z) :
  well_formed_batch cat self batch ->
  exists (r : StepResult) (dots : Vec * Vec * Vec),
    _step cat exp self batch batch_idx = Some r /\
    batch_similarities cat self (fst batch) = Some dots /\
    similarity_loss r = similarity_loss_fun self dots /\
    classification_loss r
    = classification_loss_fun self
        (net (model self) (fst (snd batch))) (snd (snd batch)) /\
    loss r
    = (1 - alpha self) * similarity_loss r
      + alpha self * classification_loss r.
Proof.
  destruct batch as [[[t0 t1] t2] [images labels]].
  intros [Hthings [Hne [Hlen Hrows]]].
  destruct (batch_similarities_returns self (t0, t1, t2) Hthings)
    as [si [sj [sk [Hs [Lj Lk]]]]].
  destruct (choice_accuracy_returns exp si sj sk Lj Lk) as [acc Hacc].
  destruct (classification_accuracy_returns _ _ Hne Hlen Hrows)
    as [cacc Hcacc].
  simpl in Hs. unfold batch_similarities in Hs.
  unfold _step, forward.
  destruct (unbind (hooked_activation (model self) (module self)
                      (cat [t0; t1; t2]))) as [[[a p] n] |] eqn:Hu;
    [| discriminate].
  simpl in Hs |- *. rewrite Hs. simpl. rewrite Hacc. simpl.
  rewrite Hcacc. simpl.
  eexists. exists (si, sj, sk). repeat split.
  rewrite Hu. exact Hs.
Qed.

(** [predict_step] returns on a well-formed triplet batch: it converts
    the arg-max position of every softmax row. *)
Lemma predict_step_returns (self : LightningModule Images)
  (batch : Batch Images) (batch_idx : Z) :
  well_formed_things cat self (fst batch) ->
  exists (sim_i sim_j sim_k : Vec) (stacked : Matrix)
         (sim_predictions : list Z),
    batch_similarities cat self (fst batch) = Some (sim_i, sim_j, sim_k) /\
    stack3 sim_i sim_j sim_k = Some stacked /\
    length stacked = length sim_i /\
    Py.mapM argmax (softmax exp stacked) = Some sim_predictions /\
    Forall (fun row => length row = 3%nat) (softmax exp stacked) /\
    predict_step cat exp self batch batch_idx
    = Some (convert_predictions sim_predictions).
Proof.
  destruct batch as [[[t0 t1] t2] [images labels]].
  intros Hthings.
  destruct (batch_similarities_returns self (t0, t1, t2) Hthings)
    as [si [sj [sk [Hs [Lj Lk]]]]].
  destruct (stack3_returns si sj sk Lj Lk) as [m [Hm [Lm Hrows]]].
  pose proof (softmax_rows exp m 3 Hrows) as Hsoft.
  destruct (PyFacts.mapM_total argmax (softmax exp m)) as [sp Hsp].
  { eapply Forall_impl; [| exact (rows_of_three_not_empty _ Hsoft)].
    intros row Hrow.
    destruct (argmax_is_argmax row Hrow) as [i [Hi _]]. eauto. }
  exists si, sj, sk, m, sp.
  split; [exact Hs |]. split; [exact Hm |]. split; [exact Lm |].
  split; [exact Hsp |]. split; [exact Hsoft |].
  simpl in Hs. unfold batch_similarities in Hs.
  unfold predict_step, forward.
  destruct (unbind (hooked_activation (model self) (module self)
                      (cat [t0; t1; t2]))) as [[[a p] n] |];
    [| discriminate].
  simpl in Hs |- *. rewrite Hs. simpl. rewrite Hm. simpl.
  rewrite Hsp. reflexivity.
Qed.

End WithModule.

End Steps.

(** *** The probe objective *)

Module Objective.

Import Torch FromScratch Spec Steps.
Local Open Scope Q_scope.

#[local] Arguments _step : simpl never.

(** The demo batch is well formed for the demo module, whatever its mixing
    weight. *)
Lemma demo_well_formed (a : Q) :
  well_formed_batch Demo.cat (Demo.probe a) Demo.batch.
Proof.
  split.
  - exists [[0]; [0]; [0]], 1%nat.
    repeat split; [lia | repeat constructor].
  - repeat split; [discriminate | repeat constructor; discriminate].
Qed.

Section WithModule.

Context {Images : Type}.
Variable cat : list Images -> Images.
Variable exp : Q -> Q.

(** The three phase steps pass on what [_step] returns. *)
Lemma steps_pass_on (self : LightningModule Images) (batch : Batch Images)
  (batch_idx : Z) (r : StepResult) :
  _step cat exp self batch batch_idx = Some r ->
  training_step cat exp self batch batch_idx
  = Some (loss r, metrics_of "train" r) /\
  validation_step cat exp self batch batch_idx
  = Some (metrics_of "val" r) /\
  test_step cat exp self batch batch_idx = Some (metrics_of "test" r).
Proof.
  intros Hr. unfold training_step, validation_step, test_step.
  rewrite Hr. repeat split.
Qed.

(** C2.  On every well-formed batch pair the scalar loss a step returns
    is [(1 - alpha) * triplet_similarity_loss + alpha * classification_loss]
    with the configured [alpha], where the first term is the triplet loss
    of the batch's similarities and the second the cross-entropy of the
    batch's logits and labels.  Both terms enter the one scalar of every
    step: the result does not depend on the batch index, and it is the
    loss the training step returns and the validation and test steps
    report. *)
Theorem step_loss_is_mix (self : LightningModule Images)
  (batch : Batch Images) (batch_idx : Z)
  (Hwf : well_formed_batch cat self batch) :
  exists (r : StepResult) (dots : Vec * Vec * Vec),
    _step cat exp self batch batch_idx = Some r /\
    batch_similarities cat self (fst batch) = Some dots /\
    loss r
    = combined_loss (alpha self)
        (similarity_loss_fun self dots)
        (classification_loss_fun self
           (net (model self) (fst (snd batch))) (snd (snd batch))) /\
    (forall other_idx : Z,
        _step cat exp self batch other_idx = Some r) /\
    (exists logged,
        training_step cat exp self batch batch_idx
        = Some (loss r, logged)) /\
    (exists metrics,
        validation_step cat exp self batch batch_idx = Some metrics /\
        In ("val_loss"%string, Scalar (loss r)) metrics) /\
    (exists metrics,
        test_step cat exp self batch batch_idx = Some metrics /\
        In ("test_loss"%string, Scalar (loss r)) metrics).
Proof.
  destruct (step_returns cat exp self batch batch_idx Hwf)
    as [r [dots [Hr [Hd [Hs [Hc Hl]]]]]].
  destruct (steps_pass_on self batch batch_idx r Hr) as [Ht [Hv Hte]].
  exists r, dots. split; [exact Hr |]. split; [exact Hd |].
  split; [unfold combined_loss; now rewrite Hl, Hs, Hc |].
  split; [intros other_idx; exact Hr |].
  split; [eexists; exact Ht |].
  split; eexists; (split; [eassumption | now left]).
Qed.

(** C1, as the code has it.  On every well-formed batch pair, with
    mixing weight 0 the combined loss of a step is the triplet similarity
    loss, whatever the classification loss; with mixing weight 1 it is the
    classification loss, whatever the similarity loss. *)
Theorem combined_loss_at_endpoints (self : LightningModule Images)
  (batch : Batch Images) (batch_idx : Z)
  (Hwf : well_formed_batch cat self batch) :
  exists r : StepResult,
    _step cat exp self batch batch_idx = Some r /\
    (alpha self == 0 -> loss r == similarity_loss r) /\
    (alpha self == 1 -> loss r == classification_loss r).
Proof.
  destruct (step_returns cat exp self batch batch_idx Hwf)
    as [r [dots [Hr [_ [_ [_ Hl]]]]]].
  exists r. split; [exact Hr |]. rewrite Hl.
  split; intros Ha; rewrite Ha; ring.
Qed.

End WithModule.

(** The mix on the demo batch with weight 1/10: 0.9 * 1 + 0.1 * 2. *)
Lemma step_loss_is_mix_witness :
  exists r : StepResult,
    _step Demo.cat Demo.exp (Demo.probe (1 # 10)) Demo.batch 0 = Some r /\
    loss r == 11 # 10.
Proof.
  destruct (step_loss_is_mix Demo.cat Demo.exp (Demo.probe (1 # 10))
              Demo.batch 0 (demo_well_formed (1 # 10)))
    as [r [dots [Hr [_ [Hl _]]]]].
  exists r. split; [exact Hr |]. rewrite Hl. reflexivity.
Defined.

(** The two end points on the demo batch. *)
Lemma combined_loss_at_endpoints_witness :
  (exists r : StepResult,
      _step Demo.cat Demo.exp (Demo.probe 0) Demo.batch 0 = Some r /\
      loss r == similarity_loss r) /\
  (exists r : StepResult,
      _step Demo.cat Demo.exp (Demo.probe 1) Demo.batch 0 = Some r /\
      loss r == classification_loss r).
Proof.
  split.
  - destruct (combined_loss_at_endpoints Demo.cat Demo.exp (Demo.probe 0)
                Demo.batch 0 (demo_well_formed 0)) as [r [Hr [H0 _]]].
    exists r. split; [exact Hr | apply H0; reflexivity].
  - destruct (combined_loss_at_endpoints Demo.cat Demo.exp (Demo.probe 1)
                Demo.batch 0 (demo_well_formed 1)) as [r [Hr [_ H1]]].
    exists r. split; [exact Hr | apply H1; reflexivity].
Defined.

(** With mixing weight 0 the step on the demo batch (triplet loss 1,
    classification loss 2) returns the loss 1, not the classification loss;
    with mixing weight 1 it returns 2, not the triplet loss. *)
Lemma combined_loss_endpoints_swapped :
  (exists r : StepResult,
      _step Demo.cat Demo.exp (Demo.probe 0) Demo.batch 0 = Some r /\
      similarity_loss r == 1 /\ classification_loss r == 2 /\
      loss r == 1 /\
      Qeq_bool (loss r) (classification_loss r) = false) /\
  (exists r : StepResult,
      _step Demo.cat Demo.exp (Demo.probe 1) Demo.batch 0 = Some r /\
      similarity_loss r == 1 /\ classification_loss r == 2 /\
      loss r == 2 /\
      Qeq_bool (loss r) (similarity_loss r) = false).
Proof.
  split; eexists; (split; [vm_compute; reflexivity |]);
    repeat split; reflexivity.
Qed.

End Objective.

(** *** The prediction step *)

Module Prediction.

Import Torch FromScratch Spec TorchFacts Steps.
Local Open Scope Q_scope.

Lemma argmax_rows (probas : Matrix) (sim_predictions : list Z) :
  Py.mapM argmax probas = Some sim_predictions ->
  Forall2 is_argmax probas sim_predictions.
Proof.
  intros H. apply PyFacts.mapM_Forall2 in H.
  induction H as [| row i probas sp Hi _ IH]; constructor; [| exact IH].
  destruct row as [| x row]; [discriminate |].
  destruct (argmax_is_argmax (x :: row)) as [j [Hj Hmax]]; [discriminate |].
  congruence.
Qed.

Lemma convert_predictions_members (probas : Matrix)
  (sim_predictions : list Z) :
  Forall (fun row => length row = 3%nat) probas ->
  Forall2 is_argmax probas sim_predictions ->
  Forall (fun p => p = anchor_id \/ p = positive_id \/ p = negative_id)
    (convert_predictions sim_predictions).
Proof.
  intros Hrows H. induction H as [| row i probas sp [Hi _] _ IH].
  - constructor.
  - inversion Hrows as [| ? ? Hrow Hrest]; subst.
    change (convert_predictions (i :: sp))
      with (convert_predictions [i] ++ convert_predictions sp).
    apply Forall_app. split; [| now apply IH].
    rewrite Hrow in Hi. unfold anchor_id, positive_id, negative_id.
    assert (Hc : (i = 0 \/ i = 1 \/ i = 2)%Z) by lia.
    destruct Hc as [-> | [-> | ->]]; vm_compute;
      (constructor; [auto | constructor]).
Qed.

Section WithModule.

Context {Images : Type}.
Variable cat : list Images -> Images.
Variable exp : Q -> Q.

(** C5, as the code has it.  On every well-formed triplet batch the
    prediction step returns, for each example, the conversion of an
    arg-max position of the example's softmax row: a member of the
    triplet, never the sentinel -1.  The tie-break is not consulted on this
    path, so a tie changes nothing and raises nothing. *)
Theorem predict_step_converts_argmax (self : LightningModule Images)
  (batch : Batch Images) (batch_idx : Z)
  (Hwf : well_formed_things cat self (fst batch)) :
  exists (sim_i sim_j sim_k : Vec) (stacked : Matrix)
         (sim_predictions : list Z),
    batch_similarities cat self (fst batch) = Some (sim_i, sim_j, sim_k) /\
    stack3 sim_i sim_j sim_k = Some stacked /\
    Forall2 is_argmax (softmax exp stacked) sim_predictions /\
    predict_step cat exp self batch batch_idx
    = Some (convert_predictions sim_predictions) /\
    length (convert_predictions sim_predictions) = length sim_i /\
    Forall (fun p => p = anchor_id \/ p = positive_id \/ p = negative_id)
      (convert_predictions sim_predictions) /\
    Forall (fun p => p <> (-1)%Z) (convert_predictions sim_predictions).
Proof.
  destruct (predict_step_returns cat exp self batch batch_idx Hwf)
    as [si [sj [sk [m [sp [Hs [Hm [Lm [Hsp [Hrows Hp]]]]]]]]]].
  pose proof (argmax_rows _ _ Hsp) as Hmax.
  pose proof (convert_predictions_members _ _ Hrows Hmax) as Hmem.
  exists si, sj, sk, m, sp.
  repeat (split; [assumption |]).
  split.
  - unfold convert_predictions. rewrite !length_map.
    apply Forall2_length in Hmax. rewrite <- Hmax.
    unfold softmax. rewrite length_map. exact Lm.
  - split; [exact Hmem |].
    eapply Forall_impl; [| exact Hmem].
    unfold anchor_id, positive_id, negative_id. intros p Hp'. lia.
Qed.

End WithModule.

(** The prediction step on the demo batch. *)
Lemma predict_step_converts_argmax_witness :
  exists sim_predictions : list Z,
    predict_step Demo.cat Demo.exp (Demo.probe (1 # 10)) Demo.batch 0
    = Some (convert_predictions sim_predictions) /\
    Forall (fun p => p <> (-1)%Z) (convert_predictions sim_predictions).
Proof.
  destruct (predict_step_converts_argmax Demo.cat Demo.exp
              (Demo.probe (1 # 10)) Demo.batch 0)
    as [si [sj [sk [m [sp [_ [_ [_ [Hp [_ [_ Hn]]]]]]]]]]].
  - destruct (Objective.demo_well_formed (1 # 10)) as [H _]. exact H.
  - exists sp. split; assumption.
Defined.

(** The three embeddings of the demo triplet are equal, so its three
    similarities are 0 and its softmax row is uniform: the tie-break fires
    on it and [break_ties] answers -1, yet the prediction step emits 2, the
    conversion of arg-max position 0. *)
Lemma predict_step_emits_argmax_on_tie :
  batch_similarities Demo.cat (Demo.probe (1 # 10)) (fst Demo.batch)
  = Some ([0], [0], [0]) /\
  break_ties (softmax Demo.exp [[0; 0; 0]]) = Some [(-1)%Z] /\
  predict_step Demo.cat Demo.exp (Demo.probe (1 # 10)) Demo.batch 0
  = Some [2%Z].
Proof. repeat split; vm_compute; reflexivity. Qed.

End Prediction.

(** *** The optimizer configuration *)

Module Optimizers.

Import FromScratch.
Local Open Scope string_scope.

Lemma upper_lower_ascii (c : ascii) :
  upper_ascii (lower_ascii c) = upper_ascii c.
Proof. destruct c as [[] [] [] [] [] [] [] []]; reflexivity. Qed.

Lemma upper_lower (s : string) : upper (lower s) = upper s.
Proof.
  induction s as [| c s IH]; simpl; [reflexivity |].
  now rewrite upper_lower_ascii, IH.
Qed.

Lemma lower_lower_ascii (c : ascii) :
  lower_ascii (lower_ascii c) = lower_ascii c.
Proof. destruct c as [[] [] [] [] [] [] [] []]; reflexivity. Qed.

Lemma lower_lower (s : string) : lower (lower s) = lower s.
Proof.
  induction s as [| c s IH]; simpl; [reflexivity |].
  now rewrite lower_lower_ascii, IH.
Qed.

(** Capitalizing a name only looks at its lower-case form. *)
Lemma capitalize_lower (s : string) : capitalize (lower s) = capitalize s.
Proof.
  destruct s as [| c s]; simpl; [reflexivity |].
  now rewrite upper_lower_ascii, lower_lower.
Qed.

(** The checks of the constructor, for a momentum that is absent or not
    negative. *)
Lemma new_optimizer_returns (optimizer : OptimizerClass) (n : nat)
  (rate : Q) (momentum : option Q) (weight_decay : Q) :
  match momentum with
  | Some m => Qle_bool 0 m = true
  | None => True
  end ->
  (0 <= rate)%Q -> (0 <= weight_decay)%Q -> n <> 0%nat ->
  new_optimizer optimizer n rate momentum weight_decay
  = inr {| opt_class := optimizer;
           opt_lr := rate;
           opt_momentum := momentum;
           opt_weight_decay := weight_decay |}.
Proof.
  intros Hm Hr Hw Hn. unfold new_optimizer.
  rewrite (proj2 (Qle_bool_iff 0 rate) Hr).
  rewrite (proj2 (Qle_bool_iff 0 weight_decay) Hw).
  apply Nat.eqb_neq in Hn. rewrite Hn.
  destruct momentum as [m |]; [| reflexivity].
  now rewrite Hm.
Qed.

Lemma new_optimizer_raises (optimizer : OptimizerClass) (n : nat)
  (rate : Q) (momentum : option Q) (weight_decay : Q) (e : Py.Exception) :
  match momentum with
  | Some m => Qle_bool 0 m = true
  | None => True
  end ->
  new_optimizer optimizer n rate momentum weight_decay = inl e ->
  (exists msg : string, e = Py.ValueError msg) /\
  ((rate < 0)%Q \/ (weight_decay < 0)%Q \/ n = 0%nat).
Proof.
  intros Hm. unfold new_optimizer.
  destruct (Qle_bool 0 rate) eqn:Hr; cbn [negb].
  - replace (match momentum with
             | Some m => negb (Qle_bool 0 m)
             | None => false
             end) with false
      by (destruct momentum as [m |]; [| reflexivity]; now rewrite Hm).
    destruct (Qle_bool 0 weight_decay) eqn:Hw; cbn [negb].
    + destruct (Nat.eqb_spec n 0) as [-> | Hn]; [| discriminate].
      intros H. injection H as <-. split; [eauto | tauto].
    + intros H. injection H as <-. split; [eauto |]. right. left.
      apply Qnot_le_lt. intros Hle. apply Qle_bool_iff in Hle. congruence.
  - intros H. injection H as <-. split; [eauto |]. left.
    apply Qnot_le_lt. intros Hle. apply Qle_bool_iff in Hle. congruence.
Qed.

Lemma new_optimizer_refuses (optimizer : OptimizerClass) (n : nat)
  (rate : Q) (momentum : option Q) (weight_decay : Q) :
  (rate < 0)%Q \/ (weight_decay < 0)%Q \/ n = 0%nat ->
  exists msg : string,
    new_optimizer optimizer n rate momentum weight_decay
    = inl (Py.ValueError msg).
Proof.
  intros H. unfold new_optimizer.
  destruct (Qle_bool 0 rate) eqn:Hr; cbn [negb]; [| eauto].
  destruct (match momentum with
            | Some m => negb (Qle_bool 0 m)
            | None => false
            end); [eauto |].
  destruct (Qle_bool 0 weight_decay) eqn:Hw; cbn [negb]; [| eauto].
  destruct (Nat.eqb_spec n 0) as [Hn | Hn]; [eauto |].
  exfalso. apply Qle_bool_iff in Hr, Hw.
  destruct H as [H | [H | H]];
    [apply (Qlt_not_le _ _ H Hr) | apply (Qlt_not_le _ _ H Hw)
     | contradiction].
Qed.

Section WithModule.

Context {Images : Type}.

(** C7, as the code has it.  The optimizer name is read without regard
    to case, and the optimizer is built by the constructor of
    [torch.optim], which checks its arguments.  With a learning rate and a
    weight decay that are not negative and a model that has a parameter,
    the configuration returns an Adam optimizer with the configured
    learning rate and weight decay when the lower-case name is [adam], and
    an SGD optimizer with momentum 0.9 when it is [sgd].  In every other
    case (any other name, AdamW among them; a negative learning rate or
    weight decay; a model without parameters) it raises a [ValueError], and
    it raises nothing else. *)
Theorem configure_optimizers_adam_or_sgd (self : LightningModule Images) :
  (lower (optim self) = "adam" ->
   (0 <= lr self)%Q -> (0 <= lmbda self)%Q ->
   n_parameters (model self) <> 0%nat ->
   configure_optimizers self
   = inr {| opt_class := Adam;
            opt_lr := lr self;
            opt_momentum := None;
            opt_weight_decay := lmbda self |}) /\
  (lower (optim self) = "sgd" ->
   (0 <= lr self)%Q -> (0 <= lmbda self)%Q ->
   n_parameters (model self) <> 0%nat ->
   configure_optimizers self
   = inr {| opt_class := SGD;
            opt_lr := lr self;
            opt_momentum := Some (9 # 10)%Q;
            opt_weight_decay := lmbda self |}) /\
  ((lower (optim self) <> "adam" /\ lower (optim self) <> "sgd") \/
   (lr self < 0)%Q \/ (lmbda self < 0)%Q \/
   n_parameters (model self) = 0%nat ->
   exists msg : string,
     configure_optimizers self = inl (Py.ValueError msg)) /\
  (forall e : Py.Exception,
      configure_optimizers self = inl e ->
      (exists msg : string, e = Py.ValueError msg) /\
      ((lower (optim self) <> "adam" /\ lower (optim self) <> "sgd") \/
       (lr self < 0)%Q \/ (lmbda self < 0)%Q \/
       n_parameters (model self) = 0%nat)).
Proof.
  unfold configure_optimizers.
  destruct (String.eqb_spec (lower (optim self)) "adam") as [Ha | Ha].
  - rewrite <- capitalize_lower, Ha.
    change (torch_optim_getattr (capitalize "adam")) with (Some Adam).
    split; [intros _; now apply new_optimizer_returns |].
    split; [intros Hs; discriminate Hs |]. split.
    + intros [[H _] | H]; [now elim H | now apply new_optimizer_refuses].
    + intros e He.
      destruct (new_optimizer_raises Adam _ _ None _ e I He)
        as [Hmsg Hwhy].
      split; [exact Hmsg | right; exact Hwhy].
  - destruct (String.eqb_spec (lower (optim self)) "sgd") as [Hs | Hs].
    + rewrite <- upper_lower, Hs.
      change (torch_optim_getattr (upper "sgd")) with (Some SGD).
      split; [intros H; now elim Ha |].
      split; [intros _; now apply new_optimizer_returns |]. split.
      * intros [[_ H] | H]; [now elim H | now apply new_optimizer_refuses].
      * intros e He.
        destruct (new_optimizer_raises SGD _ _ (Some (9 # 10)%Q) _ e
                    eq_refl He) as [Hmsg Hwhy].
        split; [exact Hmsg | right; exact Hwhy].
    + split; [congruence |]. split; [congruence |]. split.
      * intros _. eexists. reflexivity.
      * intros e He. injection He as <-.
        split; [eexists; reflexivity | left; split; assumption].
Qed.

End WithModule.

(** The configuration for the name [ADAM]. *)
Lemma configure_optimizers_adam_or_sgd_witness :
  configure_optimizers (Demo.with_optim "ADAM")
  = inr {| opt_class := Adam;
           opt_lr := (1 # 1000)%Q;
           opt_momentum := None;
           opt_weight_decay := (1 # 100)%Q |}.
Proof.
  apply (configure_optimizers_adam_or_sgd (Demo.with_optim "ADAM")).
  - reflexivity.
  - discriminate.
  - discriminate.
  - discriminate.
Defined.

(** The name [AdamW], one of the three the command line accepts, is
    refused; the name [adam], which is none of the three, is accepted. *)
Lemma configure_optimizers_refuses_AdamW :
  (exists msg : string,
      configure_optimizers (Demo.with_optim "AdamW")
      = inl (Py.ValueError msg)) /\
  (exists optimizer : Optimizer,
      configure_optimizers (Demo.with_optim "adam") = inr optimizer /\
      opt_class optimizer = Adam).
Proof.
  split; eexists; [reflexivity | split; reflexivity].
Qed.

End Optimizers.

(** *** The driver: format dispatch and the fold loop *)

Module Driver.

Import Py Main RunSpec.

(** A loop whose body always ends in [break] runs its body once. *)
Lemma for_each_breaks {A S : Type} (body : A -> S -> Result (S * control))
  (x : A) (rest : list A) (s : S) :
  (forall s' c, body x s = inr (s', c) -> c = Break) ->
  for_each body (x :: rest) s = for_each body [x] s.
Proof.
  intros Hb. simpl. destruct (body x s) as [e | [s' c]] eqn:Hx.
  - reflexivity.
  - rewrite (Hb s' c eq_refl). reflexivity.
Qed.

Lemma take_in_range (objects idx : list nat) :
  Forall (fun i => (i < length objects)%nat) idx ->
  exists taken : list nat, Numpy.take objects idx = inr taken.
Proof.
  intros H. unfold Numpy.take.
  destruct (PyFacts.mapM_total (nth_error objects) idx) as [r Hr].
  - eapply Forall_impl; [| exact H]. intros i Hi. cbv beta in Hi |- *.
    destruct (nth_error objects i) as [o |] eqn:Ho; [eauto |].
    apply nth_error_None in Ho. lia.
  - rewrite Hr. eauto.
Qed.

#[local] Arguments fold_body : simpl never.

Section WithCollaborators.

Context {FeatureDataset Triplets TripletDataset Zipped Probe : Type}.
Context {Performance Weights Bias : Type}.

Variable C :
  Collaborators FeatureDataset Triplets TripletDataset Zipped Probe
    Performance Weights Bias.

(** What a pass of the loop body leaves behind when it does not raise:
    it ends in [break], and the state holds one more entry of metrics, one
    more array of choices, and a probe fitted from the features the loop
    was given. *)
Lemma fold_body_returns (features : Numpy.Array2) (triplets : Triplets)
  (train_features val_features : FeatureDataset)
  (callbacks : list Callback) (objects : list nat) (optim_cfg : OptimCfg)
  (n_objects : nat) (device : string) (num_processes : Z)
  (k : nat) (fold : list nat * list nat)
  (st st' : LoopState Probe Performance) (c : control) :
  fold_body C features triplets train_features val_features callbacks
    objects optim_cfg n_objects device num_processes (k, fold) st
  = inr (st', c) ->
  c = Break /\
  exists (trainer : Trainer) (train_batches val_batches : Zipped)
         (loader : DataLoader TripletDataset),
    let probe :=
      fit C trainer (GlocalFeatureProbe C features optim_cfg)
        train_batches val_batches in
    predict C trainer probe loader <> [] /\
    st' = {| cv_results :=
               dict_set (fold_key k) (test C trainer probe val_batches)
                 (cv_results st);
             ooo_choices :=
               ooo_choices st ++ [concat (predict C trainer probe loader)];
             glocal_probe := Some probe |}.
Proof.
  destruct fold as [train_idx test_idx]. unfold fold_body.
  destruct (Numpy.take objects train_idx) as [e | train_objects];
    [discriminate |].
  unfold try at 1. cbv zeta.
  match goal with
  | |- try (torch_cat (predict C ?t ?p ?l)) _ = _ -> _ =>
      destruct (predict C t p l) as [| b bs] eqn:Hp
  end; [discriminate |].
  simpl. intros H. injection H as <- <-. split; [reflexivity |].
  do 4 eexists. split.
  - rewrite Hp. discriminate.
  - rewrite Hp. reflexivity.
Qed.

Lemma fold_body_breaks (features : Numpy.Array2) (triplets : Triplets)
  (train_features val_features : FeatureDataset)
  (callbacks : list Callback) (objects : list nat) (optim_cfg : OptimCfg)
  (n_objects : nat) (device : string) (num_processes : Z)
  (item : nat * (list nat * list nat))
  (st st' : LoopState Probe Performance) (c : control) :
  fold_body C features triplets train_features val_features callbacks
    objects optim_cfg n_objects device num_processes item st
  = inr (st', c) ->
  c = Break.
Proof.
  destruct item as [k fold]. intros H.
  now apply fold_body_returns in H.
Qed.

Lemma fold_body_total (features : Numpy.Array2) (triplets : Triplets)
  (train_features val_features : FeatureDataset)
  (callbacks : list Callback) (objects : list nat) (optim_cfg : OptimCfg)
  (n_objects : nat) (device : string) (num_processes : Z)
  (k : nat) (fold : list nat * list nat)
  (st : LoopState Probe Performance) :
  predict_covers C ->
  Forall (fun i => (i < length objects)%nat) (fst fold) ->
  exists st' : LoopState Probe Performance,
    fold_body C features triplets train_features val_features callbacks
      objects optim_cfg n_objects device num_processes (k, fold) st
    = inr (st', Break).
Proof.
  intros Hp Hidx. destruct fold as [train_idx test_idx]. unfold fold_body.
  destruct (take_in_range objects train_idx Hidx) as [taken Ht].
  rewrite Ht. unfold try at 1. cbv zeta.
  match goal with
  | |- exists _, try (torch_cat (predict C ?t ?p ?l)) _ = _ =>
      pose proof (Hp t p l) as Hne;
      destruct (predict C t p l) as [| b bs]
  end; [now elim Hne |].
  simpl. eexists. reflexivity.
Qed.

Section OneRun.

Variable features : Numpy.Array2.
Variables imagenet_features_root data_root : string.
Variable optim_cfg : OptimCfg.
Variable n_objects : nat.
Variable device : string.
Variables rnd_seed num_processes : Z.

(** C6.  A feature-storage format [hdf5], the default of the command
    line and one of the two the error message names, takes the error
    branch of [run]: the test for the HDF5 backend compares with [hdf].
    The formats [hdf] and [pt] build their datasets. *)
Theorem run_rejects_hdf5 :
  (exists msg : string,
      run C features imagenet_features_root data_root optim_cfg
        n_objects device rnd_seed num_processes "hdf5"
      = inl (ValueError msg)) /\
  feature_datasets C imagenet_features_root device "hdf5"
  = inl (ValueError
           "Can only create dataset for features that were saved in either 'pt' or 'hdf5' format.") /\
  feature_datasets C imagenet_features_root device "hdf"
  = inr (FeaturesHDF5 C imagenet_features_root "train_set" device,
         FeaturesHDF5 C imagenet_features_root "val" device) /\
  feature_datasets C imagenet_features_root device "pt"
  = inr (FeaturesPT C imagenet_features_root "train_set" device,
         FeaturesPT C imagenet_features_root "val" device).
Proof.
  repeat split. eexists. reflexivity.
Qed.

(** What [run] returned, read back: the state the first pass of the
    loop body left. *)
Lemma run_returned (features_type : string) (choices : list Z)
  (cv : list (string * Performance))
  (transformation : Transformation Weights Bias) :
  run C features imagenet_features_root data_root optim_cfg n_objects
    device rnd_seed num_processes features_type
  = inr (choices, cv, transformation) ->
  exists (train_features val_features : FeatureDataset)
         (first : list nat * list nat) (rest : list (list nat * list nat))
         (st : LoopState Probe Performance) (probe : Probe),
    feature_datasets C imagenet_features_root device features_type
    = inr (train_features, val_features) /\
    kfold_split C 4 rnd_seed true (Numpy.arange n_objects)
    = inr (first :: rest) /\
    fold_body C (normalized features) (load_triplets C data_root)
      train_features val_features (get_callbacks optim_cfg 20)
      (Numpy.arange n_objects) optim_cfg n_objects device num_processes
      (1%nat, first)
      {| cv_results := []; ooo_choices := []; glocal_probe := None |}
    = inr (st, Break) /\
    glocal_probe st = Some probe /\
    cv = cv_results st /\
    choices = concat (ooo_choices st) /\
    transformation
    = {| weights := transform_w C probe;
         bias := if cfg_use_bias optim_cfg
                 then Some (transform_b C probe) else None |}.
Proof.
  unfold run.
  destruct (feature_datasets C imagenet_features_root device
              features_type) as [e | [trainF valF]] eqn:Hf;
    [discriminate |].
  unfold try at 1.
  destruct (kfold_split C 4 rnd_seed true (Numpy.arange n_objects))
    as [e | folds] eqn:Hk; [discriminate |].
  unfold try at 1. fold (normalized features).
  destruct folds as [| first rest]; [discriminate |].
  change (enumerate 1 (first :: rest))
    with ((1%nat, first) :: enumerate 2 rest).
  rewrite for_each_breaks by (intros s' c; apply fold_body_breaks).
  simpl for_each.
  match goal with
  | |- try (match ?b with _ => _ end) _ = _ -> _ =>
      destruct b as [e | [st c]] eqn:Hb
  end; [discriminate |].
  pose proof Hb as Hbr. apply fold_body_returns in Hbr.
  destruct Hbr as [-> _].
  unfold try at 1.
  destruct (glocal_probe st) as [probe |] eqn:Hprobe; [| discriminate].
  destruct (ooo_choices st) as [| o os] eqn:Hooo; [discriminate |].
  simpl. intros H. injection H as <- <- <-.
  exists trainF, valF, first, rest, st, probe.
  rewrite Hooo. repeat split; assumption.
Qed.

(** C8.  Whatever the configuration, when [run] returns it has run the
    body of the fold loop once, on the first fold of the split: the
    metrics it returns have the single entry [fold_01], and the choices
    and the transformation are those of the probe fitted in that pass.
    It does return, in this way, for a format that [run] accepts, at
    least four objects and well-behaved collaborators, although the
    split then has four folds.  In every case [run] does what it would do
    if the split had stopped after its first fold. *)
Theorem run_stops_after_first_fold (features_type : string) :
  (forall (choices : list Z) (cv : list (string * Performance))
          (transformation : Transformation Weights Bias),
      run C features imagenet_features_root data_root optim_cfg
        n_objects device rnd_seed num_processes features_type
      = inr (choices, cv, transformation) ->
      exists (first : list nat * list nat)
             (rest : list (list nat * list nat))
             (trainer : Trainer) (train_batches val_batches : Zipped)
             (loader : DataLoader TripletDataset),
        let probe :=
          fit C trainer (GlocalFeatureProbe C (normalized features) optim_cfg)
            train_batches val_batches in
        kfold_split C 4 rnd_seed true (Numpy.arange n_objects)
        = inr (first :: rest) /\
        cv = [("fold_01"%string, test C trainer probe val_batches)] /\
        length cv = 1%nat /\
        choices = concat (predict C trainer probe loader) /\
        weights transformation = transform_w C probe) /\
  (well_behaved C ->
   features_type = "hdf"%string \/ features_type = "pt"%string ->
   (4 <= n_objects)%nat ->
   exists (choices : list Z) (perf : Performance)
          (transformation : Transformation Weights Bias)
          (folds : list (list nat * list nat)),
     kfold_split C 4 rnd_seed true (Numpy.arange n_objects) = inr folds /\
     length folds = 4%nat /\
     run C features imagenet_features_root data_root optim_cfg
       n_objects device rnd_seed num_processes features_type
     = inr (choices, [("fold_01"%string, perf)], transformation)) /\
  run C features imagenet_features_root data_root optim_cfg n_objects
    device rnd_seed num_processes features_type
  = run (first_fold_only C) features imagenet_features_root data_root
      optim_cfg n_objects device rnd_seed num_processes features_type.
Proof.
  split; [| split].
  - intros choices cv transformation Hrun.
    destruct (run_returned _ _ _ _ Hrun)
      as [trainF [valF [first [rest [st [probe
           [Hf [Hk [Hb [Hp [Hcv [Hch Htr]]]]]]]]]]]].
    apply fold_body_returns in Hb.
    destruct Hb as [_ [trainer [tb [vb [loader [Hne Hst]]]]]].
    exists first, rest, trainer, tb, vb, loader. cbv zeta.
    subst st. simpl in Hp, Hcv, Hch. injection Hp as <-.
    rewrite app_nil_r in Hch.
    subst cv choices transformation. repeat split. exact Hk.
  - intros [Hsplit Hpred] Hfmt Hn.
  destruct (Hsplit 4%nat rnd_seed true (Numpy.arange n_objects))
    as [folds [Hk [Hlen Hidx]]].
  { unfold Numpy.arange. rewrite length_seq. lia. }
  destruct folds as [| first rest]; [discriminate |].
  inversion Hidx as [| ? ? Hfirst _]; subst.
  assert (Hds : exists train_features val_features,
             feature_datasets C imagenet_features_root device features_type
             = inr (train_features, val_features)).
  { unfold feature_datasets. destruct Hfmt as [-> | ->]; simpl; eauto. }
  destruct Hds as [trainF [valF Hds]].
  destruct (fold_body_total (normalized features) (load_triplets C data_root)
              trainF valF (get_callbacks optim_cfg 20)
              (Numpy.arange n_objects) optim_cfg n_objects device
              num_processes 1%nat first
              {| cv_results := []; ooo_choices := []; glocal_probe := None |}
              Hpred Hfirst)
    as [st Hb].
  pose proof Hb as Hbr. apply fold_body_returns in Hbr.
  destruct Hbr as [_ [trainer [tb [vb [loader [Hne Hst]]]]]].
  cbv zeta in Hst. simpl in Hst.
  set (probe :=
         fit C trainer (GlocalFeatureProbe C (normalized features) optim_cfg)
           tb vb) in *.
  exists (concat (predict C trainer probe loader)),
    (test C trainer probe vb),
    {| weights := transform_w C probe;
       bias := if cfg_use_bias optim_cfg
               then Some (transform_b C probe) else None |},
    (first :: rest).
  split; [exact Hk |]. split; [exact Hlen |].
  unfold run. rewrite Hds. unfold try at 1. rewrite Hk. unfold try at 1.
  fold (normalized features).
  change (enumerate 1 (first :: rest))
    with ((1%nat, first) :: enumerate 2 rest).
  rewrite for_each_breaks by (intros s' c; apply fold_body_breaks).
  simpl for_each. rewrite Hb. unfold try at 1.
  rewrite Hst. simpl. rewrite app_nil_r. reflexivity.
- unfold run.
  change (feature_datasets (first_fold_only C)) with (feature_datasets C).
  destruct (feature_datasets C imagenet_features_root device features_type)
    as [e | [trainF valF]]; [reflexivity |].
  unfold try at 1 3.
  change (kfold_split (first_fold_only C) 4 rnd_seed true
            (Numpy.arange n_objects))
    with (match kfold_split C 4 rnd_seed true (Numpy.arange n_objects) with
          | inl e => inl e
          | inr folds => inr (firstn 1 folds)
          end).
  destruct (kfold_split C 4 rnd_seed true (Numpy.arange n_objects))
    as [e | [| first rest]]; [reflexivity | reflexivity |].
  unfold try at 1 3.
  change (enumerate 1 (first :: rest))
    with ((1%nat, first) :: enumerate 2 rest).
  rewrite for_each_breaks by (intros s' c; apply fold_body_breaks).
  reflexivity.
Qed.

End OneRun.

End WithCollaborators.

End Driver.

(** The demo collaborators are well behaved. *)
Lemma demo_well_behaved : RunSpec.well_behaved DemoRun.collaborators.
Proof.
  split.
  - intros n seed shuffled objects [H2 Hn]. simpl. unfold DemoRun.split.
    assert (Hc : ((2 <=? n) && (n <=? length objects))%nat = true).
    { apply andb_true_iff. split; now apply Nat.leb_le. }
    rewrite Hc. eexists. split; [reflexivity |].
    split; [now rewrite length_map, length_seq |].
    apply Forall_map, Forall_forall. intros j _. simpl.
    apply Forall_forall. intros i Hi.
    apply filter_In in Hi. destruct Hi as [Hi _].
    apply in_seq in Hi. lia.
  - intros trainer probe loader. discriminate.
Qed.

(** The driver on eight objects with features stored as [pt]. *)
Lemma run_stops_after_first_fold_witness :
  exists (choices : list Z) (perf : string)
         (transformation : Main.Transformation nat nat)
         (folds : list (list nat * list nat)),
    Main.kfold_split DemoRun.collaborators 4 42 true (Numpy.arange 8)
    = inr folds /\
    length folds = 4%nat /\
    Main.run DemoRun.collaborators DemoRun.features "features" "things"
      DemoRun.optim_cfg 8 "cpu" 42 4 "pt"
    = inr (choices, [("fold_01"%string, perf)], transformation).
Proof.
  apply (proj1 (proj2 (Driver.run_stops_after_first_fold
                         DemoRun.collaborators DemoRun.features "features"
                         "things" DemoRun.optim_cfg 8 "cpu" 42 4 "pt"))).
  - exact demo_well_behaved.
  - right. reflexivity.
  - lia.
Defined.

(** *** Feature normalization *)

Module Normalization.

Import Numpy.
Local Open Scope R_scope.

Lemma rsum_map_affine (m s : R) (l : list R) :
  rsum (map (fun x => (x - m) / s) l) = (rsum l - INR (length l) * m) / s.
Proof.
  induction l as [| x l IH].
  - simpl. unfold Rdiv. ring.
  - change (rsum (map (fun x => (x - m) / s) (x :: l)))
      with ((x - m) / s + rsum (map (fun x => (x - m) / s) l)).
    rewrite IH. change (rsum (x :: l)) with (x + rsum l).
    change (length (x :: l)) with (S (length l)). rewrite S_INR.
    unfold Rdiv. ring.
Qed.

Lemma rsum_cons (x : R) (l : list R) : rsum (x :: l) = x + rsum l.
Proof. reflexivity. Qed.

Lemma rsum_map_scale (c : R) (h : R -> R) (l : list R) :
  rsum (map (fun x => c * h x) l) = c * rsum (map h l).
Proof.
  induction l as [| x l IH]; cbn [map].
  - unfold rsum. simpl. ring.
  - rewrite !rsum_cons, IH. ring.
Qed.

Lemma rsum_squares_nonneg (m : R) (l : list R) :
  0 <= rsum (map (fun x => (x - m) ^ 2) l).
Proof.
  induction l as [| x l IH]; cbn [map].
  - unfold rsum. simpl. Lra.lra.
  - rewrite rsum_cons. pose proof (pow2_ge_0 (x - m)) as H. Lra.lra.
Qed.

Lemma rsum_squares_zero (m : R) (l : list R) :
  rsum (map (fun x => (x - m) ^ 2) l) = 0 -> Forall (fun x => x = m) l.
Proof.
  induction l as [| x l IH]; cbn [map]; intros H.
  - constructor.
  - rewrite rsum_cons in H.
    pose proof (pow2_ge_0 (x - m)) as Hx.
    pose proof (rsum_squares_nonneg m l) as Hl.
    assert (H0 : (x - m) ^ 2 = 0) by Lra.lra.
    simpl in H0.
    constructor.
    + apply Rmult_integral in H0. destruct H0 as [H0 | H0]; Lra.lra.
    + apply IH. Lra.lra.
Qed.

(** The mean squared deviation of an array whose entries are not all
    equal is positive. *)
Lemma variance_positive (a : Array2) :
  (exists x y : R, In x (concat a) /\ In y (concat a) /\ x <> y) ->
  0 < rsum (map (fun x => (x - mean a) ^ 2) (concat a))
      / INR (length (concat a)).
Proof.
  intros [x [y [Hx [Hy Hxy]]]].
  assert (Hn : 0 < INR (length (concat a))).
  { apply lt_0_INR. destruct (concat a); [inversion Hx | simpl; lia]. }
  apply Rdiv_lt_0_compat; [| exact Hn].
  destruct (rsum_squares_nonneg (mean a) (concat a)) as [Hpos | Hzero];
    [exact Hpos |].
  exfalso. symmetry in Hzero. apply rsum_squares_zero in Hzero.
  rewrite Forall_forall in Hzero.
  apply Hxy. rewrite (Hzero x Hx), (Hzero y Hy). reflexivity.
Qed.

Lemma concat_sub_div (a : Array2) (m s : R) :
  concat (sub_div a m s) = map (fun x => (x - m) / s) (concat a).
Proof. unfold sub_div. symmetry. apply concat_map. Qed.

(** Subtracting the mean of an array centres it, whatever the divisor. *)
Lemma mean_sub_div (a : Array2) (s : R) :
  concat a <> [] -> mean (sub_div a (mean a) s) = 0.
Proof.
  intros Hne. unfold mean at 1.
  rewrite concat_sub_div, rsum_map_affine, length_map.
  assert (Hn : INR (length (concat a)) <> 0).
  { apply not_0_INR. destruct (concat a); [now elim Hne | discriminate]. }
  unfold mean.
  replace (rsum (concat a)
           - INR (length (concat a))
             * (rsum (concat a) / INR (length (concat a))))
    with 0 by (field; exact Hn).
  unfold Rdiv. ring.
Qed.

(** Dividing a centred array by its standard deviation gives it standard
    deviation 1. *)
Lemma std_sub_div (a : Array2) :
  (exists x y : R, In x (concat a) /\ In y (concat a) /\ x <> y) ->
  std (sub_div a (mean a) (std a)) = 1.
Proof.
  intros Hvar. pose proof (variance_positive a Hvar) as Hv.
  assert (Hne : concat a <> []).
  { destruct Hvar as [x [_ [Hx _]]]. intros H. rewrite H in Hx.
    inversion Hx. }
  assert (Hn : INR (length (concat a)) <> 0).
  { apply not_0_INR. destruct (concat a); [now elim Hne | discriminate]. }
  unfold std at 1. rewrite (mean_sub_div a (std a) Hne).
  rewrite concat_sub_div, map_map, length_map.
  set (V := rsum (map (fun x => (x - mean a) ^ 2) (concat a))
            / INR (length (concat a))) in *.
  assert (Hs : std a * std a = V).
  { unfold std. fold V. apply sqrt_sqrt. Lra.lra. }
  assert (Hs0 : std a <> 0).
  { intros H0. rewrite H0 in Hs. Lra.lra. }
  rewrite (map_ext _ (fun x => / (std a * std a) * (x - mean a) ^ 2)).
  2: { intros x. field. exact Hs0. }
  rewrite (rsum_map_scale (/ (std a * std a))
             (fun x => (x - mean a) ^ 2)).
  rewrite Hs.
  replace (/ V * rsum (map (fun x => (x - mean a) ^ 2) (concat a))
           / INR (length (concat a)))
    with (/ V * V) by (unfold V, Rdiv; ring).
  rewrite Rinv_l by Lra.lra. apply sqrt_1.
Qed.

(** C9.  [run] normalizes the feature matrix once, before the fold loop,
    with the mean and the standard deviation of all its entries.  When the
    entries are not all equal, the normalized matrix has mean 0 and standard
    deviation 1, and it is the matrix the probe of the fold that [run]
    executes is built and fitted from. *)
Theorem normalization_standardizes (features : Array2)
  (Hvar : exists x y : R,
      In x (concat features) /\ In y (concat features) /\ x <> y) :
  mean (RunSpec.normalized features) = 0 /\
  std (RunSpec.normalized features) = 1 /\
  forall (FeatureDataset Triplets TripletDataset Zipped Probe : Type)
         (Performance Weights Bias : Type)
         (C : Main.Collaborators FeatureDataset Triplets TripletDataset
                Zipped Probe Performance Weights Bias)
         (imagenet_features_root data_root : string)
         (optim_cfg : Main.OptimCfg) (n_objects : nat) (device : string)
         (rnd_seed num_processes : Z) (features_type : string)
         (choices : list Z) (cv : list (string * Performance))
         (transformation : Main.Transformation Weights Bias),
    Main.run C features imagenet_features_root data_root optim_cfg
      n_objects device rnd_seed num_processes features_type
    = inr (choices, cv, transformation) ->
    exists (trainer : Main.Trainer) (train_batches val_batches : Zipped),
      Main.weights transformation
      = Main.transform_w C
          (Main.fit C trainer
             (Main.GlocalFeatureProbe C (RunSpec.normalized features)
                optim_cfg)
             train_batches val_batches).
Proof.
  unfold RunSpec.normalized at 1 2.
  assert (Hne : concat features <> []).
  { destruct Hvar as [x [_ [Hx _]]]. intros H. rewrite H in Hx.
    inversion Hx. }
  split; [now apply mean_sub_div |].
  split; [now apply std_sub_div |].
  intros FD T TD Zp P Perf W B C root data_root cfg n device seed np ft
    choices cv tr Hrun.
  destruct (Driver.run_returned C _ _ _ _ _ _ _ _ _ _ _ _ Hrun)
    as [trainF [valF [first [rest [st [probe
         [Hf [Hk [Hb [Hp [Hcv [Hch Htr]]]]]]]]]]]].
  apply Driver.fold_body_returns in Hb.
  destruct Hb as [_ [trainer [tb [vb [loader [_ Hst]]]]]].
  exists trainer, tb, vb. subst st. simpl in Hp. injection Hp as <-.
  subst tr. reflexivity.
Qed.

(** The matrix of the two entries 0 and 2 is normalized to mean 0 and
    standard deviation 1. *)
Lemma normalization_standardizes_witness :
  mean (RunSpec.normalized DemoRun.features) = 0 /\
  std (RunSpec.normalized DemoRun.features) = 1.
Proof.
  destruct (normalization_standardizes DemoRun.features) as [Hm [Hs _]].
  - exists 0, 2. simpl. repeat split; [auto | auto | Lra.lra].
  - split; assumption.
Defined.

End Normalization.

(** ** Part III: further properties of the code *)

(** *** [unbind] against [torch.cat] *)

Module UnbindFacts.

Import Torch FromScratch.

(** X1.  [unbind] undoes a concatenation along the first axis: whenever it
    returns on a tensor, the three batches it returns have one size, hold
    no empty row and concatenate back to the tensor. *)
Theorem unbind_splits_in_three (e anchor positive negative : Matrix)
  (H : unbind (Some e) = Some (anchor, positive, negative)) :
  e = anchor ++ positive ++ negative /\
  length anchor = length positive /\
  length positive = length negative /\
  Forall (fun row => row <> []) e.
Proof.
  unfold unbind, Py.bind in H. cbv zeta in H.
  destruct (existsb (fun row : list Q => (length row =? 0)%nat) e) eqn:Hz;
    [discriminate |].
  destruct (length e mod 3 =? 0)%nat eqn:Hm; [| discriminate].
  apply Nat.eqb_eq in Hm.
  pose proof (Nat.div_mod_eq (length e) 3) as Hdiv.
  set (bs := (length e / 3)%nat) in *.
  injection H as <- <- <-.
  rewrite !length_firstn, !length_skipn.
  split; [| split; [lia | split; [lia |]]].
  - change (2 * bs)%nat with (bs + (bs + 0))%nat. rewrite Nat.add_0_r.
    rewrite <- skipn_skipn, !firstn_skipn. reflexivity.
  - apply Forall_forall. intros row Hin ->.
    assert (Hex : existsb (fun row : list Q => (length row =? 0)%nat) e
                  = true)
      by (apply existsb_exists; exists []; split; [exact Hin | reflexivity]).
    congruence.
Qed.

(** The split of six rows. *)
Lemma unbind_splits_in_three_witness :
  [[1]; [2]; [3]; [4]; [5]; [6]]%Q
  = [[1]; [2]]%Q ++ [[3]; [4]]%Q ++ [[5]; [6]]%Q /\
  length [[1]; [2]]%Q = length [[3]; [4]]%Q.
Proof.
  destruct (unbind_splits_in_three [[1]; [2]; [3]; [4]; [5]; [6]]%Q
              [[1]; [2]]%Q [[3]; [4]]%Q [[5]; [6]]%Q eq_refl)
    as [He [Hl _]].
  split; assumption.
Defined.

Lemma firstn_app_exact {A : Type} (l1 l2 : list A) :
  firstn (length l1) (l1 ++ l2) = l1.
Proof.
  rewrite firstn_app, firstn_all, Nat.sub_diag, firstn_O. apply app_nil_r.
Qed.

Lemma skipn_app_exact {A : Type} (l1 l2 : list A) :
  skipn (length l1) (l1 ++ l2) = l2.
Proof.
  rewrite skipn_app, skipn_all, Nat.sub_diag, skipn_O. reflexivity.
Qed.

Lemma thirds_of_app {A : Type} (a p n : list A) :
  length a = length p -> length p = length n ->
  length (a ++ p ++ n) mod 3 = 0%nat /\
  (length (a ++ p ++ n) / 3)%nat = length a /\
  firstn (length a) (a ++ p ++ n) = a /\
  firstn (length a) (skipn (length a) (a ++ p ++ n)) = p /\
  skipn (2 * length a) (a ++ p ++ n) = n.
Proof.
  intros Hp Hn.
  assert (Hlen : length (a ++ p ++ n) = (length a * 3)%nat)
    by (rewrite !length_app; lia).
  rewrite Hlen, Nat.Div0.mod_mul, Nat.div_mul by discriminate.
  repeat split.
  - apply firstn_app_exact.
  - rewrite skipn_app_exact, Hp. apply firstn_app_exact.
  - change (2 * length a)%nat with (length a + (length a + 0))%nat.
    rewrite Nat.add_0_r, <- skipn_skipn, skipn_app_exact, Hp.
    apply skipn_app_exact.
Qed.

(** X2.  [unbind] returns the three batches that were concatenated: on
    [anchor ++ positive ++ negative], for three batches of one size without
    empty rows, it returns [anchor], [positive] and [negative]. *)
Theorem unbind_of_cat (anchor positive negative : Matrix)
  (Hp : length anchor = length positive)
  (Hn : length positive = length negative)
  (Hrows : Forall (fun row => row <> []) (anchor ++ positive ++ negative)) :
  unbind (Some (anchor ++ positive ++ negative))
  = Some (anchor, positive, negative).
Proof.
  unfold unbind, Py.bind. cbv zeta.
  assert (Hz : existsb (fun row : list Q => (length row =? 0)%nat)
                 (anchor ++ positive ++ negative) = false).
  { apply not_true_is_false. intros H. apply existsb_exists in H.
    destruct H as [row [Hin Hrow]]. rewrite Forall_forall in Hrows.
    apply Nat.eqb_eq in Hrow. apply (Hrows row Hin).
    now destruct row. }
  rewrite Hz.
  destruct (thirds_of_app anchor positive negative Hp Hn)
    as [Hm [Hd [H1 [H2 H3]]]].
  rewrite Hm, Hd. simpl Nat.eqb. cbv iota.
  rewrite H1, H2, H3. reflexivity.
Qed.

(** The three batches of a concatenation of six rows. *)
Lemma unbind_of_cat_witness :
  unbind (Some ([[1]; [2]]%Q ++ [[3]; [4]]%Q ++ [[5]; [6]]%Q))
  = Some ([[1]; [2]]%Q, [[3]; [4]]%Q, [[5]; [6]]%Q).
Proof.
  apply unbind_of_cat; try reflexivity.
  repeat constructor; discriminate.
Defined.

End UnbindFacts.

(** *** [convert_predictions] *)

Module ConvertFacts.

Import Torch FromScratch.

Lemma convert_predictions_cons (p : Z) (preds : list Z) :
  convert_predictions (p :: preds)
  = convert_predictions [p] ++ convert_predictions preds.
Proof. reflexivity. Qed.

Lemma nth_map_lt {A B : Type} (f : A -> B) (l : list A) (k : nat)
  (d : A) (d' : B) :
  (k < length l)%nat -> nth k (map f l) d' = f (nth k l d).
Proof.
  intros Hk. rewrite (nth_indep _ d' (f d)) by (now rewrite length_map).
  apply map_nth.
Qed.

Lemma wrap64_range (z : Z) : (- 2 ^ 63 <= wrap64 z < 2 ^ 63)%Z.
Proof.
  unfold wrap64.
  pose proof (Z.mod_pos_bound (z + 2 ^ 63) (2 ^ 64) ltac:(lia)). lia.
Qed.

(** X3.  On pairing positions the conversion is its own inverse: converting
    the odd-one-out choices again gives back the positions of the closest
    pairs. *)
Theorem convert_predictions_involutive (sim_predictions : list Z)
  (H : Forall (fun p => (0 <= p <= 2)%Z) sim_predictions) :
  convert_predictions (convert_predictions sim_predictions) = sim_predictions.
Proof.
  unfold convert_predictions. rewrite !map_map.
  rewrite <- (map_id sim_predictions) at 2.
  apply map_ext_in. intros p Hin.
  rewrite Forall_forall in H. specialize (H p Hin).
  assert (Hc : (p = 0 \/ p = 1 \/ p = 2)%Z) by lia.
  destruct Hc as [-> | [-> | ->]]; reflexivity.
Qed.

(** Twice converted, the positions 0, 1, 2, 2 are back. *)
Lemma convert_predictions_involutive_witness :
  convert_predictions (convert_predictions [0; 1; 2; 2]%Z) = [0; 1; 2; 2]%Z.
Proof.
  apply convert_predictions_involutive. repeat constructor; lia.
Defined.

(** X4.  Whatever int64 tensor it is given, [convert_predictions] returns
    a tensor of the same length without a negative entry; the sentinel -1 in
    particular comes out as 2. *)
Theorem convert_predictions_not_negative (sim_predictions : list Z) :
  length (convert_predictions sim_predictions) = length sim_predictions /\
  Forall (fun p => (0 <= p < 2 ^ 63)%Z)
    (convert_predictions sim_predictions) /\
  (forall k : nat,
      nth k sim_predictions 0%Z = (-1)%Z ->
      nth k (convert_predictions sim_predictions) 0%Z = 2%Z).
Proof.
  split; [| split].
  - unfold convert_predictions. now rewrite !length_map.
  - unfold convert_predictions. rewrite map_map. apply Forall_map.
    apply Forall_forall. intros p _.
    destruct (Z.eqb_spec p 1) as [-> | Hp]; [simpl; lia |].
    pose proof (wrap64_range (p - 2)) as Hw.
    destruct (Z.ltb_spec (wrap64 (p - 2)) 0); lia.
  - intros k Hk. unfold convert_predictions.
    destruct (Nat.lt_ge_cases k (length sim_predictions)) as [Hlt | Hge].
    + rewrite (nth_map_lt _ _ k 0%Z) by (now rewrite length_map).
      rewrite (nth_map_lt _ _ k 0%Z) by exact Hlt.
      rewrite Hk. reflexivity.
    + rewrite nth_overflow in Hk by exact Hge. discriminate.
Qed.

End ConvertFacts.

(** *** More on tie breaking *)

Module TieBreakFacts.

Import Torch FromScratch Spec TorchFacts TieBreak.
Local Open Scope Q_scope.

Lemma mapM_None {A B : Type} (f : A -> option B) (l : list A) :
  Py.mapM f l = None <-> Exists (fun x => f x = None) l.
Proof.
  induction l as [| x l IH]; simpl.
  - split; [discriminate | intros H; inversion H].
  - destruct (f x) as [y |] eqn:Hy; simpl.
    + destruct (Py.mapM f l) as [ys |]; simpl.
      * split; [discriminate |]. intros H.
        inversion H as [? ? Hx | ? ? Hl]; subst; [congruence |].
        apply IH in Hl. discriminate.
      * split; [| reflexivity]. intros _. right. now apply IH.
    + split; [| reflexivity]. intros _. now left.
Qed.

(** The comprehension of [break_ties] raises on the empty row only. *)
Lemma break_tie_None (pmf : Vec) : break_tie pmf = None <-> pmf = [].
Proof.
  split.
  - intros H. destruct pmf as [| x pmf]; [reflexivity |].
    destruct (ChoiceAccuracy.break_ties_total [x :: pmf]) as [r Hr].
    + constructor; [discriminate | constructor].
    + unfold break_ties in Hr. simpl in Hr. rewrite H in Hr. discriminate.
  - intros ->. reflexivity.
Qed.

Lemma break_tie_range (pmf : Vec) (c : Z) :
  break_tie pmf = Some c ->
  c = (-1)%Z \/ (0 <= c < Z.of_nat (length pmf))%Z.
Proof.
  unfold break_tie.
  destruct (negb (length (unique pmf) =? length pmf)%nat
            || (length (unique (map round2 pmf)) =? 1)%nat).
  - intros H. injection H as <-. now left.
  - intros H. right. destruct pmf as [| x pmf]; [discriminate |].
    destruct (argmax_is_argmax (x :: pmf)) as [i [Hi [Hr _]]];
      [discriminate |].
    congruence.
Qed.

(** X5.  [break_ties] raises exactly when one of the rows is empty (the
    arg-max of an empty tensor).  When it returns, it returns one choice per
    row, and every choice is the sentinel -1 or a position of its row. *)
Theorem break_ties_raises_on_empty_row (probas : Matrix) :
  (break_ties probas = None <-> Exists (fun pmf => pmf = []) probas) /\
  (forall choices : list Z,
      break_ties probas = Some choices ->
      Forall2 (fun pmf c =>
                 c = (-1)%Z \/ (0 <= c < Z.of_nat (length pmf))%Z)
        probas choices).
Proof.
  split.
  - unfold break_ties. rewrite mapM_None.
    split; intros H; (eapply Exists_impl; [| exact H]);
      intros pmf; apply break_tie_None.
  - intros choices H. apply PyFacts.mapM_Forall2 in H.
    eapply Forall2_impl; [| exact H].
    intros pmf c. apply break_tie_range.
Qed.

(** A row gets the sentinel exactly when it is not empty and the tie-break
    condition holds on it. *)
Lemma break_tie_sentinel (pmf : Vec) :
  break_tie pmf = Some (-1)%Z <-> pmf <> [] /\ tie_break_fires pmf.
Proof.
  split.
  - intros H. assert (Hne : pmf <> []) by (intros ->; discriminate).
    split; [exact Hne |].
    unfold break_tie in H.
    destruct (negb (length (unique pmf) =? length pmf)%nat
              || (length (unique (map round2 pmf)) =? 1)%nat) eqn:Hc.
    + now apply tie_condition_reflect.
    + exfalso. destruct (argmax_is_argmax pmf Hne) as [i [Hi [Hr _]]].
      rewrite Hi in H. injection H as ->. lia.
  - intros [Hne Hf]. now apply break_tie_fires.
Qed.

Lemma tie_break_fires_permutation (pmf pmf' : Vec) :
  Permutation pmf pmf' -> tie_break_fires pmf -> tie_break_fires pmf'.
Proof.
  intros Hperm [Hd | [v Hv]].
  - left. intros Hd'. apply Hd. unfold all_distinct in *.
    eapply PermutationA_preserves_NoDupA; [exact Q_Setoid | | exact Hd'].
    apply Permutation_PermutationA; [exact Q_Setoid |].
    now apply Permutation_sym.
  - right. exists v. eapply Permutation_Forall; eassumption.
Qed.

(** X6.  Whether a row gets the sentinel does not depend on the order of
    its entries: [break_ties] answers -1 on a row exactly when it answers -1
    on any rearrangement of it. *)
Theorem break_ties_sentinel_permutation (pmf pmf' : Vec)
  (Hperm : Permutation pmf pmf') :
  break_ties [pmf] = Some [(-1)%Z] <-> break_ties [pmf'] = Some [(-1)%Z].
Proof.
  assert (Hone : forall p : Vec,
             break_ties [p] = Some [(-1)%Z] <-> break_tie p = Some (-1)%Z).
  { intros p. unfold break_ties. simpl.
    destruct (break_tie p) as [c |]; simpl; split; intros H;
      try discriminate; congruence. }
  rewrite !Hone, !break_tie_sentinel.
  split; intros [Hne Hf]; split.
  - intros ->. apply Permutation_sym, Permutation_nil in Hperm.
    now apply Hne.
  - eapply tie_break_fires_permutation; eassumption.
  - intros ->. apply Permutation_nil in Hperm. now apply Hne.
  - eapply tie_break_fires_permutation;
      [apply Permutation_sym |]; eassumption.
Qed.

(** The row [0.5, 0.0, 0.5] rearranges [0.5, 0.5, 0.0]. *)
Lemma break_ties_sentinel_permutation_witness :
  break_ties [[1 # 2; 0; 1 # 2]] = Some [(-1)%Z].
Proof.
  apply (break_ties_sentinel_permutation [1 # 2; 1 # 2; 0] [1 # 2; 0; 1 # 2]).
  - apply perm_skip, perm_swap.
  - reflexivity.
Defined.

End TieBreakFacts.

(** *** Classification accuracy *)

Module ClassificationFacts.

Import Torch FromScratch.
Local Open Scope Q_scope.

Lemma ratio_in_unit_interval (c n : nat) :
  (0 < n)%nat -> (c <= n)%nat ->
  0 <= inject_Z (Z.of_nat c) / inject_Z (Z.of_nat n) <= 1 /\
  (inject_Z (Z.of_nat c) / inject_Z (Z.of_nat n) == 1 <-> c = n).
Proof.
  intros Hn Hc.
  assert (Hpos : 0 < inject_Z (Z.of_nat n)).
  { change 0 with (inject_Z 0). rewrite <- Zlt_Qlt. lia. }
  split; [split |].
  - apply Qle_shift_div_l; [exact Hpos |].
    rewrite Qmult_0_l. change 0 with (inject_Z 0). rewrite <- Zle_Qle. lia.
  - apply Qle_shift_div_r; [exact Hpos |].
    rewrite Qmult_1_l. rewrite <- Zle_Qle. lia.
  - split.
    + intros H.
      assert (He : inject_Z (Z.of_nat c) == inject_Z (Z.of_nat n)).
      { rewrite <- (Qmult_1_l (inject_Z (Z.of_nat n))), <- H.
        rewrite Qmult_comm, Qmult_div_r; [reflexivity |].
        intros H0. rewrite H0 in Hpos. now apply Qlt_irrefl in Hpos. }
      apply (proj1 (inject_Z_injective _ _)) in He. lia.
    + intros ->. apply Qmult_inv_r.
      intros H0. rewrite H0 in Hpos. now apply Qlt_irrefl in Hpos.
Qed.

Lemma hits_all_true (a : list Z) :
  forall b : list Z,
    length a = length b ->
    let hits := map (fun xy => (fst xy =? snd xy)%Z) (combine a b) in
    (count_occ bool_dec hits true <= length b)%nat /\
    (count_occ bool_dec hits true = length b <-> a = b).
Proof.
  induction a as [| x a IH]; intros [| y b] Hlen; try discriminate.
  - simpl. split; [lia | split; reflexivity].
  - injection Hlen as Hlen. destruct (IH b Hlen) as [Hle Hiff].
    cbv zeta in *. cbn [combine map fst snd length].
    destruct (Z.eqb_spec x y) as [-> | Hxy].
    + rewrite count_occ_cons_eq by reflexivity. split; [lia |].
      split.
      * intros H. f_equal. apply Hiff. lia.
      * intros H. injection H as ->. f_equal. now apply Hiff.
    + rewrite count_occ_cons_neq by discriminate. split; [lia |].
      split; [lia | congruence].
Qed.

(** X7.  When there is one label per row of logits, the classification
    accuracy lies between 0 and 1, and it is 1 exactly when the arg-max of
    every row is its label.  Without any label the function raises (a
    division by zero), whatever the logits. *)
Theorem classification_accuracy_in_unit_interval (logits : Matrix)
  (labels : list Z) (acc : Q)
  (Hlen : length logits = length labels)
  (H : classification_accuracy logits labels = Some acc) :
  0 <= acc <= 1 /\
  (acc == 1 <-> Py.mapM argmax logits = Some labels) /\
  (forall any_logits : Matrix,
      classification_accuracy any_logits [] = None).
Proof.
  split; [| split].
  3: { intros any_logits. unfold classification_accuracy.
       destruct (Py.mapM argmax any_logits) as [m |]; [| reflexivity].
       simpl. destruct (eq_tensor m []); reflexivity. }
  all: unfold classification_accuracy in H;
    destruct (Py.mapM argmax logits) as [max_idcs |] eqn:Hmax;
      [| discriminate];
    simpl in H;
    assert (Hl : length max_idcs = length labels)
      by (pose proof Hmax as HF;
          apply PyFacts.mapM_Forall2, Forall2_length in HF;
          exact (eq_trans (eq_sym HF) Hlen));
    unfold eq_tensor in H; rewrite Hl, Nat.eqb_refl in H; simpl in H;
    destruct (length labels =? 0)%nat eqn:Hz; [discriminate |];
    apply Nat.eqb_neq in Hz; injection H as <-;
    destruct (hits_all_true max_idcs labels Hl) as [Hle Hiff];
    cbv zeta in Hle, Hiff;
    destruct (ratio_in_unit_interval _ (length labels)
                ltac:(lia) Hle) as [Hb He].
  - exact Hb.
  - rewrite He, Hiff. split; congruence.
Qed.

(** Two rows of logits, the first labelled right and the second wrong. *)
Lemma classification_accuracy_in_unit_interval_witness :
  classification_accuracy [[3; 1]; [0; 2]] [0; 0]%Z = Some (1 # 2) /\
  0 <= 1 # 2 <= 1.
Proof.
  split; [reflexivity |].
  apply (classification_accuracy_in_unit_interval
           [[3; 1]; [0; 2]] [0; 0]%Z (1 # 2) eq_refl eq_refl).
Defined.

End ClassificationFacts.

(** *** Symmetry of the similarities *)

Module SimilarityFacts.

Import Torch FromScratch Spec Similarities.
Local Open Scope Q_scope.

Lemma inner_comm (a : Vec) : forall b : Vec, inner a b == inner b a.
Proof.
  induction a as [| x a IH]; intros [| y b]; simpl; try reflexivity.
  rewrite (IH b). ring.
Qed.

Lemma inner_rows_comm (a : Matrix) :
  forall b : Matrix, Forall2 Qeq (inner_rows a b) (inner_rows b a).
Proof.
  unfold inner_rows.
  induction a as [| x a IH]; intros [| y b]; simpl; try constructor.
  - apply inner_comm.
  - apply IH.
Qed.

Lemma Forall2_Qeq_sym (u v : Vec) : Forall2 Qeq u v -> Forall2 Qeq v u.
Proof.
  induction 1; constructor; [now symmetry | assumption].
Qed.

Lemma Forall2_Qeq_trans (u v w : Vec) :
  Forall2 Qeq u v -> Forall2 Qeq v w -> Forall2 Qeq u w.
Proof.
  intros H. revert w. induction H as [| x y u v Hxy _ IH]; intros w Hw.
  - inversion Hw. constructor.
  - inversion Hw as [| ? z ? w' Hyz Hvw]; subst.
    constructor; [now rewrite Hxy | now apply IH].
Qed.

(** X8.  Exchanging the anchor and the positive batch (of one shape with
    the negative batch) leaves the first similarity as it is, up to the order
    of the factors, and exchanges the second and the third. *)
Theorem similarities_swap_anchor_positive (anchor positive negative : Matrix)
  (Hap : same_shape anchor positive) (Han : same_shape anchor negative) :
  exists sim_i sim_j sim_k swapped_i : Vec,
    compute_similarities anchor positive negative
    = Some (sim_i, sim_j, sim_k) /\
    compute_similarities positive anchor negative
    = Some (swapped_i, sim_k, sim_j) /\
    Forall2 Qeq swapped_i sim_i.
Proof.
  assert (Hpa : same_shape positive anchor)
    by (unfold same_shape in *; congruence).
  assert (Hpn : same_shape positive negative)
    by (unfold same_shape in *; congruence).
  destruct (mul_inner_rows _ _ Hap) as [ap [Eap [_ Fap]]].
  destruct (mul_inner_rows _ _ Hpa) as [pa [Epa [_ Fpa]]].
  destruct (mul_inner_rows _ _ Han) as [an [Ean _]].
  destruct (mul_inner_rows _ _ Hpn) as [pn [Epn _]].
  exists (sum_dim1 ap), (sum_dim1 an), (sum_dim1 pn), (sum_dim1 pa).
  unfold compute_similarities. rewrite Eap, Epa, Ean, Epn. simpl.
  split; [reflexivity |]. split; [reflexivity |].
  eapply Forall2_Qeq_trans; [exact Fpa |].
  eapply Forall2_Qeq_trans; [apply inner_rows_comm |].
  now apply Forall2_Qeq_sym.
Qed.

(** The exchange on a batch of two triplets. *)
Lemma similarities_swap_anchor_positive_witness :
  exists sim_i sim_j sim_k swapped_i : Vec,
    compute_similarities [[1; 2]; [3; 4]] [[1; 1]; [1; 1]] [[0; 1]; [1; 0]]
    = Some (sim_i, sim_j, sim_k) /\
    compute_similarities [[1; 1]; [1; 1]] [[1; 2]; [3; 4]] [[0; 1]; [1; 0]]
    = Some (swapped_i, sim_k, sim_j) /\
    Forall2 Qeq swapped_i sim_i.
Proof.
  apply similarities_swap_anchor_positive; reflexivity.
Defined.

End SimilarityFacts.

(** *** The prediction step and the order of the similarities *)

Module SoftmaxFacts.

Import Torch FromScratch Spec PredictionSpec Steps.
Local Open Scope Q_scope.

(** The scan of [torch.argmax] stops at the first position of the largest
    value. *)
Lemma argmax_from_first (v : Vec) :
  forall (best : Q) (best_idx idx : Z),
    (argmax_from best best_idx idx v = best_idx /\
     Forall (fun x => x <= best) v) \/
    (exists k : nat,
        (k < length v)%nat /\
        argmax_from best best_idx idx v = (idx + Z.of_nat k)%Z /\
        best < nth k v 0 /\
        Forall (fun x => x <= nth k v 0) v /\
        (forall j : nat, (j < k)%nat -> nth j v 0 < nth k v 0)).
Proof.
  induction v as [| x v IH]; intros best best_idx idx; simpl.
  - left. split; [reflexivity | constructor].
  - destruct (Qcompare_spec best x) as [Heq | Hlt | Hgt].
    + destruct (IH best best_idx (idx + 1)%Z)
        as [[Hr Hall] | [k [Hk [Hr [Hb [Hall Hfirst]]]]]].
      * left. split; [exact Hr |]. constructor; [| exact Hall].
        rewrite Heq. apply Qle_refl.
      * right. exists (S k). split; [lia |]. split; [rewrite Hr; lia |].
        split; [exact Hb |]. split.
        -- constructor; [| exact Hall].
           rewrite <- Heq. now apply Qlt_le_weak.
        -- intros [| j] Hj; [now rewrite <- Heq | apply Hfirst; lia].
    + destruct (IH x idx (idx + 1)%Z)
        as [[Hr Hall] | [k [Hk [Hr [Hb [Hall Hfirst]]]]]].
      * right. exists 0%nat. split; [lia |]. split; [rewrite Hr; lia |].
        split; [exact Hlt |]. split.
        -- constructor; [apply Qle_refl | exact Hall].
        -- intros j Hj. lia.
      * right. exists (S k). split; [lia |]. split; [rewrite Hr; lia |].
        split; [simpl; eapply Qlt_trans; eassumption |]. split.
        -- constructor; [now apply Qlt_le_weak | exact Hall].
        -- intros [| j] Hj; [exact Hb | apply Hfirst; lia].
    + destruct (IH best best_idx (idx + 1)%Z)
        as [[Hr Hall] | [k [Hk [Hr [Hb [Hall Hfirst]]]]]].
      * left. split; [exact Hr |]. constructor; [| exact Hall].
        now apply Qlt_le_weak.
      * right. exists (S k). split; [lia |]. split; [rewrite Hr; lia |].
        split; [exact Hb |]. split.
        -- constructor; [| exact Hall].
           apply Qlt_le_weak. eapply Qlt_trans; eassumption.
        -- intros [| j] Hj;
             [simpl; eapply Qlt_trans; eassumption | apply Hfirst; lia].
Qed.

Lemma argmax_first (v : Vec) (i : Z) :
  argmax v = Some i ->
  (0 <= i < Z.of_nat (length v))%Z /\
  Forall (fun x => x <= nth (Z.to_nat i) v 0) v /\
  (forall j : nat,
      (j < Z.to_nat i)%nat -> nth j v 0 < nth (Z.to_nat i) v 0).
Proof.
  destruct v as [| x v]; [discriminate |]. cbn [argmax].
  intros H. injection H as <-.
  destruct (argmax_from_first v x 0%Z 1%Z)
    as [[Hr Hall] | [k [Hk [Hr [Hb [Hall Hfirst]]]]]]; rewrite Hr.
  - split; [cbn [length]; lia |]. split.
    + simpl. constructor; [apply Qle_refl | exact Hall].
    + intros j Hj. simpl in Hj. lia.
  - replace (Z.to_nat (1 + Z.of_nat k)) with (S k) by lia.
    split; [cbn [length]; lia |]. split.
    + simpl. constructor; [now apply Qlt_le_weak | exact Hall].
    + intros [| j] Hj; [exact Hb | simpl; apply Hfirst; lia].
Qed.

(** Under a map that keeps the order, the first largest image comes no
    later than the first largest value, and is as large as its image. *)
Lemma argmax_map_monotone (f : Q -> Q) (v : Vec) (chosen largest : Z) :
  (forall x y : Q, x <= y -> f x <= f y) ->
  argmax v = Some largest -> argmax (map f v) = Some chosen ->
  first_of_most_probable (map f v) chosen largest.
Proof.
  intros Hf Hv Hm.
  destruct (argmax_first v largest Hv) as [Hl [Hmax _]].
  destruct (argmax_first (map f v) chosen Hm) as [Hc [Hcmax Hcfirst]].
  rewrite length_map in Hc.
  assert (Hat : forall i : Z,
             (0 <= i < Z.of_nat (length v))%Z ->
             nth (Z.to_nat i) (map f v) 0 = f (nth (Z.to_nat i) v 0))
    by (intros i Hi; apply ConvertFacts.nth_map_lt; lia).
  assert (Hlmax : Forall (fun q => q <= nth (Z.to_nat largest) (map f v) 0)
                    (map f v)).
  { rewrite (Hat largest Hl). apply Forall_map.
    eapply Forall_impl; [| exact Hmax]. intros x Hx. now apply Hf. }
  assert (Hin : forall i : Z,
             (0 <= i < Z.of_nat (length v))%Z ->
             In (nth (Z.to_nat i) (map f v) 0) (map f v))
    by (intros i Hi; apply nth_In; rewrite length_map; lia).
  assert (Hle1 : nth (Z.to_nat chosen) (map f v) 0
                 <= nth (Z.to_nat largest) (map f v) 0)
    by exact (proj1 (Forall_forall _ _) Hlmax _ (Hin chosen Hc)).
  assert (Hle2 : nth (Z.to_nat largest) (map f v) 0
                 <= nth (Z.to_nat chosen) (map f v) 0)
    by exact (proj1 (Forall_forall _ _) Hcmax _ (Hin largest Hl)).
  split; [| split; [now apply Qle_antisym | split; assumption]].
  split; [lia |].
  destruct (Z.le_gt_cases chosen largest) as [Hle | Hgt]; [exact Hle |].
  exfalso. apply (Qlt_not_le _ _ (Hcfirst (Z.to_nat largest) ltac:(lia))).
  exact Hle1.
Qed.

Section WithExp.

Variable exp : Q -> Q.
Hypothesis exp_monotone : forall x y : Q, x <= y -> exp x <= exp y.
Hypothesis exp_not_negative : forall x : Q, 0 <= exp x.

Lemma sum_exp_not_negative (v : Vec) : 0 <= sum (map exp v).
Proof.
  induction v as [| x v IH]; [apply Qle_refl |].
  cbn [map]. rewrite Similarities.sum_cons.
  pose proof (exp_not_negative x). Lqa.lra.
Qed.

Lemma softmax_row_map (v : Vec) :
  softmax_row exp v = map (fun x => exp x / sum (map exp v)) v.
Proof.
  unfold softmax_row. cbv zeta. now rewrite map_map.
Qed.

(** The softmax keeps the order of the entries of a row. *)
Lemma softmax_monotone (v : Vec) (x y : Q) :
  x <= y -> exp x / sum (map exp v) <= exp y / sum (map exp v).
Proof.
  intros Hxy. unfold Qdiv. apply Qmult_le_compat_r.
  - now apply exp_monotone.
  - apply Qinv_le_0_compat, sum_exp_not_negative.
Qed.

Lemma softmax_row_first (v : Vec) (chosen largest : Z) :
  argmax v = Some largest -> argmax (softmax_row exp v) = Some chosen ->
  first_of_most_probable (softmax_row exp v) chosen largest.
Proof.
  rewrite softmax_row_map. apply argmax_map_monotone.
  intros x y. apply softmax_monotone.
Qed.

Lemma softmax_rows_first (m : Matrix) (raw chosen : list Z) :
  Py.mapM argmax m = Some raw ->
  Py.mapM argmax (softmax exp m) = Some chosen ->
  forall (k : nat) (row : Vec),
    nth_error m k = Some row ->
    exists p r : Z,
      nth_error chosen k = Some p /\ nth_error raw k = Some r /\
      first_of_most_probable (softmax_row exp row) p r.
Proof.
  revert raw chosen.
  induction m as [| row0 m IH]; intros raw chosen Hr Hc k row Hk.
  - destruct k; discriminate.
  - cbn [Py.mapM softmax map] in Hr, Hc.
    destruct (argmax row0) as [r |] eqn:Hr0; [| discriminate].
    cbn [Py.bind] in Hr.
    destruct (Py.mapM argmax m) as [raw' |] eqn:Hraw; [| discriminate].
    cbn [Py.bind] in Hr. injection Hr as <-.
    destruct (argmax (softmax_row exp row0)) as [p |] eqn:Hp0;
      [| discriminate].
    cbn [Py.bind] in Hc.
    destruct (Py.mapM argmax (map (softmax_row exp) m)) as [chosen' |]
      eqn:Hchosen; [| discriminate].
    cbn [Py.bind] in Hc. injection Hc as <-.
    destruct k as [| k].
    + cbn [nth_error] in Hk. injection Hk as <-.
      exists p, r. split; [reflexivity |]. split; [reflexivity |].
      now apply softmax_row_first.
    + cbn [nth_error] in *. exact (IH raw' chosen' eq_refl Hchosen k row Hk).
Qed.

End WithExp.

Section WithModule.

Context {Images : Type}.
Variable cat : list Images -> Images.
Variable exp : Q -> Q.

(** X9.  With an exponential that does not decrease and is not negative
    (a rounded one, too), the prediction step looks at the similarities
    through the softmax without reversing their order: on every
    well-formed triplet batch, in every triplet the pair of the largest
    similarity has the largest probability, and the prediction is the
    conversion of the first position that holds this probability, which is
    the position of the largest similarity or one before it that the
    softmax does not tell apart from it. *)
Theorem predict_step_first_of_most_probable (self : LightningModule Images)
  (batch : Batch Images) (batch_idx : Z)
  (exp_monotone : forall x y : Q, x <= y -> exp x <= exp y)
  (exp_not_negative : forall x : Q, 0 <= exp x)
  (Hwf : well_formed_things cat self (fst batch)) :
  exists (sim_i sim_j sim_k : Vec) (stacked : Matrix)
         (raw chosen : list Z),
    batch_similarities cat self (fst batch) = Some (sim_i, sim_j, sim_k) /\
    stack3 sim_i sim_j sim_k = Some stacked /\
    Py.mapM argmax stacked = Some raw /\
    Py.mapM argmax (softmax exp stacked) = Some chosen /\
    predict_step cat exp self batch batch_idx
    = Some (convert_predictions chosen) /\
    (forall (k : nat) (row : Vec),
        nth_error stacked k = Some row ->
        exists p r : Z,
          nth_error chosen k = Some p /\ nth_error raw k = Some r /\
          first_of_most_probable (softmax_row exp row) p r).
Proof.
  destruct (predict_step_returns cat exp self batch batch_idx Hwf)
    as [si [sj [sk [m [sp [Hs [Hm [_ [Hsp [H3 Hp]]]]]]]]]].
  assert (Hraw : exists raw, Py.mapM argmax m = Some raw).
  { apply PyFacts.mapM_total. unfold softmax in H3.
    rewrite Forall_map in H3. eapply Forall_impl; [| exact H3].
    intros row Hrow.
    destruct row as [| x row]; [cbv in Hrow; discriminate Hrow |].
    simpl. eauto. }
  destruct Hraw as [raw Hraw].
  exists si, sj, sk, m, raw, sp.
  repeat (split; [assumption |]).
  now apply softmax_rows_first.
Qed.

End WithModule.

Lemma demo_exp_monotone (x y : Q) : x <= y -> DemoExp.exp x <= DemoExp.exp y.
Proof.
  intros Hxy. unfold DemoExp.exp.
  destruct (Qle_bool 1 x) eqn:Hx, (Qle_bool 1 y) eqn:Hy;
    try (unfold Qle; simpl; lia).
  apply Qle_bool_iff in Hx.
  assert (Hy' : 1 <= y) by Lqa.lra.
  apply Qle_bool_iff in Hy'. congruence.
Qed.

Lemma demo_exp_not_negative (x : Q) : 0 <= DemoExp.exp x.
Proof.
  unfold DemoExp.exp. destruct (Qle_bool 1 x); unfold Qle; simpl; lia.
Qed.

Lemma demo_exp_well_formed :
  well_formed_things Demo.cat DemoExp.probe (fst Demo.batch).
Proof.
  exists [[1; 0]; [0; 0]; [1 # 2; 0]], 2%nat.
  repeat split; try reflexivity; [lia |].
  repeat constructor.
Qed.

(** A triplet with the similarities 0, 1/2 and 0 under the coarse
    exponential: the second pair is the most similar one, the three
    probabilities are equal, and the step predicts from the first pair. *)
Lemma predict_step_first_of_most_probable_witness :
  exists raw chosen : list Z,
    Py.mapM argmax [[0; 1 # 2; 0]] = Some raw /\
    raw = [1%Z] /\ chosen = [0%Z] /\
    predict_step Demo.cat DemoExp.exp DemoExp.probe Demo.batch 0
    = Some (convert_predictions chosen) /\
    first_of_most_probable (softmax_row DemoExp.exp [0; 1 # 2; 0]) 0 1.
Proof.
  destruct (predict_step_first_of_most_probable Demo.cat DemoExp.exp
              DemoExp.probe Demo.batch 0
              demo_exp_monotone demo_exp_not_negative demo_exp_well_formed)
    as [si [sj [sk [m [raw [chosen [Hs [Hm [Hr [Hc [Hp Hrows]]]]]]]]]]].
  vm_compute in Hs. injection Hs as <- <- <-.
  vm_compute in Hm. injection Hm as <-.
  destruct (Hrows 0%nat _ eq_refl) as [p [r [Hp0 [Hr0 Hfirst]]]].
  exists raw, chosen. split; [exact Hr |].
  vm_compute in Hr. injection Hr as <-.
  vm_compute in Hc. injection Hc as <-.
  cbn [nth_error] in Hp0, Hr0. injection Hp0 as <-. injection Hr0 as <-.
  repeat split; try reflexivity; try exact Hp; apply Hfirst.
Defined.

End SoftmaxFacts.

(** *** More on the normalization of the features *)

Module NormalizationFacts.

Import Numpy Normalization.
Local Open Scope R_scope.

Lemma std_positive (a : Array2) :
  (exists x y : R, In x (concat a) /\ In y (concat a) /\ x <> y) ->
  0 < std a.
Proof.
  intros Hvar. unfold std. apply sqrt_lt_R0. now apply variance_positive.
Qed.

(** X10.  Normalizing twice is normalizing once: on a feature matrix whose
    entries are not all equal, the normalization of [run] leaves an already
    normalized matrix as it is. *)
Theorem normalized_idempotent (features : Array2)
  (Hvar : exists x y : R,
      In x (concat features) /\ In y (concat features) /\ x <> y) :
  RunSpec.normalized (RunSpec.normalized features)
  = RunSpec.normalized features.
Proof.
  assert (Hne : concat features <> []).
  { destruct Hvar as [x [_ [Hx _]]]. intros H. rewrite H in Hx.
    inversion Hx. }
  unfold RunSpec.normalized at 1.
  fold (RunSpec.normalized features).
  assert (Hm : mean (RunSpec.normalized features) = 0)
    by (unfold RunSpec.normalized; now apply mean_sub_div).
  assert (Hs : std (RunSpec.normalized features) = 1)
    by (unfold RunSpec.normalized; now apply std_sub_div).
  rewrite Hm, Hs. unfold sub_div.
  rewrite <- (map_id (RunSpec.normalized features)) at 2.
  apply map_ext. intros row.
  rewrite <- (map_id row) at 2. apply map_ext. intros x. field.
Qed.

(** The matrix of the two entries 0 and 2, normalized twice. *)
Lemma normalized_idempotent_witness :
  RunSpec.normalized (RunSpec.normalized DemoRun.features)
  = RunSpec.normalized DemoRun.features.
Proof.
  apply normalized_idempotent.
  exists 0, 2. simpl. repeat split; [auto | auto | Lra.lra].
Defined.

(** X11.  The normalization of [run] applies one increasing affine map to
    every entry: it keeps the shape of the matrix and the order of its
    entries.  (The entries of the matrix are not all equal.) *)
Theorem normalized_affine_increasing (features : Array2)
  (Hvar : exists x y : R,
      In x (concat features) /\ In y (concat features) /\ x <> y) :
  exists slope offset : R,
    0 < slope /\
    RunSpec.normalized features
    = map (map (fun x => slope * x + offset)) features /\
    map (@length R) (RunSpec.normalized features)
    = map (@length R) features /\
    (forall x y : R, x < y -> slope * x + offset < slope * y + offset).
Proof.
  pose proof (std_positive features Hvar) as Hs.
  exists (/ std features), (- mean features / std features).
  assert (Hslope : 0 < / std features) by now apply Rinv_0_lt_compat.
  split; [exact Hslope |].
  assert (He : RunSpec.normalized features
               = map (map (fun x => / std features * x
                                    + - mean features / std features))
                   features).
  { unfold RunSpec.normalized, sub_div. apply map_ext. intros row.
    apply map_ext. intros x. field. Lra.lra. }
  split; [exact He |]. split.
  - rewrite He, map_map. apply map_ext. intros row. apply length_map.
  - intros x y Hxy.
    apply Rplus_lt_compat_r. now apply Rmult_lt_compat_l.
Qed.

(** The affine map for the matrix of the two entries 0 and 2. *)
Lemma normalized_affine_increasing_witness :
  exists slope offset : R,
    0 < slope /\
    RunSpec.normalized DemoRun.features
    = map (map (fun x => slope * x + offset)) DemoRun.features.
Proof.
  destruct (normalized_affine_increasing DemoRun.features)
    as [slope [offset [Hs [He _]]]].
  - exists 0, 2. simpl. repeat split; [auto | auto | Lra.lra].
  - exists slope, offset. split; assumption.
Defined.

End NormalizationFacts.

(** *** Dictionaries as association lists *)

Module DictFacts.

Import Py Results.

Lemma dict_get_set_same {V : Type} (k : string) (v : V)
  (d : list (string * V)) :
  dict_get k (dict_set k v d) = Some v.
Proof.
  induction d as [| [k' v'] d IH]; simpl.
  - now rewrite String.eqb_refl.
  - destruct (String.eqb_spec k' k) as [-> | Hk]; simpl.
    + now rewrite String.eqb_refl.
    + destruct (String.eqb_spec k' k) as [-> | _]; [now elim Hk | exact IH].
Qed.

Lemma dict_get_set_other {V : Type} (k k' : string) (v : V)
  (d : list (string * V)) :
  k <> k' -> dict_get k (dict_set k' v d) = dict_get k d.
Proof.
  intros Hk. induction d as [| [k0 v0] d IH]; simpl.
  - destruct (String.eqb_spec k' k) as [E | _]; [congruence | reflexivity].
  - destruct (String.eqb_spec k0 k') as [E0 | H0]; simpl.
    + subst k0. destruct (String.eqb_spec k' k) as [E | _];
        [congruence | reflexivity].
    + destruct (String.eqb_spec k0 k); [reflexivity | exact IH].
Qed.

Lemma dict_get_In {V : Type} (k : string) (d : list (string * V)) :
  In k (map fst d) <-> exists v, dict_get k d = Some v.
Proof.
  induction d as [| [k' v'] d IH]; simpl.
  - split; [intros [] | intros [v H]; discriminate].
  - destruct (String.eqb_spec k' k) as [-> | Hk].
    + split; [eauto | auto].
    + rewrite <- IH. split; [intros [H | H]; [now elim Hk | exact H] | auto].
Qed.

Lemma dict_get_snd {V : Type} (k : string) (v : V) (d : list (string * V)) :
  dict_get k d = Some v -> In (k, v) d.
Proof.
  induction d as [| [k' v'] d IH]; simpl; [discriminate |].
  destruct (String.eqb_spec k' k) as [-> | Hk].
  - intros H. injection H as ->. now left.
  - intros H. right. now apply IH.
Qed.

Lemma dict_set_keys {V : Type} (k : string) (v : V) (d : list (string * V)) :
  map fst (dict_set k v d)
  = if in_dec string_dec k (map fst d) then map fst d else map fst d ++ [k].
Proof.
  induction d as [| [k' v'] d IH]; simpl; [reflexivity |].
  destruct (String.eqb_spec k' k) as [-> | Hk]; simpl.
  - destruct (string_dec k k) as [E | H]; [reflexivity | now elim H].
  - rewrite IH. destruct (string_dec k' k) as [H | Hn]; [now elim Hk |].
    destruct (in_dec string_dec k (map fst d)); reflexivity.
Qed.

Lemma dict_set_NoDup {V : Type} (k : string) (v : V) (d : list (string * V)) :
  NoDup (map fst d) -> NoDup (map fst (dict_set k v d)).
Proof.
  intros H. rewrite dict_set_keys.
  destruct (in_dec string_dec k (map fst d)) as [Hin | Hout]; [exact H |].
  apply NoDup_app; [exact H | repeat constructor; intros [] |].
  intros x Hx [<- | []]. exact (Hout Hx).
Qed.

Lemma dict_set_Forall {V : Type} (P : V -> Prop) (k : string) (v : V)
  (d : list (string * V)) :
  P v -> Forall (fun kv => P (snd kv)) d ->
  Forall (fun kv => P (snd kv)) (dict_set k v d).
Proof.
  intros Hv H. induction H as [| [k' v'] d Hx Hd IH]; simpl.
  - constructor; [exact Hv | constructor].
  - destruct (String.eqb k' k); constructor; assumption.
Qed.

Lemma dict_set_keeps {V : Type} (c k : string) (v : V)
  (d : list (string * V)) :
  In c (map fst d) -> In c (map fst (dict_set k v d)).
Proof.
  intros H. rewrite dict_set_keys.
  destruct (in_dec string_dec k (map fst d)); [exact H |].
  apply in_or_app. now left.
Qed.

Lemma dict_set_not_nil {V : Type} (k : string) (v : V)
  (d : list (string * V)) : dict_set k v d <> [].
Proof.
  destruct d as [| [k' v'] d]; simpl; [| destruct (String.eqb k' k)];
    discriminate.
Qed.

End DictFacts.

(** *** The mean over the folds that [run] returns *)

Module MeanFacts.

Import Torch Main Results.
Local Open Scope Q_scope.

Section WithCollaborators.

Context {FeatureDataset Triplets TripletDataset Zipped Probe : Type}.
Context {Weights Bias : Type}.

Variable C :
  Collaborators FeatureDataset Triplets TripletDataset Zipped Probe
    Performance Weights Bias.

(** X12.  The cross-validation means are taken over the one fold that
    [run] has executed: on the metrics [run] returns, [get_mean_cv_acc] and
    [get_mean_cv_loss] return the metric of fold 1 itself, and they raise
    when the test phase of that fold reported nothing or not that metric. *)
Theorem cv_mean_is_first_fold (features : Numpy.Array2)
  (imagenet_features_root data_root : string) (optim_cfg : OptimCfg)
  (n_objects : nat) (device : string) (rnd_seed num_processes : Z)
  (features_type : string) (choices : list Z)
  (cv : list (string * Performance))
  (transformation : Transformation Weights Bias) (metric : string)
  (Hrun : run C features imagenet_features_root data_root optim_cfg
            n_objects device rnd_seed num_processes features_type
          = inr (choices, cv, transformation)) :
  exists perf : Performance,
    cv = [("fold_01"%string, perf)] /\
    ((exists e : LookupError,
         first_metric metric perf = inl e /\
         get_mean_cv_acc cv metric = inl e /\
         get_mean_cv_loss cv metric = inl e) \/
     (exists v q : Q,
         first_metric metric perf = inr v /\
         get_mean_cv_acc cv metric = inr (Finite q) /\
         get_mean_cv_loss cv metric = inr (Finite q) /\
         q == v)).
Proof.
  destruct (Driver.run_returned C _ _ _ _ _ _ _ _ _ _ _ _ Hrun)
    as [trainF [valF [first [rest [st [probe
         [Hf [Hk [Hb [Hp [Hcv [Hch Htr]]]]]]]]]]]].
  apply Driver.fold_body_returns in Hb.
  destruct Hb as [_ [trainer [tb [vb [loader [_ Hst]]]]]].
  cbv zeta in Hst. subst st. simpl in Hcv. subst cv.
  eexists. split; [reflexivity |].
  unfold get_mean_cv_acc, get_mean_cv_loss. simpl.
  destruct (first_metric metric _) as [e | v].
  - left. exists e. repeat split.
  - right. exists v. eexists. repeat split.
    change (sum [v] / inject_Z (Z.of_nat (length [v]))) with ((0 + v) * 1).
    ring.
Qed.

End WithCollaborators.

(** The means after a run with the demo collaborators. *)
Lemma cv_mean_is_first_fold_witness :
  exists q : Q,
    get_mean_cv_acc
      [("fold_01"%string,
        [[("test_acc"%string, 3 # 4); ("test_loss"%string, 1 # 2)]])]
      "test_acc"
    = inr (Finite q) /\
    q == 3 # 4.
Proof.
  destruct (cv_mean_is_first_fold ResultsSpec.collaborators DemoRun.features
              "features" "things" DemoRun.optim_cfg 8 "cpu" 42 4 "pt"
              [2%Z]
              [("fold_01"%string,
                [[("test_acc"%string, 3 # 4); ("test_loss"%string, 1 # 2)]])]
              {| weights := 1%nat; bias := None |} "test_acc" eq_refl)
    as [perf [Hcv [[e [He _]] | [v [q [Hv [Hacc [_ Hq]]]]]]]].
  - injection Hcv as <-. discriminate.
  - injection Hcv as <-. injection Hv as <-. exists q. split; assumption.
Defined.

End MeanFacts.

(** *** The results frame *)

Module FrameFacts.

Import Torch Results ResultsSpec DictFacts.
Local Open Scope string_scope.

Lemma empty_frame_get (n : nat) (columns : list string) (c : string) :
  In c columns -> dict_get c (empty_frame n columns) = Some (repeat Missing n).
Proof.
  unfold empty_frame. induction columns as [| c' columns IH]; simpl.
  - intros [].
  - intros [-> | Hin].
    + now rewrite String.eqb_refl.
    + destruct (String.eqb c' c); [reflexivity | now apply IH].
Qed.

Lemma empty_frame_keys (n : nat) (columns : list string) :
  map fst (empty_frame n columns) = columns.
Proof.
  unfold empty_frame. rewrite map_map. simpl. apply map_id.
Qed.

Lemma empty_frame_lengths (n : nat) (columns : list string) :
  Forall (fun col => length (snd col) = n) (empty_frame n columns).
Proof.
  unfold empty_frame. apply Forall_map, Forall_forall.
  intros c _. simpl. apply repeat_length.
Qed.

Ltac skip_other_columns :=
  repeat (rewrite dict_get_set_other by (discriminate || assumption)).

Section WithFamilies.

Variable get_family_name : string -> string.

Variable columns : list string.
Variables probing_acc probing_loss : np_float.
Variable ooo_choices : list Z.
Variables model_name module_name source reg optim : string.
Variables lr alpha lmbda tau : Q.
Variable bias : bool.

Lemma make_results_df_lengths :
  Forall (fun col => length (snd col) = 1%nat)
    (make_results_df get_family_name columns probing_acc probing_loss
       ooo_choices model_name module_name source reg optim lr alpha lmbda
       tau bias).
Proof.
  unfold make_results_df, set_column. cbv zeta.
  do 14 (apply (dict_set_Forall (fun cells => length cells = 1%nat));
         [reflexivity |]).
  apply empty_frame_lengths.
Qed.

Lemma make_results_df_NoDup :
  NoDup columns ->
  NoDup
    (map fst
       (make_results_df get_family_name columns probing_acc probing_loss
          ooo_choices model_name module_name source reg optim lr alpha
          lmbda tau bias)).
Proof.
  intros H. unfold make_results_df, set_column. cbv zeta.
  do 14 apply dict_set_NoDup. now rewrite empty_frame_keys.
Qed.

Lemma make_results_df_n_rows :
  n_rows
    (make_results_df get_family_name columns probing_acc probing_loss
       ooo_choices model_name module_name source reg optim lr alpha lmbda
       tau bias)
  = 1%nat.
Proof.
  pose proof make_results_df_lengths as H.
  assert (Hne :
    (make_results_df get_family_name columns probing_acc probing_loss
       ooo_choices model_name module_name source reg optim lr alpha lmbda
       tau bias) <> [])
    by (unfold make_results_df, set_column; cbv zeta;
        apply dict_set_not_nil).
  destruct
    (make_results_df get_family_name columns probing_acc probing_loss
       ooo_choices model_name module_name source reg optim lr alpha lmbda
       tau bias) as [| [c cells] rest]; [now elim Hne |].
  inversion H; subst. assumption.
Qed.

Lemma make_results_df_keeps_columns (c : string) :
  In c columns ->
  In c
    (map fst
       (make_results_df get_family_name columns probing_acc probing_loss
          ooo_choices model_name module_name source reg optim lr alpha
          lmbda tau bias)).
Proof.
  intros Hin. unfold make_results_df, set_column. cbv zeta.
  do 14 apply dict_set_keeps. now rewrite empty_frame_keys.
Qed.

(** X13.  The one-row frame of [make_results_df] fills the fourteen
    columns it assigns, each with the value the code gives it (the
    regularization strength goes to the column [lmbda], the optimizer name
    is stored in lower case, [contrastive] is always true), and no other: a
    column of [columns] that is none of them stays empty.  For the columns
    of a fresh results file this leaves the column [lambda] empty and
    appends [lmbda] as a fifteenth column. *)
Theorem make_results_df_fills_assigned_columns :
  n_rows
    (make_results_df get_family_name columns probing_acc probing_loss
       ooo_choices model_name module_name source reg optim lr alpha lmbda
       tau bias)
  = 1%nat /\
  dict_get "model"
    (make_results_df get_family_name columns probing_acc probing_loss
       ooo_choices model_name module_name source reg optim lr alpha lmbda
       tau bias)
  = Some [Str model_name] /\
  dict_get "probing"
    (make_results_df get_family_name columns probing_acc probing_loss
       ooo_choices model_name module_name source reg optim lr alpha lmbda
       tau bias)
  = Some [cell_of_float probing_acc] /\
  dict_get "cross-entropy"
    (make_results_df get_family_name columns probing_acc probing_loss
       ooo_choices model_name module_name source reg optim lr alpha lmbda
       tau bias)
  = Some [cell_of_float probing_loss] /\
  dict_get "module"
    (make_results_df get_family_name columns probing_acc probing_loss
       ooo_choices model_name module_name source reg optim lr alpha lmbda
       tau bias)
  = Some [Str module_name] /\
  dict_get "family"
    (make_results_df get_family_name columns probing_acc probing_loss
       ooo_choices model_name module_name source reg optim lr alpha lmbda
       tau bias)
  = Some [Str (get_family_name model_name)] /\
  dict_get "source"
    (make_results_df get_family_name columns probing_acc probing_loss
       ooo_choices model_name module_name source reg optim lr alpha lmbda
       tau bias)
  = Some [Str source] /\
  dict_get "reg"
    (make_results_df get_family_name columns probing_acc probing_loss
       ooo_choices model_name module_name source reg optim lr alpha lmbda
       tau bias)
  = Some [Str reg] /\
  dict_get "alpha"
    (make_results_df get_family_name columns probing_acc probing_loss
       ooo_choices model_name module_name source reg optim lr alpha lmbda
       tau bias)
  = Some [Num alpha] /\
  dict_get "lmbda"
    (make_results_df get_family_name columns probing_acc probing_loss
       ooo_choices model_name module_name source reg optim lr alpha lmbda
       tau bias)
  = Some [Num lmbda] /\
  dict_get "tau"
    (make_results_df get_family_name columns probing_acc probing_loss
       ooo_choices model_name module_name source reg optim lr alpha lmbda
       tau bias)
  = Some [Num tau] /\
  dict_get "optim"
    (make_results_df get_family_name columns probing_acc probing_loss
       ooo_choices model_name module_name source reg optim lr alpha lmbda
       tau bias)
  = Some [Str (FromScratch.lower optim)] /\
  dict_get "lr"
    (make_results_df get_family_name columns probing_acc probing_loss
       ooo_choices model_name module_name source reg optim lr alpha lmbda
       tau bias)
  = Some [Num lr] /\
  dict_get "contrastive"
    (make_results_df get_family_name columns probing_acc probing_loss
       ooo_choices model_name module_name source reg optim lr alpha lmbda
       tau bias)
  = Some [Flag true] /\
  dict_get "bias"
    (make_results_df get_family_name columns probing_acc probing_loss
       ooo_choices model_name module_name source reg optim lr alpha lmbda
       tau bias)
  = Some [Flag bias] /\
  (forall c : string,
      In c columns -> ~ In c assigned_columns ->
      dict_get c
        (make_results_df get_family_name columns probing_acc probing_loss
           ooo_choices model_name module_name source reg optim lr alpha lmbda
           tau bias)
      = Some [Missing]) /\
  (columns = fresh_columns ->
   map fst
     (make_results_df get_family_name columns probing_acc probing_loss
        ooo_choices model_name module_name source reg optim lr alpha lmbda
        tau bias)
   = (fresh_columns ++ ["lmbda"])%list /\
   dict_get "lambda"
     (make_results_df get_family_name columns probing_acc probing_loss
        ooo_choices model_name module_name source reg optim lr alpha lmbda
        tau bias)
   = Some [Missing]).
Proof.
  split; [exact make_results_df_n_rows |].
  unfold make_results_df, set_column. cbv zeta.
  do 14 (split; [skip_other_columns; apply dict_get_set_same |]).
  split.
  - intros c Hin Hout.
    do 14 (rewrite dict_get_set_other
             by (intros ->; apply Hout; simpl; tauto)).
    now apply empty_frame_get.
  - intros ->. split; reflexivity.
Qed.

Lemma make_results_df_same_columns :
  incl assigned_columns columns ->
  map fst
    (make_results_df get_family_name columns probing_acc probing_loss
       ooo_choices model_name module_name source reg optim lr alpha lmbda
       tau bias)
  = columns.
Proof.
  intros Hincl. unfold make_results_df, set_column. cbv zeta.
  do 14 (rewrite dict_set_keys;
         match goal with
         | |- (if ?b then _ else _) = _ =>
             destruct b as [_ | Hout];
             [| exfalso; apply Hout;
                do 14 (try apply dict_set_keeps);
                rewrite empty_frame_keys; apply Hincl; simpl; tauto]
         end).
  apply empty_frame_keys.
Qed.

End WithFamilies.

Lemma dict_get_None {V : Type} (c : string) (d : list (string * V)) :
  dict_get c d = None <-> ~ In c (map fst d).
Proof.
  rewrite dict_get_In. destruct (dict_get c d) as [v |].
  - split; [discriminate | intros H; elim H; eauto].
  - split; [intros _ [v H]; discriminate | reflexivity].
Qed.

Lemma dict_get_app {V : Type} (c : string) (a b : list (string * V)) :
  dict_get c (a ++ b)
  = match dict_get c a with
    | Some v => Some v
    | None => dict_get c b
    end.
Proof.
  induction a as [| [k v] a IH]; simpl; [reflexivity |].
  destruct (String.eqb k c); [reflexivity | exact IH].
Qed.

Lemma dict_get_extended (c : string) (n : nat) (a b : Frame) :
  dict_get c
    (map (fun col =>
            (fst col, (snd col ++ column_or_missing n (fst col) b)%list)) a)
  = match dict_get c a with
    | Some cells => Some (cells ++ column_or_missing n c b)%list
    | None => None
    end.
Proof.
  induction a as [| [k cells] a IH]; simpl; [reflexivity |].
  destruct (String.eqb_spec k c) as [-> | Hk]; [reflexivity | exact IH].
Qed.

Lemma filter_keys_NoDup (p : string * list Cell -> bool) (d : Frame) :
  NoDup (map fst d) -> NoDup (map fst (filter p d)).
Proof.
  induction d as [| col d IH]; simpl; intros H; [constructor |].
  inversion H as [| ? ? Hout Hd]; subst.
  destruct (p col); simpl; [| now apply IH].
  constructor; [| now apply IH].
  intros Hin. apply Hout. apply in_map_iff in Hin.
  destruct Hin as [col' [Hfst Hin]]. apply filter_In in Hin.
  apply in_map_iff. exists col'. tauto.
Qed.

Lemma column_or_missing_length (n : nat) (c : string) (b : Frame) :
  Forall (fun col => length (snd col) = n) b ->
  length (column_or_missing n c b) = n.
Proof.
  intros H. unfold column_or_missing.
  destruct (dict_get c b) as [cells |] eqn:Hc.
  - apply dict_get_snd in Hc. rewrite Forall_forall in H.
    exact (H _ Hc).
  - apply repeat_length.
Qed.

Lemma filter_none {A : Type} (p : A -> bool) (l : list A) :
  (forall x, In x l -> p x = false) -> filter p l = [].
Proof.
  induction l as [| x l IH]; simpl; intros H; [reflexivity |].
  rewrite (H x (or_introl eq_refl)). apply IH. intros y Hy.
  apply H. now right.
Qed.

Lemma concat_rows_keys (a b : Frame) :
  map fst (concat_rows a b)
  = (map fst a
     ++ map fst (filter (fun col : string * list Cell =>
                           match dict_get (fst col) a with
                           | Some _ => false
                           | None => true
                           end) b))%list.
Proof.
  unfold concat_rows. rewrite map_app, !map_map. reflexivity.
Qed.

(** Appending a well-formed frame of [m] rows to a well-formed frame. *)
Lemma concat_rows_well_formed (a b : Frame) (m : nat) :
  well_formed_frame a -> NoDup (map fst b) ->
  Forall (fun col => length (snd col) = m) b -> n_rows b = m ->
  NoDup (map fst (concat_rows a b)) /\
  Forall (fun col => length (snd col) = (n_rows a + m)%nat)
    (concat_rows a b).
Proof.
  intros [Ha La] Hb Lb Hm. split.
  - rewrite concat_rows_keys.
    apply NoDup_app; [exact Ha | now apply filter_keys_NoDup |].
    intros c Hc Hin. apply in_map_iff in Hin.
    destruct Hin as [col [<- Hin]]. apply filter_In in Hin.
    destruct Hin as [_ Hnew].
    destruct (dict_get (fst col) a) eqn:Hg; [discriminate |].
    apply dict_get_None in Hg. now apply Hg.
  - unfold concat_rows. rewrite Hm. apply Forall_app. split.
    + apply Forall_map. eapply Forall_impl; [| exact La].
      intros col Hcol. simpl.
      rewrite length_app, Hcol, (column_or_missing_length m _ b Lb).
      reflexivity.
    + apply Forall_map, Forall_forall. intros col Hin. simpl.
      apply filter_In in Hin. destruct Hin as [Hin _].
      rewrite Forall_forall in Lb.
      now rewrite length_app, repeat_length, (Lb col Hin).
Qed.

Lemma n_rows_of_lengths (df : Frame) (n : nat) :
  df <> [] -> Forall (fun col => length (snd col) = n) df -> n_rows df = n.
Proof.
  intros Hne H. destruct df as [| [c cells] rest]; [now elim Hne |].
  exact (Forall_inv H).
Qed.

Section Saving.

Variable get_family_name : string -> string.
Variable args : Args.
Variables probing_acc probing_loss : np_float.
Variable ooo_choices : list Z.

(** X14.  Every call of [save_results] adds exactly one row and loses
    nothing: without a results file it writes a well-formed frame of one row
    and fifteen columns; on a stored well-formed frame with at least one
    column it writes a well-formed frame with one row more, in which every
    stored column is the stored cells followed by one cell, and which has
    the stored columns and no other once these include the fourteen assigned
    ones. *)
Theorem save_results_appends_one_row :
  well_formed_frame
    (save_results get_family_name args probing_acc probing_loss ooo_choices
       None) /\
  n_rows (save_results get_family_name args probing_acc probing_loss
            ooo_choices None) = 1%nat /\
  map fst (save_results get_family_name args probing_acc probing_loss
             ooo_choices None)
  = (fresh_columns ++ ["lmbda"])%list /\
  (forall stored : Frame,
      well_formed_frame stored -> stored <> [] ->
      well_formed_frame
        (save_results get_family_name args probing_acc probing_loss
           ooo_choices (Some stored)) /\
      n_rows (save_results get_family_name args probing_acc probing_loss
                ooo_choices (Some stored))
      = S (n_rows stored) /\
      (forall (c : string) (cells : list Cell),
          dict_get c stored = Some cells ->
          exists x : Cell,
            dict_get c
              (save_results get_family_name args probing_acc probing_loss
                 ooo_choices (Some stored))
            = Some (cells ++ [x])%list) /\
      (incl assigned_columns (map fst stored) ->
       map fst (save_results get_family_name args probing_acc probing_loss
                  ooo_choices (Some stored))
       = map fst stored)).
Proof.
  split; [| split; [| split]].
  - unfold save_results. split.
    + apply make_results_df_NoDup. unfold fresh_columns.
      repeat (constructor; [simpl; intuition discriminate |]). constructor.
    + rewrite make_results_df_n_rows. apply make_results_df_lengths.
  - apply make_results_df_n_rows.
  - reflexivity.
  - intros stored Hwf Hne. unfold save_results.
    set (current :=
           make_results_df get_family_name (map fst stored) probing_acc
             probing_loss ooo_choices (arg_model args) (arg_module args)
             (arg_source args) (arg_regularization args) (arg_optim args)
             (arg_learning_rate args) (arg_alpha args) (arg_lmbda args)
             (arg_tau args) (arg_use_bias args)).
    assert (Hcur_keys : NoDup (map fst current))
      by (apply make_results_df_NoDup; apply Hwf).
    assert (Hcur_len : Forall (fun col => length (snd col) = 1%nat) current)
      by apply make_results_df_lengths.
    assert (Hcur_rows : n_rows current = 1%nat)
      by apply make_results_df_n_rows.
    destruct (concat_rows_well_formed stored current 1 Hwf Hcur_keys
                Hcur_len Hcur_rows) as [Hnd Hlen].
    assert (Hnext_ne : concat_rows stored current <> []).
    { unfold concat_rows. destruct stored; [now elim Hne | discriminate]. }
    assert (Hrows : n_rows (concat_rows stored current)
                    = S (n_rows stored)).
    { rewrite (n_rows_of_lengths _ _ Hnext_ne Hlen). lia. }
    split; [| split; [exact Hrows | split]].
    + split; [exact Hnd |]. rewrite Hrows.
      eapply Forall_impl; [| exact Hlen]. intros col Hcol. simpl in *. lia.
    + intros c cells Hc. unfold concat_rows.
      rewrite dict_get_app, dict_get_extended, Hc, Hcur_rows.
      assert (Hin : In c (map fst current)).
      { apply make_results_df_keeps_columns.
        apply dict_get_In. eauto. }
      apply dict_get_In in Hin. destruct Hin as [cs Hcs].
      unfold column_or_missing. rewrite Hcs.
      pose proof (dict_get_snd _ _ _ Hcs) as Hmem.
      rewrite Forall_forall in Hcur_len. specialize (Hcur_len _ Hmem).
      simpl in Hcur_len.
      destruct cs as [| x [| y cs]]; try discriminate. now exists x.
    + intros Hincl. rewrite concat_rows_keys.
      assert (Hkeys : map fst current = map fst stored)
        by (apply make_results_df_same_columns; exact Hincl).
      rewrite filter_none; [apply app_nil_r |].
      intros col Hin.
      assert (Hk : In (fst col) (map fst stored))
        by (rewrite <- Hkeys; now apply in_map).
      apply dict_get_In in Hk. destruct Hk as [v Hv].
      now rewrite Hv.
Qed.

End Saving.

(** A second call, on the frame a first call wrote. *)
Lemma save_results_appends_one_row_witness :
  n_rows (save_results (fun _ => "ResNet") ResultsSpec.args (Finite (3 # 4)%Q)
            (Finite (1 # 2)%Q) [2%Z]
            (Some (save_results (fun _ => "ResNet") ResultsSpec.args
                     (Finite (3 # 4)%Q) (Finite (1 # 2)%Q) [2%Z] None)))
  = 2%nat.
Proof.
  destruct (save_results_appends_one_row (fun _ => "ResNet")
              ResultsSpec.args (Finite (3 # 4)%Q) (Finite (1 # 2)%Q) [2%Z])
    as [Hwf [Hone [_ Hnext]]].
  destruct (Hnext _ Hwf ltac:(discriminate)) as [_ [Hrows _]].
  rewrite Hrows, Hone. reflexivity.
Defined.

End FrameFacts.

(** *** The family patterns *)

Module ReFacts.

Import Re FamiliesSpec FamiliesParsed.

Lemma strip_app (w s : list ascii) : strip w (w ++ s) = Some s.
Proof.
  induction w as [| c w IH]; simpl; [reflexivity |].
  now rewrite Ascii.eqb_refl.
Qed.

Lemma strip_spec (w s rest : list ascii) :
  strip w s = Some rest <-> s = w ++ rest.
Proof.
  split.
  - revert s. induction w as [| c w IH]; intros s; simpl.
    + congruence.
    + destruct s as [| x s]; [discriminate |].
      destruct (Ascii.eqb_spec x c) as [-> | _]; [| discriminate].
      intros H. now rewrite (IH _ H).
  - intros ->. apply strip_app.
Qed.

Lemma matches_letters (w : list ascii) (r : regex)
  (k : bool -> list ascii -> bool) (bol : bool) (s : list ascii) :
  matches (fold_right (fun c r' => Seq (One (Char c)) r') r w) k bol s
  = match strip w s with
    | Some rest =>
        matches r k (match w with [] => bol | _ :: _ => false end) rest
    | None => false
    end.
Proof.
  revert bol s. induction w as [| c w IH]; intros bol s; [reflexivity |].
  cbn [fold_right matches strip]. destruct s as [| x s]; [reflexivity |].
  cbn [accepts]. destruct (Ascii.eqb x c); [| reflexivity].
  cbn [andb]. rewrite IH. destruct (strip w s); [| reflexivity].
  now destruct w.
Qed.

Lemma matches_word (w : string) (k : bool -> list ascii -> bool)
  (bol : bool) (s : list ascii) :
  w <> EmptyString ->
  matches (word w Empty) k bol s
  = match strip (list_ascii_of_string w) s with
    | Some rest => k false rest
    | None => false
    end.
Proof.
  intros Hw. unfold word. rewrite matches_letters.
  destruct w; [now elim Hw | reflexivity].
Qed.

Lemma starts_word (w : string) (bol : bool) (s : list ascii) :
  w <> EmptyString -> matches (word w Empty) anywhere bol s = starts w s.
Proof.
  intros Hw. rewrite (matches_word w anywhere bol s Hw). unfold starts.
  now destruct (strip _ s).
Qed.

Lemma star_ext (i : item) (k k' : bool -> list ascii -> bool) :
  (forall bol s, k bol s = k' bol s) ->
  forall bol s, star i k bol s = star i k' bol s.
Proof.
  intros H bol s. revert bol.
  induction s as [| c s IH]; intros bol; simpl; rewrite H; [reflexivity |].
  now rewrite IH.
Qed.

Lemma star_anywhere (i : item) (bol : bool) (s : list ascii) :
  star i anywhere bol s = true.
Proof. now destruct s. Qed.

(** A search looks at every position. *)
Lemma search_from_somewhere (r : regex) (test : list ascii -> bool) :
  (forall bol s, matches r anywhere bol s = test s) ->
  forall bol s, search_from r bol s = somewhere test s.
Proof.
  intros H bol s. revert bol.
  induction s as [| c s IH]; intros bol; simpl.
  - now rewrite <- (H bol).
  - now rewrite <- (H bol), IH.
Qed.

(** An anchored expression is found at the start or nowhere. *)
Lemma search_from_anchored (r : regex) :
  (forall s, matches r anywhere false s = false) ->
  forall bol s, search_from r bol s = bol && matches r anywhere true s.
Proof.
  intros H.
  assert (Hfalse : forall s, search_from r false s = false).
  { induction s as [| c s IH]; simpl.
    - now rewrite (H []).
    - now rewrite (H (c :: s)), IH. }
  intros [|] s.
  - destruct s as [| c s]; simpl.
    + now rewrite orb_false_r.
    + now rewrite Hfalse, orb_false_r.
  - apply Hfalse.
Qed.

Lemma search_from_alt (r1 r2 : regex) (bol : bool) (s : list ascii) :
  search_from (Alt r1 r2) bol s = search_from r1 bol s || search_from r2 bol s.
Proof.
  revert bol. induction s as [| c s IH]; intros bol; simpl.
  - now rewrite !orb_false_r.
  - rewrite IH.
    destruct (matches r1 _ bol _), (matches r2 _ bol _),
      (search_from r1 false s), (search_from r2 false s); reflexivity.
Qed.

Lemma search_from_ext (r r' : regex) :
  (forall bol s, matches r anywhere bol s = matches r' anywhere bol s) ->
  forall bol s, search_from r bol s = search_from r' bol s.
Proof.
  intros H bol s. revert bol.
  induction s as [| c s IH]; intros bol; simpl; rewrite (H bol);
    [reflexivity | now rewrite IH].
Qed.

(** *** What the spec predicates mean *)

Lemma starts_spec (w : string) (s : list ascii) :
  starts w s = true <-> exists rest, s = list_ascii_of_string w ++ rest.
Proof.
  unfold starts. split.
  - destruct (strip _ s) as [rest |] eqn:H; [| discriminate].
    intros _. exists rest. now apply strip_spec.
  - intros [rest ->]. now rewrite strip_app.
Qed.

Lemma somewhere_spec (test : list ascii -> bool) (s : list ascii) :
  somewhere test s = true
  <-> exists before rest, s = before ++ rest /\ test rest = true.
Proof.
  split.
  - induction s as [| c s IH]; simpl.
    + rewrite orb_false_r. intros H. now exists [], [].
    + intros H. apply orb_true_iff in H. destruct H as [H | H].
      * now exists [], (c :: s).
      * destruct (IH H) as [before [rest [-> Ht]]].
        now exists (c :: before), rest.
  - intros [before [rest [-> Ht]]].
    induction before as [| c before IH]; simpl.
    + destruct rest; simpl; rewrite Ht; reflexivity.
    + rewrite IH. apply orb_true_r.
Qed.

Lemma contains_spec (w : string) (s : list ascii) :
  contains w s = true
  <-> exists before rest, s = before ++ list_ascii_of_string w ++ rest.
Proof.
  unfold contains. rewrite somewhere_spec. split.
  - intros [before [rest [-> H]]]. apply starts_spec in H.
    destruct H as [rest' ->]. now exists before, rest'.
  - intros [before [rest ->]]. exists before, (list_ascii_of_string w ++ rest).
    split; [reflexivity |]. apply starts_spec. now exists rest.
Qed.

Lemma at_end_spec (s : list ascii) :
  at_end s = true <-> s = [] \/ s = [newline].
Proof.
  destruct s as [| c [| d s]]; simpl.
  - tauto.
  - destruct (Ascii.eqb_spec c newline) as [-> | H].
    + tauto.
    + split; [discriminate | intros [H' | H']; congruence].
  - split; [discriminate | intros [H' | H']; discriminate].
Qed.

Lemma ends_here_spec (w : string) (s : list ascii) :
  ends_here w s = true
  <-> s = list_ascii_of_string w \/ s = list_ascii_of_string w ++ [newline].
Proof.
  unfold ends_here. split.
  - destruct (strip _ s) as [rest |] eqn:H; [| discriminate].
    apply strip_spec in H. intros He. apply at_end_spec in He.
    destruct He as [-> | ->]; subst s; [left; apply app_nil_r | now right].
  - intros [-> | ->].
    + rewrite <- (app_nil_r (list_ascii_of_string w)) at 2.
      now rewrite strip_app.
    + now rewrite strip_app.
Qed.

Lemma ends_line_spec (w : string) (s : list ascii) :
  ends_line w s = true
  <-> exists before,
      s = before ++ list_ascii_of_string w
      \/ s = before ++ list_ascii_of_string w ++ [newline].
Proof.
  unfold ends_line. rewrite somewhere_spec. split.
  - intros [before [rest [-> H]]]. apply ends_here_spec in H.
    exists before. destruct H as [-> | ->]; tauto.
  - intros [before [-> | ->]].
    + exists before, (list_ascii_of_string w). split; [reflexivity |].
      apply ends_here_spec. now left.
    + exists before, (list_ascii_of_string w ++ [newline]).
      split; [reflexivity |]. apply ends_here_spec. now right.
Qed.


(** *** Searching for the shapes the family patterns have *)

Lemma search_word (w : string) (bol : bool) (s : list ascii) :
  w <> EmptyString -> search_from (word w Empty) bol s = contains w s.
Proof.
  intros Hw. apply search_from_somewhere. intros b t.
  now apply starts_word.
Qed.

Lemma search_anchored_word (w : string) (s : list ascii) :
  w <> EmptyString -> search_from (Seq Bol (word w Empty)) true s = starts w s.
Proof.
  intros Hw. rewrite search_from_anchored by reflexivity.
  cbn [matches andb]. now apply starts_word.
Qed.

Lemma search_word_at_end (w : string) (bol : bool) (s : list ascii) :
  w <> EmptyString ->
  search_from (Seq (Group (word w Empty)) (Seq Eol Empty)) bol s
  = ends_line w s.
Proof.
  intros Hw. apply search_from_somewhere. intros b t.
  cbn [matches]. rewrite matches_word by exact Hw. unfold ends_here.
  destruct (strip _ t); [apply andb_true_r | reflexivity].
Qed.

Lemma ends_here_single_line (s : list ascii) :
  ends_here "-rn50" s = true -> single_line s = true.
Proof.
  intros H. apply ends_here_spec in H. destruct H as [-> | ->]; reflexivity.
Qed.

Lemma star_dot_rn50 (bol : bool) (s : list ascii) :
  star Dot (fun _ t => ends_here "-rn50" t) bol s
  = ends_line "-rn50" s && single_line s.
Proof.
  revert bol. induction s as [| c s IH]; intros bol; [reflexivity |].
  cbn [star accepts]. rewrite IH.
  change (ends_line "-rn50" (c :: s))
    with (ends_here "-rn50" (c :: s) || ends_line "-rn50" s).
  cbn [single_line].
  destruct (Ascii.eqb_spec c newline) as [-> | Hc].
  - change (ends_here "-rn50" (newline :: s)) with false.
    destruct s; [reflexivity | now rewrite andb_false_r].
  - cbn [negb andb].
    destruct (ends_here "-rn50" (c :: s)) eqn:He.
    + apply ends_here_single_line in He. cbn [single_line] in He.
      destruct (Ascii.eqb_spec c newline); [contradiction |].
      now rewrite He.
    + reflexivity.
Qed.

Lemma matches_rn50_tail (bol : bool) (s : list ascii) :
  matches rn50_tail anywhere bol s = ends_line "-rn50" s && single_line s.
Proof.
  unfold rn50_tail. cbn [matches]. rewrite <- star_dot_rn50 with (bol := bol).
  apply star_ext. intros b t. rewrite matches_word by discriminate.
  unfold ends_here. destruct (strip _ t) as [rest |]; [| reflexivity].
  cbn [matches]. unfold anywhere. now destruct (at_end rest).
Qed.

Lemma search_method (head : regex) (test : list ascii -> bool)
  (s : list ascii) :
  (forall t, matches head anywhere true t = test t) ->
  search_from (method head) true s
  = test s && (ends_line "-rn50" s && single_line s).
Proof.
  intros H. rewrite search_from_anchored by reflexivity.
  unfold method. cbn [matches andb]. rewrite H, matches_rn50_tail.
  unfold anywhere. now rewrite andb_true_r.
Qed.

Lemma search_method_word (w : string) (s : list ascii) :
  w <> EmptyString ->
  search_from (method (word w Empty)) true s = ssl_method w s.
Proof.
  intros Hw. apply search_method. intros t. now apply starts_word.
Qed.

Lemma search_method_mocov (s : list ascii) :
  search_from (method (word "mocov" (Seq (Plus (Range "0" "9")) Empty)))
    true s
  = digit_after "mocov" s && ssl_method "mocov" s.
Proof.
  rewrite (search_method _ (digit_after "mocov")).
  - unfold ssl_method, digit_after, starts.
    destruct (strip _ s) as [[| c rest] |]; reflexivity.
  - intros t. unfold word. rewrite matches_letters. unfold digit_after.
    destruct (strip _ t) as [[| c rest] |]; try reflexivity.
    cbn [matches list_ascii_of_string].
    rewrite (star_ext _ _ anywhere) by reflexivity.
    now rewrite star_anywhere, andb_true_r.
Qed.

(** A group that is all of an expression can be dropped. *)
Lemma search_group (r : regex) (bol : bool) (s : list ascii) :
  search_from (Seq (Group r) Empty) bol s = search_from r bol s.
Proof.
  apply search_from_ext. reflexivity.
Qed.

End ReFacts.

(** *** The families *)

Module FamilyFacts.

Import Re Families FamiliesSpec FamiliesParsed ReFacts.

Lemma compile_getattr (family : Family) :
  compile (getattr family) = Some (parsed family).
Proof.
  destruct family; vm_compute; reflexivity.
Qed.

Lemma search_parsed (family : Family) (name : string) :
  Re.search (parsed family) name = describes family name.
Proof.
  unfold Re.search.
  destruct family; cbn [parsed describes];
    try (apply search_word; discriminate);
    try (apply search_anchored_word; discriminate);
    try (apply search_method_word; discriminate);
    try (apply search_word_at_end; discriminate);
    try apply search_method_mocov.
  - (* vit_in *)
    rewrite search_from_anchored by reflexivity.
    cbn [andb matches alternatives map fold_right].
    rewrite !starts_word by discriminate.
    cbn [existsb vit_in_prefixes]. now rewrite orb_false_r, !orb_assoc.
  - (* ssl_contrastive *)
    rewrite search_from_alt, !search_group.
    now rewrite search_method_word, search_method_mocov by discriminate.
  - (* ssl_non_contrastive *)
    rewrite !search_from_alt, !search_group.
    rewrite !search_method_word by discriminate. apply orb_assoc.
  - (* ssl_non_siamese *)
    rewrite search_from_alt, !search_group.
    now rewrite !search_method_word by discriminate.
  - (* cnn *)
    rewrite search_group, !search_from_alt.
    rewrite !search_word, search_anchored_word by discriminate.
    now rewrite !orb_assoc.
Qed.

Lemma comprehension_if_filter {A : Type} (test : A -> bool) (items : list A) :
  comprehension_if (fun x => Some (test x)) items = Some (filter test items).
Proof.
  induction items as [| x items IH]; simpl; [reflexivity |].
  rewrite IH. simpl. now destruct (test x).
Qed.

Lemma search_filter (models : list string) (family : Family) :
  Families.search models family
  = Some (filter (fun model => describes family (FromScratch.lower model))
            models).
Proof.
  unfold Families.search. rewrite compile_getattr. cbn [Py.bind].
  rewrite comprehension_if_filter. f_equal. apply filter_ext.
  intros model. apply search_parsed.
Qed.

(** X15.  [search] never raises on a pattern property, and what it selects
    can be said without regular expressions: it keeps, in their order, the
    models whose lower-case name is described by [describes] (a word at the
    start of the name, a word anywhere in it, or the ending [-rn50] of a
    one-line name). *)
Theorem search_selects_described (models : list string) (family : Family) :
  Families.search models family
  = Some (filter (fun model => describes family (FromScratch.lower model))
            models).
Proof.
  apply search_filter.
Qed.

Lemma In_children (models : list string) (family : Family) (model : string) :
  (exists children,
      Families.search models family = Some children /\ In model children)
  <-> In model models /\ describes family (FromScratch.lower model) = true.
Proof.
  rewrite search_filter. split.
  - intros [children [H Hin]]. injection H as <-.
    now apply filter_In in Hin.
  - intros H. eexists. split; [reflexivity |]. now apply filter_In.
Qed.

Lemma ssl_method_ends_line (w : string) (s : list ascii) :
  ssl_method w s = true -> ends_line "-rn50" s = true.
Proof.
  unfold ssl_method. intros H.
  apply andb_true_iff in H. destruct H as [_ H].
  apply andb_true_iff in H. tauto.
Qed.

Lemma ssl_method_starts (w : string) (s : list ascii) :
  ssl_method w s = true -> starts w s = true.
Proof.
  unfold ssl_method. intros H. apply andb_true_iff in H. tauto.
Qed.

(** Two words a text starts with: one starts with the other. *)
Lemma strip_two (w w' s : list ascii) :
  strip w s <> None -> strip w' s <> None ->
  strip w w' <> None \/ strip w' w <> None.
Proof.
  revert w' s. induction w as [| c w IH]; intros w' s H H'.
  - left. discriminate.
  - destruct w' as [| c' w']; [right; discriminate |].
    destruct s as [| x s]; [now elim H |]. simpl in *.
    destruct (Ascii.eqb_spec x c) as [-> | _]; [| now elim H].
    destruct (Ascii.eqb_spec c c') as [-> | _]; [| now elim H'].
    rewrite Ascii.eqb_refl. now apply (IH w' s).
Qed.

Lemma starts_two (w w' : string) (s : list ascii) :
  starts w s = true -> starts w' s = true ->
  starts w (list_ascii_of_string w') = true
  \/ starts w' (list_ascii_of_string w) = true.
Proof.
  unfold starts. intros H H'.
  destruct (strip_two (list_ascii_of_string w) (list_ascii_of_string w') s)
    as [Hw | Hw].
  - destruct (strip _ s); [discriminate | discriminate H].
  - destruct (strip (list_ascii_of_string w') s);
      [discriminate | discriminate H'].
  - left. destruct (strip _ (list_ascii_of_string w'));
      [reflexivity | now elim Hw].
  - right. destruct (strip _ (list_ascii_of_string w));
      [reflexivity | now elim Hw].
Qed.

Ltac split_methods H :=
  repeat match type of H with
         | (_ || _) = true =>
             apply orb_true_iff in H; destruct H as [H | H]
         | (digit_after _ _ && _) = true =>
             apply andb_true_iff in H; destruct H as [_ H]
         end.

Ltac clash H H' :=
  let Hc := fresh "Hc" in
  destruct (starts_two _ _ _ H H') as [Hc | Hc];
  vm_compute in Hc; discriminate Hc.

Lemma methods_apart (f g : Family) (name : string) :
  In (f, g)
    [ (Ssl_contrastive, Ssl_non_contrastive);
      (Ssl_contrastive, Ssl_non_siamese);
      (Ssl_non_contrastive, Ssl_non_siamese) ] ->
  describes f name = true -> describes g name = true -> False.
Proof.
  intros Hin Hf Hg.
  repeat (destruct Hin as [Hin | Hin];
          [injection Hin as <- <-;
           cbn [describes] in Hf, Hg; split_methods Hf; split_methods Hg;
           apply ssl_method_starts in Hf; apply ssl_method_starts in Hg;
           clash Hf Hg |]).
  destruct Hin.
Qed.

(** X16.  The three kinds of self-supervised models are kinds of [ssl]
    models, and no model is of two kinds: the contrastive, non-contrastive
    and non-siamese children are children of [ssl], and they are pairwise
    disjoint. *)
Theorem ssl_kinds_within_ssl (models : list string) :
  exists all contrastive non_contrastive non_siamese : list string,
    ssl_children models = Some all /\
    ssl_contrastive_children models = Some contrastive /\
    ssl_non_contrastive_children models = Some non_contrastive /\
    ssl_non_siamese_children models = Some non_siamese /\
    incl contrastive all /\ incl non_contrastive all /\
    incl non_siamese all /\
    (forall model, In model contrastive -> ~ In model non_contrastive) /\
    (forall model, In model contrastive -> ~ In model non_siamese) /\
    (forall model, In model non_contrastive -> ~ In model non_siamese).
Proof.
  unfold ssl_children, ssl_contrastive_children,
    ssl_non_contrastive_children, ssl_non_siamese_children.
  rewrite !search_filter. do 4 eexists.
  do 4 (split; [reflexivity |]).
  repeat split.
  - intros model H. apply filter_In in H. destruct H as [Hin H].
    apply filter_In. split; [exact Hin |].
    cbn [describes] in *. split_methods H;
      exact (ssl_method_ends_line _ _ H).
  - intros model H. apply filter_In in H. destruct H as [Hin H].
    apply filter_In. split; [exact Hin |].
    cbn [describes] in *. split_methods H;
      exact (ssl_method_ends_line _ _ H).
  - intros model H. apply filter_In in H. destruct H as [Hin H].
    apply filter_In. split; [exact Hin |].
    cbn [describes] in *. split_methods H;
      exact (ssl_method_ends_line _ _ H).
  - intros model H H'. apply filter_In in H, H'.
    destruct H as [_ H], H' as [_ H'].
    apply (methods_apart Ssl_contrastive Ssl_non_contrastive _
             ltac:(simpl; tauto) H H').
  - intros model H H'. apply filter_In in H, H'.
    destruct H as [_ H], H' as [_ H'].
    apply (methods_apart Ssl_contrastive Ssl_non_siamese _
             ltac:(simpl; tauto) H H').
  - intros model H H'. apply filter_In in H, H'.
    destruct H as [_ H], H' as [_ H'].
    apply (methods_apart Ssl_non_contrastive Ssl_non_siamese _
             ltac:(simpl; tauto) H H').
Qed.

(** X17.  The [cnn] family is the union of four families: a model is a
    child of [cnn] exactly when it is a child of [alexnet], [vgg], [resnet]
    or [resnext]. *)
Theorem cnn_children_is_union (models : list string) :
  exists cnns alexnets vggs resnets resnexts : list string,
    cnn_children models = Some cnns /\
    alexnet_children models = Some alexnets /\
    vgg_children models = Some vggs /\
    resnet_children models = Some resnets /\
    resnext_children models = Some resnexts /\
    (forall model,
        In model cnns
        <-> In model alexnets \/ In model vggs \/ In model resnets
            \/ In model resnexts).
Proof.
  unfold cnn_children, alexnet_children, vgg_children, resnet_children,
    resnext_children.
  rewrite !search_filter. do 5 eexists.
  do 5 (split; [reflexivity |]).
  intros model. rewrite !filter_In. cbn [describes].
  rewrite !orb_true_iff. tauto.
Qed.

Lemma anchored_apart (f g : Family) (name : string) :
  In f anchored -> In g anchored -> f <> g ->
  describes f name = true -> describes g name = true -> False.
Proof.
  intros Hf Hg Hne Df Dg. unfold anchored in Hf, Hg.
  repeat (destruct Hf as [<- | Hf]);
    try (destruct Hf);
    repeat (destruct Hg as [<- | Hg]);
    try (destruct Hg);
    try (now elim Hne);
    cbn [describes existsb vit_in_prefixes] in Df, Dg;
    split_methods Df; split_methods Dg;
    try discriminate;
    clash Df Dg.
Qed.

(** X18.  The families whose pattern is anchored at the start of the name
    (the two ViT families, Inception, Align, Basic, DenseNet, MobileNet,
    NasNet, PNasNet, ResNet) do not overlap: no model is a child of two of
    them. *)
Theorem anchored_families_disjoint (models : list string) (f g : Family)
  (children_f children_g : list string) (model : string)
  (Hf : In f anchored) (Hg : In g anchored) (Hne : f <> g)
  (Sf : Families.search models f = Some children_f)
  (Sg : Families.search models g = Some children_g) :
  In model children_f -> ~ In model children_g.
Proof.
  rewrite search_filter in Sf, Sg. injection Sf as <-. injection Sg as <-.
  intros H H'. apply filter_In in H, H'.
  exact (anchored_apart f g _ Hf Hg Hne (proj2 H) (proj2 H')).
Qed.

End FamilyFacts.

(** The children of ResNet and ViT-JFT among four models. *)
Lemma anchored_families_disjoint_witness :
  Families.search ["ResNet50"; "vit-g-14"; "ResNext"; "VGG16"]%string
    Families.Resnet
  = Some ["ResNet50"%string] /\
  ~ In "ResNet50"%string ["vit-g-14"%string].
Proof.
  split; [reflexivity |].
  apply (FamilyFacts.anchored_families_disjoint
           ["ResNet50"; "vit-g-14"; "ResNext"; "VGG16"]%string
           Families.Resnet Families.Vit_jft
           ["ResNet50"%string] ["vit-g-14"%string] "ResNet50"%string).
  - unfold FamiliesSpec.anchored. simpl. tauto.
  - unfold FamiliesSpec.anchored. simpl. tauto.
  - discriminate.
  - reflexivity.
  - reflexivity.
  - simpl. tauto.
Defined.

(** *** The SUN397 split files *)

Module DataFacts.

Import Data DataSpec.

Local Open Scope string_scope.

Lemma append_assoc (a b c : string) : (a ++ b) ++ c = a ++ (b ++ c).
Proof.
  induction a as [| x a IH]; simpl; [reflexivity | now rewrite IH].
Qed.

Lemma split_not_nil (sep : ascii) (s : string) : split sep s <> [].
Proof.
  destruct s as [| c s]; simpl; [discriminate |].
  destruct (Ascii.eqb c sep); [discriminate |].
  destruct (split sep s); discriminate.
Qed.

(** A string without the separator is one part. *)
Lemma split_one (sep : ascii) (s : string) :
  occurs sep s = false -> split sep s = [s].
Proof.
  induction s as [| c s IH]; simpl; [reflexivity |].
  intros H. apply orb_false_iff in H. destruct H as [Hc Hs].
  rewrite Hc, (IH Hs). reflexivity.
Qed.

(** Splitting goes through a separator. *)
Lemma split_app (sep : ascii) (a b : string) :
  split sep (a ++ String sep b) = (split sep a ++ split sep b)%list.
Proof.
  induction a as [| c a IH]; simpl.
  - now rewrite Ascii.eqb_refl.
  - rewrite IH. destruct (Ascii.eqb c sep); [reflexivity |].
    pose proof (split_not_nil sep a) as Hne.
    destruct (split sep a); [now elim Hne | reflexivity].
Qed.

(** Joining the parts gives the string back. *)
Lemma join_split (sep : ascii) (s : string) :
  join (String sep "") (split sep s) = s.
Proof.
  induction s as [| c s IH]; [reflexivity |].
  pose proof (split_not_nil sep s) as Hne. cbn [split].
  destruct (Ascii.eqb_spec c sep) as [-> | Hc].
  - destruct (split sep s) as [| part parts]; [now elim Hne |].
    change (join (String sep "") ("" :: part :: parts))
      with (String sep (join (String sep "") (part :: parts))).
    now rewrite IH.
  - destruct (split sep s) as [| part parts]; [now elim Hne |].
    destruct parts as [| part' parts].
    + simpl in *. now rewrite IH.
    + change (join (String sep "") (String c part :: part' :: parts))
        with (String c (join (String sep "") (part :: part' :: parts))).
      now rewrite IH.
Qed.

Section Entries.

Variable e : Entry.
Hypothesis He : well_formed_entry e.

(** The class of a line is what stands between the letter and the file
    name, slashes included. *)
Lemma class_of_line :
  join "/" (middle (split "/" (line e))) = class e.
Proof.
  destruct He as [_ [Hl [Hf _]]]. unfold line.
  change ("/" ++ letter e ++ "/" ++ class e ++ "/" ++ file e)
    with ("" ++ String "/"
                  (letter e ++ String "/" (class e ++ String "/" (file e)))).
  rewrite !split_app. rewrite (split_one _ _ Hl), (split_one _ _ Hf).
  cbn [split app]. unfold middle.
  change ("" :: letter e :: (split "/" (class e) ++ [file e])%list)
    with (["" ; letter e] ++ (split "/" (class e) ++ [file e]))%list.
  rewrite app_assoc, removelast_last.
  cbn [app skipn]. apply join_split.
Qed.

Lemma line_not_empty : String.eqb (line e) "" = false.
Proof. reflexivity. Qed.

Lemma occurs_app (c : ascii) (a b : string) :
  occurs c (a ++ b) = occurs c a || occurs c b.
Proof.
  induction a as [| x a IH]; simpl; [reflexivity |].
  now rewrite IH, orb_assoc.
Qed.

Lemma line_one_line : occurs "010" (line e) = false.
Proof.
  destruct He as [_ [_ [_ [Hl [Hc Hf]]]]]. unfold line.
  rewrite !occurs_app, Hl, Hc, Hf. reflexivity.
Qed.

Lemma drop_first_line : drop_first (line e) = relative e.
Proof. reflexivity. Qed.

End Entries.

Lemma split_file_lines (entries : list Entry) :
  Forall well_formed_entry entries ->
  split "010" (split_file_of entries) = (map line entries ++ [""])%list.
Proof.
  induction 1 as [| e entries He _ IH]; [reflexivity |].
  cbn [split_file_of fold_right map].
  change (line e ++ newline
          ++ fold_right (fun e0 rest => line e0 ++ newline ++ rest) ""
               entries)
    with (line e ++ String "010" (split_file_of entries)).
  rewrite split_app, (split_one _ _ (line_one_line e He)), IH. reflexivity.
Qed.

Lemma file_names_of_split_file (entries : list Entry) :
  Forall well_formed_entry entries ->
  filter (fun l => negb (String.eqb l ""))
    (split "010" (split_file_of entries))
  = map line entries.
Proof.
  intros H. rewrite (split_file_lines entries H), filter_app.
  cbn [filter String.eqb negb]. rewrite app_nil_r.
  clear H. induction entries as [| e entries IH]; [reflexivity |].
  cbn [map filter]. rewrite line_not_empty. cbn [negb]. now rewrite IH.
Qed.

Section Loading.

Context {Transform Embedding Torchvision : Type}.

Variable CIFAR100 :
  string -> bool -> option Transform -> Result Torchvision.
Variable DTD : string -> string -> option Transform -> Result Torchvision.
Variable SUN397 : string -> option Transform -> Result Sun397.
Variable read : string -> Result string.

Variables (data_dir : string) (train : bool) (transform : option Transform).
Variable embeddings : option (list (string * Embedding)).

Lemma labels_of_lines (class_to_idx : list (string * Z))
  (entries : list Entry) (indices : list Z) :
  Forall well_formed_entry entries ->
  Forall2 (fun e i => Results.dict_get (class e) class_to_idx = Some i)
    entries indices ->
  comprehension
    (fun path => getitem class_to_idx (join "/" (middle (split "/" path))))
    (map line entries)
  = inr indices.
Proof.
  intros Hwf H. induction H as [| e i entries indices Hi _ IH];
    [reflexivity |].
  inversion Hwf as [| ? ? He Hrest]; subst.
  cbn [map comprehension]. rewrite (class_of_line e He).
  unfold getitem at 1. rewrite Hi. cbn [try]. now rewrite (IH Hrest).
Qed.

(** X19.  [load_dataset] reads a SUN397 split file line by line: when
    torchvision builds the dataset and the split file is read as lines
    [/<letter>/<class>/<file>], the label of a line is the index of its
    class (the directories between the letter and the file name, however
    many), and the image file is the line without its leading slash, under
    the data directory. *)
Theorem load_dataset_sun397_follows_split_file (built : Sun397)
  (entries : list Entry) (indices : list Z)
  (Hwf : Forall well_formed_entry entries)
  (Hbuilt : SUN397 data_dir transform = inr built)
  (Hread :
     read (os_path_join (root built)
             (if train then "Training_01.txt" else "Testing_01.txt"))
     = inr (split_file_of entries))
  (Hidx :
     Forall2
       (fun e i => Results.dict_get (class e) (class_to_idx built) = Some i)
       entries indices) :
  load_dataset CIFAR100 DTD SUN397 read "SUN397" data_dir train transform
    embeddings
  = inr {| instance :=
             OfSun397
               {| root := root built;
                  _data_dir := _data_dir built;
                  class_to_idx := class_to_idx built;
                  _image_files :=
                    map (fun e => os_path_join (_data_dir built) (relative e))
                      entries;
                  _labels := indices;
                  target_transform := target_transform built |};
           embedded := embeddings |}.
Proof.
  unfold load_dataset. cbn [String.eqb Ascii.eqb].
  rewrite Hbuilt. cbn [try]. cbv zeta. rewrite Hread. cbn [try].
  rewrite (file_names_of_split_file entries Hwf).
  rewrite (labels_of_lines _ entries indices Hwf Hidx). cbn [try].
  now rewrite map_map.
Qed.

Lemma comprehension_getitem (d : list (string * Z)) (key_of : string -> string)
  (names : list string) (labels : list Z) :
  comprehension (fun path => getitem d (key_of path)) names = inr labels ->
  Forall2 (fun path label => In (key_of path, label) d) names labels.
Proof.
  revert labels. induction names as [| path names IH]; intros labels;
    cbn [comprehension].
  - intros H. injection H as <-. constructor.
  - unfold getitem at 1.
    destruct (Results.dict_get _ d) as [label |] eqn:Hl; [| discriminate].
    cbn [try].
    destruct (comprehension _ names) as [err | rest]; [discriminate |].
    cbn [try]. intros H. injection H as <-. constructor.
    + now apply DictFacts.dict_get_snd.
    + now apply IH.
Qed.

(** X20.  Whatever the split file holds, when [load_dataset] returns a
    SUN397 dataset there is one image file and one label for each
    non-empty line of the file, every label is the index of a class the
    dataset knows, the classes and directories are those torchvision set
    up; and the embeddings are the ones that were passed. *)
Theorem load_dataset_sun397_one_label_per_line (dataset : Dataset)
  (H : load_dataset CIFAR100 DTD SUN397 read "SUN397" data_dir train
         transform embeddings
       = inr dataset) :
  exists (built sun : Sun397) (lines : string),
    SUN397 data_dir transform = inr built /\
    instance dataset = OfSun397 sun /\
    embedded dataset = embeddings /\
    read (os_path_join (root built)
            (if train then "Training_01.txt" else "Testing_01.txt"))
    = inr lines /\
    length (_image_files sun)
    = length (filter (fun l => negb (String.eqb l ""))
                (split "010" lines)) /\
    length (_labels sun) = length (_image_files sun) /\
    Forall (fun label => exists key, In (key, label) (class_to_idx sun))
      (_labels sun) /\
    class_to_idx sun = class_to_idx built /\
    _data_dir sun = _data_dir built.
Proof.
  unfold load_dataset in H. cbn [String.eqb Ascii.eqb] in H.
  destruct (SUN397 data_dir transform) as [err | built] eqn:Hbuilt;
    [discriminate |].
  cbn [try] in H. cbv zeta in H.
  destruct (read _) as [err | lines] eqn:Hread; [discriminate |].
  cbn [try] in H.
  destruct (comprehension _ _) as [err | labels] eqn:Hlabels;
    [discriminate |].
  cbn [try] in H. injection H as <-. exists built. eexists. exists lines.
  split; [reflexivity |]. split; [reflexivity |]. split; [reflexivity |].
  split; [exact Hread |].
  cbn [_image_files _labels class_to_idx _data_dir].
  apply comprehension_getitem in Hlabels.
  split; [apply length_map |]. split.
  - rewrite length_map. symmetry. exact (Forall2_length Hlabels).
  - split; [| split; reflexivity].
    clear Hread. induction Hlabels as [| path label names labels Hin _ IH];
      constructor; eauto.
Qed.

Lemma index_nth {A : Type} (l : list A) (k : nat) (x : A) :
  nth_error l k = Some x -> index l (Z.of_nat k) = inr x.
Proof.
  intros H. unfold index.
  assert (Hk : (k < length l)%nat)
    by (apply nth_error_Some; congruence).
  destruct (Z.ltb_spec (Z.of_nat k) 0) as [Hneg | _]; [lia |].
  destruct (Z.leb_spec 0 (Z.of_nat k)) as [_ | Hneg]; [| lia].
  destruct (Z.ltb_spec (Z.of_nat k) (Z.of_nat (length l))) as [_ | Hbig];
    [| lia].
  cbn [andb]. now rewrite Nat2Z.id, H.
Qed.

(** X21.  An item of the embedded SUN397 dataset is the embedding and the
    class of one line of the split file: at position [k] the dataset that
    [load_dataset] returns gives the embedding stored under the image file
    of the line [k], with the index of the class of that line (passed
    through the target transform, if torchvision's instance has one). *)
Theorem embedded_item_of_split_line (built : Sun397)
  (entries : list Entry) (indices : list Z)
  (stored : list (string * Embedding)) (k : nat)
  (e : Entry) (i : Z) (v : Embedding)
  (Hwf : Forall well_formed_entry entries)
  (Hbuilt : SUN397 data_dir transform = inr built)
  (Hread :
     read (os_path_join (root built)
             (if train then "Training_01.txt" else "Testing_01.txt"))
     = inr (split_file_of entries))
  (Hidx :
     Forall2
       (fun e i => Results.dict_get (class e) (class_to_idx built) = Some i)
       entries indices)
  (He : nth_error entries k = Some e)
  (Hi : nth_error indices k = Some i)
  (Hv : Results.dict_get (os_path_join (_data_dir built) (relative e)) stored
        = Some v) :
  exists sun : Sun397,
    load_dataset CIFAR100 DTD SUN397 read "SUN397" data_dir train transform
      (Some stored)
    = inr {| instance := OfSun397 sun; embedded := Some stored |} /\
    embed_getitem stored sun (Z.of_nat k)
    = inr (v,
           match target_transform built with
           | Some target => target i
           | None => i
           end).
Proof.
  eexists. split.
  - unfold load_dataset. cbn [String.eqb Ascii.eqb].
    rewrite Hbuilt. cbn [try]. cbv zeta. rewrite Hread. cbn [try].
    rewrite (file_names_of_split_file entries Hwf).
    rewrite (labels_of_lines _ entries indices Hwf Hidx). cbn [try].
    rewrite map_map. reflexivity.
  - unfold embed_getitem. cbn [_labels _image_files target_transform].
    rewrite (index_nth _ _ _ Hi). cbn [try].
    erewrite index_nth
      by (rewrite nth_error_map, He; cbn [option_map];
          rewrite drop_first_line; reflexivity).
    cbn [try]. unfold getitem. rewrite Hv. reflexivity.
Qed.

Lemma comprehension_getitem_raises (d : list (string * Z))
  (key_of : string -> string) (names : list string) (err : Error) :
  comprehension (fun path => getitem d (key_of path)) names = inl err ->
  exists key, err = KeyError key /\ Results.dict_get key d = None.
Proof.
  induction names as [| path names IH]; cbn [comprehension];
    [discriminate |].
  unfold getitem at 1. destruct (Results.dict_get _ d) eqn:Hkey.
  - cbn [try]. destruct (comprehension _ names) as [err' |];
      [| discriminate].
    cbn [try]. intros H. injection H as <-. now apply IH.
  - cbn [try]. intros H. injection H as <-. eauto.
Qed.

Lemma in_names (name : string) :
  In name ["cifar100"; "DTD"; "SUN397"]
  <-> String.eqb name "cifar100" = true \/ String.eqb name "DTD" = true
      \/ String.eqb name "SUN397" = true.
Proof.
  rewrite !String.eqb_eq. simpl. intuition congruence.
Qed.

(** X24.  Where the exceptions of [load_dataset] come from.  For a name
    that is none of [cifar100], [DTD] and [SUN397] (the names are taken
    literally, so another spelling of these is refused) it raises its own
    [ValueError], whatever torchvision and the file system would do.  For
    one of the three names, what it raises is what the torchvision
    constructor of that name raises or, for [SUN397], what reading the
    split file raises or the [KeyError] of a class that [class_to_idx] does
    not have. *)
Theorem load_dataset_raises (name : string) :
  (~ In name ["cifar100"; "DTD"; "SUN397"] ->
   load_dataset CIFAR100 DTD SUN397 read name data_dir train transform
     embeddings
   = inl (ValueError (newline ++ "Unknown dataset" ++ newline))) /\
  (forall err : Error,
      In name ["cifar100"; "DTD"; "SUN397"] ->
      load_dataset CIFAR100 DTD SUN397 read name data_dir train transform
        embeddings
      = inl err ->
      (name = "cifar100" /\ CIFAR100 data_dir train transform = inl err) \/
      (name = "DTD" /\
       DTD data_dir (if train then "train" else "test") transform = inl err)
      \/
      (name = "SUN397" /\
       (SUN397 data_dir transform = inl err \/
        exists built : Sun397,
          SUN397 data_dir transform = inr built /\
          (read (os_path_join (root built)
                   (if train then "Training_01.txt" else "Testing_01.txt"))
           = inl err \/
           exists key : string,
             err = KeyError key /\
             Results.dict_get key (class_to_idx built) = None)))).
Proof.
  rewrite in_names. unfold load_dataset.
  destruct (String.eqb_spec name "cifar100") as [-> | Hc].
  { split; [intros H; elim H; tauto |]. intros err _ H. left.
    split; [reflexivity |].
    destruct (CIFAR100 data_dir train transform);
      [cbn [try] in H; now injection H as -> | discriminate H]. }
  destruct (String.eqb_spec name "DTD") as [-> | Hd].
  { split; [intros H; elim H; tauto |]. intros err _ H. right. left.
    split; [reflexivity |].
    destruct (DTD data_dir _ transform);
      [cbn [try] in H; now injection H as -> | discriminate H]. }
  destruct (String.eqb_spec name "SUN397") as [-> | Hs].
  - split; [intros H; elim H; tauto |]. intros err _ H. right. right.
    split; [reflexivity |].
    destruct (SUN397 data_dir transform) as [err' | built];
      [left; cbn [try] in H; now injection H as -> |].
    right. exists built. split; [reflexivity |].
    cbn [try] in H. cbv zeta in H.
    destruct (read _) as [err' | lines];
      [left; cbn [try] in H; now injection H as -> |].
    right. cbn [try] in H.
    destruct (comprehension _ _) as [err' |] eqn:Hlabels; [| discriminate].
    cbn [try] in H. injection H as <-.
    exact (comprehension_getitem_raises _ _ _ _ Hlabels).
  - split; [reflexivity |]. intros err H _. simpl in H.
    intuition congruence.
Qed.

End Loading.

End DataFacts.

(** The demo directory: two lines, the second of a class two directories
    deep. *)
Lemma load_dataset_sun397_follows_split_file_witness :
  Data.load_dataset DemoData.CIFAR100 DemoData.DTD DemoData.SUN397
    DemoData.read "SUN397" "data" true None (Some DemoData.embeddings)
  = inr {| Data.instance :=
             Data.OfSun397
               {| Data.root := "data"%string;
                  Data._data_dir := "data/SUN397"%string;
                  Data.class_to_idx :=
                    Data.class_to_idx (DemoData.sun397 "data");
                  Data._image_files :=
                    [ "data/SUN397/a/abbey/sun_aaa.jpg"%string;
                      ("data/SUN397/a/apartment_building/outdoor/"
                       ++ "sun_bbb.jpg")%string ];
                  Data._labels := [0%Z; 1%Z];
                  Data.target_transform := None |};
           Data.embedded := Some DemoData.embeddings |}.
Proof.
  apply (DataFacts.load_dataset_sun397_follows_split_file
           DemoData.CIFAR100 DemoData.DTD DemoData.SUN397 DemoData.read
           "data" true None (Some DemoData.embeddings)
           (DemoData.sun397 "data") DemoData.entries [0%Z; 1%Z]).
  - repeat constructor; discriminate.
  - reflexivity.
  - reflexivity.
  - repeat constructor.
Defined.

Lemma load_dataset_sun397_one_label_per_line_witness :
  exists (sun : Data.Sun397) (lines : string),
    Data._labels sun = [0%Z; 1%Z] /\
    length (Data._image_files sun)
    = length (filter (fun l => negb (String.eqb l ""))
                (Data.split "010" lines)) /\
    length (Data._labels sun) = length (Data._image_files sun).
Proof.
  destruct (DataFacts.load_dataset_sun397_one_label_per_line
              DemoData.CIFAR100 DemoData.DTD DemoData.SUN397 DemoData.read
              "data" true None (Some DemoData.embeddings) _ eq_refl)
    as [built [sun [lines [_ [Hsun [_ [_ [Hfiles [Hlabels _]]]]]]]]].
  exists sun, lines. injection Hsun as <-. repeat split; assumption.
Defined.

Lemma embedded_item_of_split_line_witness :
  exists sun : Data.Sun397,
    Data.load_dataset DemoData.CIFAR100 DemoData.DTD DemoData.SUN397
      DemoData.read "SUN397" "data" true None (Some DemoData.embeddings)
    = inr {| Data.instance := Data.OfSun397 sun;
             Data.embedded := Some DemoData.embeddings |} /\
    Data.embed_getitem DemoData.embeddings sun 1 = inr (8%nat, 1%Z).
Proof.
  apply (DataFacts.embedded_item_of_split_line
           DemoData.CIFAR100 DemoData.DTD DemoData.SUN397 DemoData.read
           "data" true None (DemoData.sun397 "data") DemoData.entries
           [0%Z; 1%Z] DemoData.embeddings 1%nat
           {| DataSpec.letter := "a";
              DataSpec.class := "apartment_building/outdoor";
              DataSpec.file := "sun_bbb.jpg" |}
           1%Z 8%nat).
  - repeat constructor; discriminate.
  - reflexivity.
  - reflexivity.
  - repeat constructor.
  - reflexivity.
  - reflexivity.
  - reflexivity.
Defined.

(** Another spelling is refused; the texture dataset passes on what its
    constructor raises; the missing test split of SUN397 is the error of
    the read. *)
Lemma load_dataset_raises_witness :
  Data.load_dataset DemoData.CIFAR100 DemoData.DTD DemoData.SUN397
    DemoData.read "sun397" "data" true None (Some DemoData.embeddings)
  = inl (Data.ValueError
           (Data.newline ++ "Unknown dataset" ++ Data.newline)) /\
  DemoData.DTD "data" "train" None
  = inl (Data.RuntimeError "Dataset not found") /\
  Data.load_dataset DemoData.CIFAR100 DemoData.DTD DemoData.SUN397
    DemoData.read "SUN397" "data" false None (Some DemoData.embeddings)
  = inl (Data.OSError "data/Testing_01.txt").
Proof.
  split.
  - apply (DataFacts.load_dataset_raises
             DemoData.CIFAR100 DemoData.DTD DemoData.SUN397 DemoData.read
             "data" true None (Some DemoData.embeddings) "sun397").
    simpl. intuition discriminate.
  - destruct (proj2 (DataFacts.load_dataset_raises
                       DemoData.CIFAR100 DemoData.DTD DemoData.SUN397
                       DemoData.read "data" true None
                       (Some DemoData.embeddings) "DTD")
                _ ltac:(simpl; tauto) eq_refl)
      as [[H _] | [[_ H] | [H _]]]; try discriminate H.
    split; [exact H | reflexivity].
Defined.

(** *** The choice accuracy against the predictions *)

Module AccuracyFacts.

Import Torch FromScratch Spec PredictionSpec.

Lemma row_choice_and_argmax (pmf : Vec) :
  length pmf = 3%nat ->
  exists c r : Z,
    break_tie pmf = Some c /\ argmax pmf = Some r /\
    (c = (-1)%Z \/ c = r) /\ (r = 0 \/ r = 1 \/ r = 2)%Z.
Proof.
  intros H3.
  assert (Hne : pmf <> []) by (intros ->; discriminate).
  destruct (TorchFacts.argmax_is_argmax pmf Hne) as [r [Hr [Hrange _]]].
  rewrite H3 in Hrange. unfold break_tie. rewrite Hr.
  destruct (negb _ || _).
  - exists (-1)%Z, r. repeat split; try tauto. lia.
  - exists r, r. repeat split; try tauto. lia.
Qed.

Lemma rows_choices_and_argmax (probas : Matrix) :
  Forall (fun pmf => length pmf = 3%nat) probas ->
  exists choices raw : list Z,
    break_ties probas = Some choices /\
    Py.mapM argmax probas = Some raw /\
    Forall2 (fun c r => (c = (-1)%Z \/ c = r) /\ (r = 0 \/ r = 1 \/ r = 2)%Z)
      choices raw.
Proof.
  unfold break_ties. induction 1 as [| pmf probas H3 _ IH].
  - exists [], []. repeat split. constructor.
  - destruct IH as [choices [raw [Hc [Hr Hall]]]].
    destruct (row_choice_and_argmax pmf H3) as [c [r [Hbc [Har Hcr]]]].
    exists (c :: choices), (r :: raw). cbn [Py.mapM].
    rewrite Hbc, Har, Hc, Hr. repeat split. now constructor.
Qed.

Lemma zeros_below_negatives (choices raw : list Z) :
  Forall2 (fun c r => (c = (-1)%Z \/ c = r) /\ (r = 0 \/ r = 1 \/ r = 2)%Z)
    choices raw ->
  length choices = length (convert_predictions raw) /\
  (count_occ Z.eq_dec choices 0%Z
   <= count_occ Z.eq_dec (convert_predictions raw) 2%Z)%nat /\
  (Forall (fun c => c <> (-1)%Z) choices ->
   count_occ Z.eq_dec choices 0%Z
   = count_occ Z.eq_dec (convert_predictions raw) 2%Z).
Proof.
  induction 1 as [| c r choices raw [Hc Hr] _ [IHlen [IHle IHeq]]].
  - repeat split. constructor.
  - rewrite ConvertFacts.convert_predictions_cons.
    assert (Hconv : convert_predictions [r] = [(2 - r)%Z])
      by (destruct Hr as [-> | [-> | ->]]; reflexivity).
    rewrite Hconv. cbn [app length count_occ].
    split; [now rewrite IHlen |]. split.
    + destruct (Z.eq_dec c 0), (Z.eq_dec (2 - r) 2); lia.
    + intros Hall. inversion Hall as [| ? ? Hc1 Hrest]; subst.
      specialize (IHeq Hrest).
      destruct (Z.eq_dec c 0), (Z.eq_dec (2 - r) 2); lia.
Qed.

(** X22.  The choice accuracy of a step is bounded by what the prediction
    step would say: on a batch of probability rows of three entries, the
    accuracy is the share of rows with choice 0, it is at most the share of
    rows whose odd-one-out prediction is index 2, and it is that share
    when the tie-break fires on no row. *)
Theorem accuracy_counts_predicted_negatives (probas : Matrix)
  (Hne : probas <> [])
  (H3 : Forall (fun pmf => length pmf = 3%nat) probas) :
  exists choices raw : list Z,
    break_ties probas = Some choices /\
    Py.mapM argmax probas = Some raw /\
    accuracy_ probas true = Some (AccMean (Finite (share_of_zero choices))) /\
    share_of_zero choices <= share_of_negatives (convert_predictions raw) /\
    (Forall (fun c => c <> (-1)%Z) choices ->
     share_of_zero choices == share_of_negatives (convert_predictions raw)).
Proof.
  destruct (rows_choices_and_argmax probas H3) as [choices [raw [Hc [Hr H]]]].
  destruct (zeros_below_negatives choices raw H) as [Hlen [Hle Heq]].
  exists choices, raw. split; [exact Hc |]. split; [exact Hr |].
  split; [now apply ChoiceAccuracy.accuracy_batched |].
  unfold share_of_zero, share_of_negatives. rewrite <- Hlen. split.
  - unfold Qdiv. apply Qmult_le_compat_r.
    + rewrite <- Zle_Qle. lia.
    + destruct choices as [| c choices].
      * destruct probas; [now elim Hne | discriminate].
      * apply Qlt_le_weak, Qinv_lt_0_compat.
        change 0 with (inject_Z 0). rewrite <- Zlt_Qlt. cbn [length]. lia.
  - intros Hall. rewrite (Heq Hall). reflexivity.
Qed.

End AccuracyFacts.

(** Two rows: a clear choice of the first pair, and a tie. *)
Lemma accuracy_counts_predicted_negatives_witness :
  exists choices raw : list Z,
    FromScratch.break_ties
      [[(1 # 2)%Q; (3 # 10)%Q; (1 # 5)%Q];
       [(1 # 3)%Q; (1 # 3)%Q; (1 # 3)%Q]]
    = Some choices /\
    choices = [0%Z; (-1)%Z] /\
    FromScratch.convert_predictions raw = [2%Z; 2%Z] /\
    Spec.share_of_zero choices
    <= PredictionSpec.share_of_negatives
         (FromScratch.convert_predictions raw).
Proof.
  destruct (AccuracyFacts.accuracy_counts_predicted_negatives
              [[(1 # 2)%Q; (3 # 10)%Q; (1 # 5)%Q];
               [(1 # 3)%Q; (1 # 3)%Q; (1 # 3)%Q]])
    as [choices [raw [Hc [Hr [_ [Hle _]]]]]].
  - discriminate.
  - repeat constructor.
  - exists choices, raw. split; [exact Hc |].
    vm_compute in Hc. injection Hc as <-.
    vm_compute in Hr. injection Hr as <-.
    split; [reflexivity |]. split; [reflexivity |]. exact Hle.
Defined.

(** *** What a prediction step needs *)

Module HookFacts.

Import Torch FromScratch Spec.

Lemma zip_mul_rows_length (a b m : Matrix) :
  zip_mul_rows a b = Some m -> length m = length a.
Proof.
  revert b m. induction a as [| x a IH]; intros [| y b] m; simpl;
    try discriminate.
  - intros H. now injection H as <-.
  - destruct (mul_vec x y); [| discriminate]. simpl.
    destruct (zip_mul_rows a b) as [rs |] eqn:Hrs; [| discriminate]. simpl.
    intros H. injection H as <-. simpl. now rewrite (IH _ _ Hrs).
Qed.

Lemma mul_length (a b m : Matrix) :
  length a = length b -> mul a b = Some m -> length m = length a.
Proof.
  intros Hlen. unfold mul. rewrite Hlen, Nat.eqb_refl, <- Hlen.
  apply zip_mul_rows_length.
Qed.

Lemma stack3_shape (a b c : Vec) (m : Matrix) :
  stack3 a b c = Some m ->
  length m = length a /\ Forall (fun row => length row = 3%nat) m.
Proof.
  revert b c m. induction a as [| x a IH]; intros [| y b] [| z c] m; simpl;
    try discriminate.
  - intros H. injection H as <-. split; [reflexivity | constructor].
  - destruct (stack3 a b c) as [rs |] eqn:Hrs; [| discriminate]. simpl.
    intros H. injection H as <-. destruct (IH _ _ _ Hrs) as [Hlen Hrows].
    split; [simpl; now rewrite Hlen | now constructor].
Qed.

Lemma unbind_thirds (e anchor positive negative : Matrix) :
  unbind (Some e) = Some (anchor, positive, negative) ->
  (length e mod 3 = 0)%nat /\
  Forall (fun row => row <> []) e /\
  length anchor = (length e / 3)%nat /\
  length positive = (length e / 3)%nat.
Proof.
  unfold unbind, Py.bind. cbv zeta.
  destruct (existsb (fun row : list Q => (length row =? 0)%nat) e) eqn:Hz;
    [discriminate |].
  destruct (length e mod 3 =? 0)%nat eqn:Hm; [| discriminate].
  apply Nat.eqb_eq in Hm. intros H.
  pose proof (Nat.div_mod_eq (length e) 3) as Hdiv.
  set (bs := (length e / 3)%nat) in *. injection H as <- <- _.
  rewrite !length_firstn, !length_skipn.
  split; [exact Hm |]. split; [| lia].
  apply Forall_forall. intros row Hin ->.
  assert (Hex : existsb (fun row : list Q => (length row =? 0)%nat) e = true)
    by (apply existsb_exists; exists []; split; [exact Hin | reflexivity]).
  congruence.
Qed.

Section WithModule.

Context {Images : Type}.
Variable cat : list Images -> Images.
Variable exp : Q -> Q.

(** X23.  The prediction step returns only on a hooked activation that
    splits into triplets: the forward hook has stored a tensor whose row
    count is a multiple of three and that has no empty row (with no module
    of the configured name there is no hook, and the step raises).  It then
    returns one prediction per triplet, each of them 0, 1 or 2. *)
Theorem predict_step_needs_hooked_triplets (self : LightningModule Images)
  (things0 things1 things2 imagenet_images : Images) (labels : list Z)
  (batch_idx : Z) (predictions : list Z)
  (H : predict_step cat exp self
         ((things0, things1, things2), (imagenet_images, labels)) batch_idx
       = Some predictions) :
  exists e : Matrix,
    hooked_activation (model self) (module self)
      (cat [things0; things1; things2])
    = Some e /\
    (length e mod 3 = 0)%nat /\
    Forall (fun row => row <> []) e /\
    length predictions = (length e / 3)%nat /\
    Forall (fun p => p = anchor_id \/ p = positive_id \/ p = negative_id)
      predictions.
Proof.
  unfold predict_step, forward in H.
  destruct (hooked_activation _ _ _) as [e |] eqn:He; [| discriminate].
  exists e. split; [reflexivity |].
  destruct (unbind (Some e)) as [[[anchor positive] negative] |] eqn:Hu;
    [| discriminate].
  cbn [Py.bind] in H.
  destruct (unbind_thirds e anchor positive negative Hu)
    as [Hmod [Hrows [Ha Hp]]].
  destruct (compute_similarities anchor positive negative)
    as [[[sim_i sim_j] sim_k] |] eqn:Hs; [| discriminate].
  cbn [Py.bind] in H.
  destruct (stack3 sim_i sim_j sim_k) as [stacked |] eqn:Hst;
    [| discriminate].
  cbn [Py.bind] in H.
  destruct (Py.mapM argmax (softmax exp stacked)) as [raw |] eqn:Hraw;
    [| discriminate].
  cbn [Py.bind] in H. injection H as <-.
  destruct (stack3_shape _ _ _ _ Hst) as [Hlen H3].
  split; [exact Hmod |]. split; [exact Hrows |]. split.
  - unfold convert_predictions. rewrite !length_map.
    apply PyFacts.mapM_Forall2, Forall2_length in Hraw.
    unfold softmax in Hraw. rewrite length_map in Hraw.
    unfold compute_similarities in Hs.
    destruct (mul anchor positive) as [ap |] eqn:Hm; [| discriminate].
    cbn [Py.bind] in Hs.
    destruct (mul anchor negative); [| discriminate]. cbn [Py.bind] in Hs.
    destruct (mul positive negative); [| discriminate]. cbn [Py.bind] in Hs.
    injection Hs as <- _ _. unfold sum_dim1 in Hlen.
    rewrite length_map in Hlen.
    assert (Hap : length ap = length anchor)
      by (apply (mul_length anchor positive ap); congruence).
    exact (eq_trans (eq_sym Hraw) (eq_trans Hlen (eq_trans Hap Ha))).
  - apply (Prediction.convert_predictions_members (softmax exp stacked)).
    + now apply Steps.softmax_rows.
    + now apply Prediction.argmax_rows.
Qed.

End WithModule.

End HookFacts.

(** The demo batch: one triplet. *)
Lemma predict_step_needs_hooked_triplets_witness :
  exists e : Torch.Matrix,
    FromScratch.hooked_activation Demo.extractor "penultimate" tt = Some e /\
    (length e mod 3 = 0)%nat /\
    FromScratch.predict_step Demo.cat Demo.exp (Demo.probe 0) Demo.batch 0
    = Some [2%Z].
Proof.
  destruct (HookFacts.predict_step_needs_hooked_triplets Demo.cat Demo.exp
              (Demo.probe 0) tt tt tt tt [0%Z] 0%Z [2%Z] eq_refl)
    as [e [He [Hmod _]]].
  exists e. split; [exact He |]. split; [exact Hmod | reflexivity].
Defined.
